(** * Multi-timeframe trend signal and trade simulation engine

    A shallow embedding of the indicator engine, the timeframe combiner, the
    mode selector and the signal generator of [misterlabsalgototweak.py]
    (class [NikesMassiveRocketPhemex]) and of the simulator and the
    profit-factor metric of [institutional_binance_backtester.py] (class
    [InstitutionalBacktester]).

    The backtester drives a strategy object of the Binance class, whose file
    is not among the sources; the Phemex class documents itself as an exact
    copy of it and stands for it here.  The functions of the backtester that
    read the strategy's parameter table take the table as an argument.

    Numbers are the values a float64 can take, with exact rational
    arithmetic on the finite ones: rounding and the sign of zero are left
    out, the two infinities and NaN are kept, because the source relies on
    how pandas and numpy propagate them.  Exact arithmetic and float64 part
    where a sum absorbs one of its terms or a product leaves the range of
    the normal numbers, and Python raises where numpy yields an infinity:
    the theorems whose conclusion depends on it keep to the inputs of
    [Domain].  A frame is the list of its rows, a column the list of its
    cells. *)

From Stdlib Require Import QArith Qabs Qround Lqa Lia List Bool ZArith Sorted.
From Stdlib Require String.
Import ListNotations.
Open Scope Q_scope.

(** ** Float values *)

Module Fl.

Inductive fl : Type :=
| Fin (q : Q)
| PInf
| NInf
| NaN.

Definition Qltb (a b : Q) : bool := negb (Qle_bool b a).

(** Infinity carrying the sign of [a]; NaN when [a] is zero. *)
Definition signed_inf (a : Q) : fl :=
  match a ?= 0 with
  | Gt => PInf
  | Lt => NInf
  | Eq => NaN
  end.

Definition neg (x : fl) : fl :=
  match x with
  | Fin q => Fin (- q)
  | PInf => NInf
  | NInf => PInf
  | NaN => NaN
  end.

Definition add (x y : fl) : fl :=
  match x, y with
  | NaN, _ | _, NaN => NaN
  | Fin a, Fin b => Fin (a + b)
  | PInf, NInf | NInf, PInf => NaN
  | PInf, _ | _, PInf => PInf
  | NInf, _ | _, NInf => NInf
  end.

Definition sub (x y : fl) : fl := add x (neg y).

Definition mul (x y : fl) : fl :=
  match x, y with
  | NaN, _ | _, NaN => NaN
  | Fin a, Fin b => Fin (a * b)
  | Fin a, PInf | PInf, Fin a => signed_inf a
  | Fin a, NInf | NInf, Fin a => signed_inf (- a)
  | PInf, PInf | NInf, NInf => PInf
  | PInf, NInf | NInf, PInf => NInf
  end.

Definition div (x y : fl) : fl :=
  match x, y with
  | NaN, _ | _, NaN => NaN
  | Fin a, Fin b => if Qeq_bool b 0 then signed_inf a else Fin (a / b)
  | Fin _, PInf | Fin _, NInf => Fin 0
  | PInf, Fin b => if Qltb b 0 then NInf else PInf
  | NInf, Fin b => if Qltb b 0 then PInf else NInf
  | _, _ => NaN
  end.

Definition abs (x : fl) : fl :=
  match x with
  | Fin q => Fin (Qabs q)
  | PInf | NInf => PInf
  | NaN => NaN
  end.

(** Ordered comparison; [None] as soon as one side is NaN. *)
Definition compare (x y : fl) : option comparison :=
  match x, y with
  | NaN, _ | _, NaN => None
  | Fin a, Fin b => Some (a ?= b)
  | PInf, PInf | NInf, NInf => Some Eq
  | NInf, _ | _, PInf => Some Lt
  | PInf, _ | _, NInf => Some Gt
  end.

Definition ltb (x y : fl) : bool :=
  match compare x y with Some Lt => true | _ => false end.
Definition leb (x y : fl) : bool :=
  match compare x y with Some Lt | Some Eq => true | _ => false end.
Definition gtb (x y : fl) : bool := ltb y x.
Definition geb (x y : fl) : bool := leb y x.
Definition eqb (x y : fl) : bool :=
  match compare x y with Some Eq => true | _ => false end.
Definition neb (x y : fl) : bool := negb (eqb x y).

Definition isna (x : fl) : bool :=
  match x with NaN => true | _ => false end.

(** Python's builtin [min(a, b)]: the first argument unless the second is
    strictly smaller. *)
Definition py_min (a b : fl) : fl := if ltb b a then b else a.

(** [numpy.sign]. *)
Definition sign (x : fl) : fl :=
  match x with
  | Fin q => match q ?= 0 with Gt => Fin 1 | Lt => Fin (-1) | Eq => Fin 0 end
  | PInf => Fin 1
  | NInf => Fin (-1)
  | NaN => NaN
  end.

(** Equality up to the representation of the rational. *)
Definition equiv (x y : fl) : Prop :=
  match x, y with
  | Fin a, Fin b => a == b
  | PInf, PInf | NInf, NInf | NaN, NaN => True
  | _, _ => False
  end.

Definition is_fin (x : fl) : Prop := exists q, x = Fin q.

End Fl.

Import Fl.

Declare Scope fl_scope.
Delimit Scope fl_scope with fl.
Bind Scope fl_scope with fl.
Infix "+" := Fl.add : fl_scope.
Infix "-" := Fl.sub : fl_scope.
Infix "*" := Fl.mul : fl_scope.
Infix "/" := Fl.div : fl_scope.
Infix "<?" := Fl.ltb (at level 70) : fl_scope.
Infix "<=?" := Fl.leb (at level 70) : fl_scope.
Infix ">?" := Fl.gtb (at level 70) : fl_scope.
Infix ">=?" := Fl.geb (at level 70) : fl_scope.
Infix "=?" := Fl.eqb (at level 70) : fl_scope.
Infix "=~" := Fl.equiv (at level 70) : type_scope.

(** ** Where exact arithmetic stands for float64 *)

Module Domain.

(** A positive magnitude between 1e-30 and 1e30: the few products and
    quotients of a sizing stay clear of overflow and underflow. *)
Definition moderate (q : Q) : Prop :=
  1 # 1000000000000000000000000000000 <= q
  /\ q <= 1000000000000000000000000000000.

(** A price that does not absorb the ATR: it is at most a million ATRs, so
    that [price - 1.5 * atr] and [price + atr] differ from the price in
    float64 as they do in exact arithmetic. *)
Definition resolves (price atr : Q) : Prop := price <= 1000000 * atr.

(** A divisor on which Python's float division does not raise. *)
Definition nonzero (x : fl) : Prop := (x =? Fin 0)%fl = false.

(** Successive prices within a factor of two of each other: the difference
    of two such float64 values is itself a float64 value, so the sign of a
    price change and the order of two price changes are those of the exact
    numbers. *)
Fixpoint steady (xs : list Q) : Prop :=
  match xs with
  | x :: (y :: _) as r => x <= 2 * y /\ y <= 2 * x /\ steady r
  | _ => True
  end.

End Domain.

(** ** Data model *)

Inductive Signal : Type := BUY | SELL | NEUTRAL.

Inductive Mode : Type := aggressive | conservative.

Inductive ExitReason : Type := StopLoss | TakeProfit | EndOfData.

(** One entry of the strategy's [params] dictionary. *)
Record ModeParams : Type := {
  trend_strength_threshold : fl;
  max_trend_strength_threshold : fl;
  min_volatility_percentile : fl;
  profit_target_multiplier : fl;
  risk_per_trade : fl
}.

(** An input bar (one row of an OHLCV frame). *)
Record Bar : Type := {
  b_datetime : Z;
  b_open : fl;
  b_high : fl;
  b_low : fl;
  b_close : fl;
  b_volume : fl
}.

(** A bar with the indicator columns [calculate_indicators] adds.  The
    Bollinger columns are left out: nothing downstream reads them. *)
Record IndicatorFrame : Type := {
  bar : Bar;
  ema9 : fl;
  ema21 : fl;
  ema50 : fl;
  ema100 : fl;
  ema200 : fl;
  ema_aligned_bull : bool;
  ema_aligned_bear : bool;
  macd : fl;
  macd_signal : fl;
  rsi : fl;
  adx : fl;
  atr14 : fl;
  atr_pct : fl;
  vol_percentile : fl;
  strong_trend : bool;
  trend_strength : fl
}.

(** A row of the frame [combine_timeframes] returns: the lower-timeframe
    row with the five columns it adds. *)
Record Row : Type := {
  frame : IndicatorFrame;
  daily_trend : fl;
  medium_trend : fl;
  lower_trend : fl;
  combined_trend : fl;
  timeframe_alignment : fl
}.

Definition datetime (r : Row) : Z := b_datetime (bar (frame r)).
Definition close (r : Row) : fl := b_close (bar (frame r)).

(** The dictionary returned by [generate_signal]. *)
Record SignalData : Type := {
  sd_signal : Signal;
  sd_confidence : fl;
  sd_mode : Mode;
  sd_entry_price : fl;
  sd_stop_loss : fl;
  sd_take_profit : fl;
  sd_atr : fl;
  sd_risk_per_trade : fl
}.

(** The dictionary returned by [simulate_trade]. *)
Record Position : Type := {
  entry_time : Z;
  side : Signal;
  entry_price : fl;
  position_size : fl;
  leverage : fl;
  stop_loss : fl;
  take_profit : fl;
  entry_fee : fl;
  pos_mode : Mode;
  pos_confidence : fl
}.

(** A closed position: the position's dictionary updated with the exit keys.
    [total_fees] is absent from the record of an end-of-data close. *)
Record Trade : Type := {
  position : Position;
  exit_time : Z;
  exit_price : fl;
  exit_reason : ExitReason;
  pnl_dollar : fl;
  pnl_percent : fl;
  total_fees : option fl;
  capital_after : fl
}.

Record EquityPoint : Type := {
  ep_datetime : Z;
  ep_equity : fl;
  ep_price : fl
}.

(** ** The pandas operations the engine is written with *)

Module Pandas.

Definition of_bool (b : bool) : fl := Fin (if b then 1 else 0).

(** Element-wise binary operation on two columns of one frame. *)
Fixpoint zip_with {A B C : Type} (f : A -> B -> C) (xs : list A) (ys : list B)
  : list C :=
  match xs, ys with
  | x :: xs', y :: ys' => f x y :: zip_with f xs' ys'
  | _, _ => []
  end.

(** [Series.shift(1)]. *)
Definition shift (xs : list fl) : list fl :=
  match xs with
  | [] => []
  | _ => NaN :: removelast xs
  end.

(** [Series.diff()]. *)
Definition diff (xs : list fl) : list fl :=
  zip_with Fl.sub xs (shift xs).

(** [Series.where(cond, other)] with the condition computed per element. *)
Definition where_ (cond : fl -> bool) (xs : list fl) (other : fl) : list fl :=
  map (fun x => if cond x then x else other) xs.

(** [Series.fillna(v)]. *)
Definition fillna (v : fl) (xs : list fl) : list fl :=
  map (fun x => if isna x then v else x) xs.

(** [Series.iloc[0] = v]. *)
Definition set_first (v : fl) (xs : list fl) : list fl :=
  match xs with
  | [] => []
  | _ :: r => v :: r
  end.

(** Row-wise [max(axis=1)] over three columns, NaN skipped. *)
Definition max_skipna2 (a b : fl) : fl :=
  if isna a then b else if isna b then a else if Fl.ltb a b then b else a.
Definition max_skipna3 (a b c : fl) : fl := max_skipna2 (max_skipna2 a b) c.

(** One step of the exponentially weighted mean with [adjust=False] and
    [ignore_na=False]: the state is the running mean and the weight the old
    mean carries.  An equal observation leaves the mean untouched. *)
Definition ewm_step (alpha : Q) (st : fl * Q) (cur : fl) : fl * Q :=
  let '(weighted, old_wt) := st in
  if isna weighted then
    (if isna cur then st else (cur, old_wt))
  else
    let old_wt' := (old_wt * (1 - alpha))%Q in
    if isna cur then (weighted, old_wt')
    else ((if Fl.neb weighted cur
           then ((Fin old_wt' * weighted + Fin alpha * cur)
                 / Fin (old_wt' + alpha))%fl
           else weighted), 1%Q).

Fixpoint ewm_from (alpha : Q) (st : fl * Q) (xs : list fl) : list fl :=
  match xs with
  | [] => []
  | x :: r => let st' := ewm_step alpha st x in fst st' :: ewm_from alpha st' r
  end.

Definition finite (x : fl) : bool :=
  match x with Fin _ => true | _ => false end.

(** What a rolling, an expanding or an exponentially weighted window reads
    of a cell: pandas turns the infinities into NaN before it aggregates. *)
Definition prep (x : fl) : fl := if finite x then x else NaN.

(** [Series.ewm(alpha=alpha, adjust=False).mean()]. *)
Definition ewm_mean (alpha : Q) (xs : list fl) : list fl :=
  match map prep xs with
  | [] => []
  | x :: r => x :: ewm_from alpha (x, 1%Q) r
  end.

(** [Series.ewm(span=span, adjust=False).mean()]. *)
Definition ewm_span (span : positive) (xs : list fl) : list fl :=
  ewm_mean (2 / (inject_Z (Zpos span) + 1))%Q xs.

(** The last [n] elements of the prefix of length [S i]. *)
Definition window (n i : nat) (xs : list fl) : list fl :=
  skipn (S i - n) (firstn (S i) xs).

(** A rolling window yields a value once it holds [n] observations; the
    infinities are turned into NaN before they are counted. *)
Definition window_full (n : nat) (w : list fl) : bool :=
  Nat.eqb (length (filter finite w)) n.

(** [pd.Series(x).rank(pct=True).iloc[-1] * 100] on a full window: the
    average rank of the last element over the number of elements. *)
Definition rank_pct_last (w : list fl) : fl :=
  let x := last w NaN in
  let less := length (filter (fun y => Fl.ltb y x) w) in
  let equal := length (filter (fun y => Fl.eqb y x) w) in
  let rank := (inject_Z (Z.of_nat less)
               + (inject_Z (Z.of_nat equal) + 1) / 2)%Q in
  (Fin rank / Fin (inject_Z (Z.of_nat (length w))) * Fin 100)%fl.

(** [Series.rolling(window=n).apply(rank_pct_last)]. *)
Definition rolling_rank_pct (n : nat) (xs : list fl) : list fl :=
  map (fun i => let w := window n i xs in
                if window_full n w then rank_pct_last w else NaN)
      (seq 0 (length xs)).

(** [Series.rolling(window=n).mean()]. *)
Definition rolling_mean (n : nat) (xs : list fl) : list fl :=
  map (fun i => let w := window n i xs in
                if window_full n w
                then (fold_left Fl.add w (Fin 0)
                      / Fin (inject_Z (Z.of_nat n)))%fl
                else NaN)
      (seq 0 (length xs)).

End Pandas.

(** ** The strategy: [NikesMassiveRocketPhemex] *)

Module Strategy.

Import Pandas.

Definition params (m : Mode) : ModeParams :=
  match m with
  | aggressive =>
      {| trend_strength_threshold := Fin 0.2;
         max_trend_strength_threshold := Fin 0.9;
         min_volatility_percentile := Fin 15;
         profit_target_multiplier := Fin 3.5;
         risk_per_trade := Fin 0.04 |}
  | conservative =>
      {| trend_strength_threshold := Fin 0.2;
         max_trend_strength_threshold := Fin 1;
         min_volatility_percentile := Fin 15;
         profit_target_multiplier := Fin 2.5;
         risk_per_trade := Fin 0.02 |}
  end.

Definition w_daily : fl := Fin 0.5.
Definition w_medium : fl := Fin 0.3.
Definition w_lower : fl := Fin 0.2.

Definition confidence_mode_selector (confidence vol_percentile : fl) : fl :=
  let vol_factor := (Fin 1 - vol_percentile / Fin 100)%fl in
  (Fin 0.5 * confidence + Fin 0.5 * vol_factor)%fl.

(** ['aggressive' if score >= 0.5 else 'conservative']. *)
Definition mode_of_score (score : fl) : Mode :=
  if (score >=? Fin 0.5)%fl then aggressive else conservative.

(** [wilder_smooth], local to [calculate_indicators]. *)
Definition wilder_smooth (series : list fl) (period : positive) : list fl :=
  let alpha := (1 / (Zpos period # 1))%Q in
  ewm_mean alpha series.

(** The true range column, as both the ADX and the ATR blocks build it. *)
Definition true_range (high low close : list fl) : list fl :=
  let prev_close := shift close in
  let tr1 := zip_with Fl.sub high low in
  let tr2 := set_first (Fin 0)
               (map Fl.abs (zip_with Fl.sub high prev_close)) in
  let tr3 := set_first (Fin 0)
               (map Fl.abs (zip_with Fl.sub low prev_close)) in
  zip_with (fun a bc => max_skipna3 a (fst bc) (snd bc))
           tr1 (zip_with pair tr2 tr3).

(** [calculate_tradingview_adx], with [dilen = adxlen = 14]. *)
Definition calculate_tradingview_adx (high low close : list fl) : list fl :=
  let up := diff high in
  let down := map Fl.neg (diff low) in
  let plusDM :=
    zip_with (fun u d => if isna u then NaN
                         else if (u >? d)%fl && (u >? Fin 0)%fl then u
                              else Fin 0) up down in
  let minusDM :=
    zip_with (fun u d => if isna d then NaN
                         else if (d >? u)%fl && (d >? Fin 0)%fl then d
                              else Fin 0) up down in
  let truerange_rma := wilder_smooth (true_range high low close) 14 in
  let plusDM_rma := wilder_smooth plusDM 14 in
  let minusDM_rma := wilder_smooth minusDM 14 in
  let plus_di :=
    fillna (Fin 0)
      (zip_with (fun d t => (Fin 100 * (d / t))%fl) plusDM_rma truerange_rma) in
  let minus_di :=
    fillna (Fin 0)
      (zip_with (fun d t => (Fin 100 * (d / t))%fl) minusDM_rma truerange_rma) in
  let dx :=
    zip_with (fun p m =>
                let di_sum := (p + m)%fl in
                (Fin 100 * Fl.abs (p - m)
                 / (if (di_sum =? Fin 0)%fl then Fin 1 else di_sum))%fl)
             plus_di minus_di in
  fillna (Fin 0) (wilder_smooth dx 14).

(** The RSI column. *)
Definition rsi_column (close : list fl) : list fl :=
  let delta := diff close in
  let gain := where_ (fun d => (d >? Fin 0)%fl) delta (Fin 0) in
  let loss := map Fl.neg (where_ (fun d => (d <? Fin 0)%fl) delta (Fin 0)) in
  let avg_gain := wilder_smooth gain 14 in
  let avg_loss := wilder_smooth loss 14 in
  fillna (Fin 50)
    (zip_with (fun g l =>
                 let rs := (g / l)%fl in
                 if (l =? Fin 0)%fl then Fin 100
                 else if (g =? Fin 0)%fl then Fin 0
                      else (Fin 100 - Fin 100 / (Fin 1 + rs))%fl)
              avg_gain avg_loss).

(** [(cond).astype(int) * 2 - 1]. *)
Definition pm1 (b : bool) : fl := (of_bool b * Fin 2 - Fin 1)%fl.

(** The trend-strength cell of one row, from the row's indicator cells. *)
Definition trend_strength_of
  (bull bear : bool) (close e50 e200 macd_v signal_v rsi_v : fl)
  (strong : bool) : fl :=
  let raw :=
    (of_bool bull * Fin 0.3
     - of_bool bear * Fin 0.3
     + pm1 (close >? e50) * Fin 0.15
     + pm1 (close >? e200) * Fin 0.15
     + pm1 (macd_v >? signal_v) * Fin 0.2
     + pm1 (rsi_v >? Fin 50) * Fin 0.2)%fl in
  (raw * (Fin 0.5 + Fin 0.5 * of_bool strong))%fl.

(** The indicator columns, computed once per frame. *)
Record Columns : Type := {
  c_ema9 : list fl;
  c_ema21 : list fl;
  c_ema50 : list fl;
  c_ema100 : list fl;
  c_ema200 : list fl;
  c_macd : list fl;
  c_signal : list fl;
  c_rsi : list fl;
  c_adx : list fl;
  c_atr : list fl;
  c_atr_pct : list fl;
  c_vol : list fl
}.

Definition indicator_columns (df : list Bar) : Columns :=
  let closes := map b_close df in
  let highs := map b_high df in
  let lows := map b_low df in
  let ema12 := ewm_span 12 closes in
  let ema26 := ewm_span 26 closes in
  let macd_c := zip_with Fl.sub ema12 ema26 in
  let atr_c := wilder_smooth (true_range highs lows closes) 14 in
  let atr_pct_c := zip_with (fun a c => (a / c * Fin 100)%fl) atr_c closes in
  {| c_ema9 := ewm_span 9 closes;
     c_ema21 := ewm_span 21 closes;
     c_ema50 := ewm_span 50 closes;
     c_ema100 := ewm_span 100 closes;
     c_ema200 := ewm_span 200 closes;
     c_macd := macd_c;
     c_signal := ewm_span 9 macd_c;
     c_rsi := rsi_column closes;
     c_adx := calculate_tradingview_adx highs lows closes;
     c_atr := atr_c;
     c_atr_pct := atr_pct_c;
     c_vol := rolling_rank_pct 100 atr_pct_c |}.

Definition no_bar : Bar :=
  {| b_datetime := 0; b_open := NaN; b_high := NaN; b_low := NaN;
     b_close := NaN; b_volume := NaN |}.

(** The row of index [i]: the cells of the columns at [i], and the columns
    computed cell by cell from them. *)
Definition indicator_row (df : list Bar) (cols : Columns) (i : nat)
  : IndicatorFrame :=
  let b := nth i df no_bar in
  let e9 := nth i (c_ema9 cols) NaN in
  let e21 := nth i (c_ema21 cols) NaN in
  let e50 := nth i (c_ema50 cols) NaN in
  let e100 := nth i (c_ema100 cols) NaN in
  let e200 := nth i (c_ema200 cols) NaN in
  let bull := (e9 >? e21)%fl && (e21 >? e50)%fl
              && (e50 >? e100)%fl && (e100 >? e200)%fl in
  let bear := (e9 <? e21)%fl && (e21 <? e50)%fl
              && (e50 <? e100)%fl && (e100 <? e200)%fl in
  let strong := (nth i (c_adx cols) NaN >? Fin 25)%fl in
  {| bar := b;
     ema9 := e9; ema21 := e21; ema50 := e50;
     ema100 := e100; ema200 := e200;
     ema_aligned_bull := bull;
     ema_aligned_bear := bear;
     macd := nth i (c_macd cols) NaN;
     macd_signal := nth i (c_signal cols) NaN;
     rsi := nth i (c_rsi cols) NaN;
     adx := nth i (c_adx cols) NaN;
     atr14 := nth i (c_atr cols) NaN;
     atr_pct := nth i (c_atr_pct cols) NaN;
     vol_percentile := nth i (c_vol cols) NaN;
     strong_trend := strong;
     trend_strength :=
       trend_strength_of bull bear (b_close b) e50 e200
         (nth i (c_macd cols) NaN) (nth i (c_signal cols) NaN)
         (nth i (c_rsi cols) NaN) strong |}.

(** On an empty frame the source raises at [tr2.iloc[0] = 0]; the model
    returns the empty frame, and the theorems about a prepared frame take a
    frame that is not empty. *)
Definition calculate_indicators (df : list Bar) : list IndicatorFrame :=
  let cols := indicator_columns df in
  map (indicator_row df cols) (seq 0 (length df)).

(** The trend strength of the last row of [df] dated at or before [t]; NaN
    when there is none. *)
Definition asof_trend (df : list IndicatorFrame) (t : Z) : fl :=
  match rev (filter (fun r => (b_datetime (bar r) <=? t)%Z) df) with
  | r :: _ => trend_strength r
  | [] => NaN
  end.

(** One row of [combine_timeframes].  The weighted sum is exact here;
    float64 rounds it in its last digit, so three trends of 0.2 combine to
    0.19999999999999998 there and to 1/5 here. *)
Definition combine_row (daily_df medium_df : list IndicatorFrame)
  (r : IndicatorFrame) : Row :=
  let current_time := b_datetime (bar r) in
  let daily := asof_trend daily_df current_time in
  let medium := asof_trend medium_df current_time in
  let lower := trend_strength r in
  if isna daily || isna medium || isna lower then
    {| frame := r; daily_trend := daily; medium_trend := medium;
       lower_trend := lower; combined_trend := NaN;
       timeframe_alignment := NaN |}
  else
    {| frame := r; daily_trend := daily; medium_trend := medium;
       lower_trend := lower;
       combined_trend :=
         (daily * w_daily + medium * w_medium + lower * w_lower)%fl;
       timeframe_alignment :=
         (Fin 1 - (Fl.abs (daily - medium) * Fin 0.4
                   + Fl.abs (daily - lower) * Fin 0.4
                   + Fl.abs (medium - lower) * Fin 0.2) / Fin 2)%fl |}.

Definition combine_timeframes (daily_df medium_df lower_df : list IndicatorFrame)
  : list Row :=
  map (combine_row daily_df medium_df) lower_df.

(** The signal part of [generate_signals_live], from the latest combined
    row on: signal, confidence, and the mode and score when they were
    computed.  The sizing fields of the output are left out. *)
Record LiveSignal : Type := {
  ls_signal : Signal;
  ls_confidence : fl;
  ls_mode_used : option Mode;
  ls_mode_score : fl
}.

Definition generate_signals_live (latest_row : Row) : LiveSignal :=
  if isna (combined_trend latest_row) || isna (timeframe_alignment latest_row)
  then {| ls_signal := NEUTRAL; ls_confidence := Fin 0;
          ls_mode_used := None; ls_mode_score := Fin 0 |}
  else
    let abs_trend := Fl.abs (combined_trend latest_row) in
    let trend_direction := Fl.sign (combined_trend latest_row) in
    let vol := vol_percentile (frame latest_row) in
    let score := confidence_mode_selector abs_trend vol in
    let mode := mode_of_score score in
    let current_params := params mode in
    let '(signal, confidence) :=
      if (abs_trend >=? trend_strength_threshold current_params)%fl
         && (abs_trend <=? max_trend_strength_threshold current_params)%fl
      then (if (trend_direction >? Fin 0)%fl then BUY else SELL,
            py_min abs_trend (Fin 0.99))
      else (NEUTRAL, Fin 0) in
    let '(signal, confidence) :=
      if (vol <? min_volatility_percentile current_params)%fl
         || (vol >? Fin 90)%fl
      then (NEUTRAL, Fin 0)
      else (signal, confidence) in
    {| ls_signal := signal; ls_confidence := confidence;
       ls_mode_used := Some mode; ls_mode_score := score |}.

End Strategy.

(** ** The backtester: [InstitutionalBacktester] *)

Module Backtester.

Import Strategy.

(** Constants set by [__init__]. *)
Definition max_leverage : fl := Fin 10.
Definition trading_fee : fl := Fin 0.0004.

(** The strategy object the backtester holds is used through its [params]
    table and its [confidence_mode_selector]; the table is a parameter
    here. *)
Definition generate_signal (strategy_params : Mode -> ModeParams) (row : Row)
  : option SignalData :=
  if isna (combined_trend row) || isna (timeframe_alignment row) then None
  else
    let combined := combined_trend row in
    let alignment := timeframe_alignment row in
    let vol := vol_percentile (frame row) in
    let abs_trend := Fl.abs combined in
    let trend_direction := Fl.sign combined in
    let confidence := abs_trend in
    let score := confidence_mode_selector confidence vol in
    let mode := mode_of_score score in
    let p := strategy_params mode in
    let signal :=
      if (abs_trend >=? trend_strength_threshold p)%fl
         && (abs_trend <=? max_trend_strength_threshold p)%fl
         && ((min_volatility_percentile p <=? vol)%fl && (vol <=? Fin 90)%fl)
         && (alignment >? Fin 0.3)%fl
      then (if (trend_direction >? Fin 0)%fl then BUY else SELL)
      else NEUTRAL in
    let entry := close row in
    let atr := atr14 (frame row) in
    let '(sl, tp) :=
      match signal with
      | BUY => ((entry - atr * Fin 1.5)%fl,
                (entry + atr * profit_target_multiplier p)%fl)
      | SELL => ((entry + atr * Fin 1.5)%fl,
                 (entry - atr * profit_target_multiplier p)%fl)
      | NEUTRAL => (entry, entry)
      end in
    Some {| sd_signal := signal;
            sd_confidence := confidence;
            sd_mode := mode;
            sd_entry_price := entry;
            sd_stop_loss := sl;
            sd_take_profit := tp;
            sd_atr := atr;
            sd_risk_per_trade := risk_per_trade p |}.

Definition is_entry (s : Signal) : bool :=
  match s with BUY | SELL => true | NEUTRAL => false end.

(** The leverage divides by the capital, a Python float: on a capital of
    zero the source raises where the model yields NaN, so the theorems that
    open a position take a capital that is not zero. *)
Definition simulate_trade (current_capital : fl)
  (signal_data : option SignalData) (current_price : fl) (current_time : Z)
  : option Position :=
  match signal_data with
  | None => None
  | Some sd =>
      if negb (is_entry (sd_signal sd)) then None
      else
        let risk_amount := (current_capital * sd_risk_per_trade sd)%fl in
        let entry := sd_entry_price sd in
        let sl := sd_stop_loss sd in
        let risk_per_unit := Fl.abs (entry - sl) in
        if (risk_per_unit <=? Fin 0)%fl then None
        else
          let size := (risk_amount / risk_per_unit)%fl in
          let position_value := (size * entry)%fl in
          let lev := py_min (position_value / current_capital)%fl max_leverage in
          let lev := if (lev <? Fin 1)%fl then Fin 1 else lev in
          let fee := (position_value * trading_fee)%fl in
          Some {| entry_time := current_time;
                  side := sd_signal sd;
                  entry_price := entry;
                  position_size := size;
                  leverage := lev;
                  stop_loss := sl;
                  take_profit := sd_take_profit sd;
                  entry_fee := fee;
                  pos_mode := sd_mode sd;
                  pos_confidence := sd_confidence sd |}
  end.

(** The mutable state of [run_backtest]: the three attributes of [self] it
    writes and the local [current_position]. *)
Record State : Type := {
  current_capital : fl;
  trades : list Trade;
  equity_curve : list EquityPoint;
  current_position : option Position
}.

(** Whether the position slot is taken. *)
Definition occupied (st : State) : bool :=
  match current_position st with Some _ => true | None => false end.

(** What a bar does to the position slot, in the order it does it. *)
Inductive Event : Type :=
| Closed (t : Trade)
| Opened (p : Position).

(** The exit test of an open position against the bar's close. *)
Definition exit_check (p : Position) (current_price : fl)
  : option (ExitReason * fl) :=
  match side p with
  | BUY =>
      if (current_price <=? stop_loss p)%fl then Some (StopLoss, stop_loss p)
      else if (current_price >=? take_profit p)%fl
           then Some (TakeProfit, take_profit p)
           else None
  | _ =>
      if (current_price >=? stop_loss p)%fl then Some (StopLoss, stop_loss p)
      else if (current_price <=? take_profit p)%fl
           then Some (TakeProfit, take_profit p)
           else None
  end.

(** The return divides by the entry price, a Python float: the source
    raises on an entry price of zero where the model yields an infinity or
    NaN. *)
Definition price_change (p : Position) (exit : fl) : fl :=
  match side p with
  | BUY => ((exit - entry_price p) / entry_price p)%fl
  | _ => ((entry_price p - exit) / entry_price p)%fl
  end.

(** The body of [if exit_triggered:]. *)
Definition close_position (st : State) (p : Position) (current_time : Z)
  (reason : ExitReason) (exit : fl) : State * Trade :=
  let leveraged_return := (price_change p exit * leverage p)%fl in
  let pnl := (current_capital st * leveraged_return)%fl in
  let exit_fee := (position_size p * exit * trading_fee)%fl in
  let fees := (entry_fee p + exit_fee)%fl in
  let pnl := (pnl - fees)%fl in
  let capital := (current_capital st + pnl)%fl in
  let trade := {| position := p;
                  exit_time := current_time;
                  exit_price := exit;
                  exit_reason := reason;
                  pnl_dollar := pnl;
                  pnl_percent := (leveraged_return * Fin 100)%fl;
                  total_fees := Some fees;
                  capital_after := capital |} in
  ({| current_capital := capital;
      trades := trades st ++ [trade];
      equity_curve := equity_curve st;
      current_position := None |}, trade).

(** "Handle existing position". *)
Definition handle_position (st : State) (row : Row) : State * list Event :=
  match current_position st with
  | None => (st, [])
  | Some p =>
      match exit_check p (close row) with
      | None => (st, [])
      | Some (reason, exit) =>
          let '(st', t) := close_position st p (datetime row) reason exit in
          (st', [Closed t])
      end
  end.

(** "Check for new entries". *)
Definition check_entry (strategy_params : Mode -> ModeParams)
  (st : State) (row : Row) : State * list Event :=
  match current_position st with
  | Some _ => (st, [])
  | None =>
      let signal_data := generate_signal strategy_params row in
      match signal_data with
      | Some sd =>
          if is_entry (sd_signal sd) then
            match simulate_trade (current_capital st) signal_data
                    (close row) (datetime row) with
            | Some p =>
                ({| current_capital := current_capital st;
                    trades := trades st;
                    equity_curve := equity_curve st;
                    current_position := Some p |}, [Opened p])
            | None => (st, [])
            end
          else (st, [])
      | None => (st, [])
      end
  end.

(** One iteration of the simulation loop at a row past the warm-up skip. *)
Definition bar_step (strategy_params : Mode -> ModeParams)
  (st : State) (row : Row) : State * list Event :=
  let st1 := {| current_capital := current_capital st;
                trades := trades st;
                equity_curve :=
                  equity_curve st
                  ++ [{| ep_datetime := datetime row;
                         ep_equity := current_capital st;
                         ep_price := close row |}];
                current_position := current_position st |} in
  let '(st2, ev1) := handle_position st1 row in
  let '(st3, ev2) := check_entry strategy_params st2 row in
  (st3, ev1 ++ ev2).

(** The [for i, (idx, row) in enumerate(...)] loop, from index [i] on. *)
Fixpoint run_loop (strategy_params : Mode -> ModeParams) (i : nat)
  (rows : list Row) (st : State) : State * list Event :=
  match rows with
  | [] => (st, [])
  | row :: rest =>
      if (i <? 250)%nat then run_loop strategy_params (S i) rest st
      else
        let '(st1, ev1) := bar_step strategy_params st row in
        let '(st2, ev2) := run_loop strategy_params (S i) rest st1 in
        (st2, ev1 ++ ev2)
  end.

(** "Close final position". *)
Definition close_final (st : State) (final_time : Z) (final_price : fl)
  : State * list Event :=
  match current_position st with
  | None => (st, [])
  | Some p =>
      let pnl_pct := price_change p final_price in
      let leveraged_return := (pnl_pct * leverage p)%fl in
      let pnl := (current_capital st * leveraged_return)%fl in
      let capital := (current_capital st + pnl)%fl in
      let trade := {| position := p;
                      exit_time := final_time;
                      exit_price := final_price;
                      exit_reason := EndOfData;
                      pnl_dollar := pnl;
                      pnl_percent := (leveraged_return * Fin 100)%fl;
                      total_fees := None;
                      capital_after := capital |} in
      ({| current_capital := capital;
          trades := trades st ++ [trade];
          equity_curve := equity_curve st;
          current_position := current_position st |}, [Closed trade])
  end.

Definition initial_state (initial_capital : fl) : State :=
  {| current_capital := initial_capital;
     trades := [];
     equity_curve := [];
     current_position := None |}.

(** [run_backtest] on the prepared frame, up to the call of
    [analyze_results]. *)
Definition run_backtest (strategy_params : Mode -> ModeParams)
  (initial_capital : fl) (prepared_df : list Row) : State * list Event :=
  let '(st, ev) :=
    run_loop strategy_params 0 prepared_df (initial_state initial_capital) in
  match rev prepared_df with
  | [] => (st, ev)
  | final :: _ =>
      let '(st', ev') := close_final st (datetime final) (close final) in
      (st', ev ++ ev')
  end.

(** [gross_profit], [gross_loss] and [profit_factor] of
    [calculate_institutional_metrics]. *)
Definition sum (xs : list fl) : fl := fold_left Fl.add xs (Fin 0).

Definition gross_profit (trades_df : list Trade) : fl :=
  sum (filter (fun x => (x >? Fin 0)%fl) (map pnl_dollar trades_df)).

Definition gross_loss (trades_df : list Trade) : fl :=
  Fl.abs (sum (filter (fun x => (x <? Fin 0)%fl) (map pnl_dollar trades_df))).

Definition profit_factor (trades_df : list Trade) : fl :=
  match trades_df with
  | [] => Fin 0
  | _ =>
      if (gross_loss trades_df >? Fin 0)%fl
      then (gross_profit trades_df / gross_loss trades_df)%fl
      else PInf
  end.

End Backtester.

(** ** The properties as the specification words them *)

Module Spec.

(** [clamp(x, lo, hi)]. *)
Definition clamp (x lo hi : fl) : fl :=
  if (x <? lo)%fl then lo else if (x >? hi)%fl then hi else x.


(** The Wilder recurrence on finite observations:
    [avg[i] = avg[i-1] + (1/period) * (x[i] - avg[i-1])], seeded by the
    first observation. *)
Fixpoint wilder_from (period : positive) (prev : Q) (xs : list Q) : list Q :=
  match xs with
  | [] => []
  | x :: r =>
      let avg := (prev + (1 / (Zpos period # 1)) * (x - prev))%Q in
      avg :: wilder_from period avg r
  end.

Definition wilder_recurrence (period : positive) (xs : list Q) : list Q :=
  match xs with
  | [] => []
  | x :: r => x :: wilder_from period x r
  end.

(** A column of cells that read as the numbers [qs]. *)
Definition reads (xs : list fl) (qs : list Q) : Prop :=
  Forall2 (fun x q => x =~ Fin q) xs qs.

(** The series the engine smooths, over finite prices: the change of a
    price from one bar to the next, the gains and the losses of the close,
    the directional movements of the high and the low, and the true
    range. *)
Definition deltas (xs : list Q) : list Q :=
  Pandas.zip_with Qminus (tl xs) (removelast xs).

Definition gains (closes : list Q) : list Q :=
  match closes with
  | [] => []
  | _ => 0 :: map (fun d => if Qltb 0 d then d else 0) (deltas closes)
  end.

Definition losses (closes : list Q) : list Q :=
  match closes with
  | [] => []
  | _ => 0 :: map (fun d => if Qltb d 0 then - d else 0) (deltas closes)
  end.

Definition plus_dm (highs lows : list Q) : list Q :=
  Pandas.zip_with (fun up down => if Qltb down up && Qltb 0 up then up else 0)
    (deltas highs) (map Qopp (deltas lows)).

Definition minus_dm (highs lows : list Q) : list Q :=
  Pandas.zip_with
    (fun up down => if Qltb up down && Qltb 0 down then down else 0)
    (deltas highs) (map Qopp (deltas lows)).

Definition max2 (a b : Q) : Q := if Qltb a b then b else a.

Definition true_ranges (highs lows closes : list Q) : list Q :=
  let tr1 := Pandas.zip_with Qminus highs lows in
  let tr2 := 0 :: map Qabs (Pandas.zip_with Qminus (tl highs)
                              (removelast closes)) in
  let tr3 := 0 :: map Qabs (Pandas.zip_with Qminus (tl lows)
                              (removelast closes)) in
  Pandas.zip_with (fun a bc => max2 (max2 a (fst bc)) (snd bc))
    tr1 (Pandas.zip_with pair tr2 tr3).

(** The RSI of an average gain and an average loss, and the RSI column with
    the two averages taken by the Wilder recurrence. *)
Definition rsi_of (avg_gain avg_loss : Q) : Q :=
  if Qeq_bool avg_loss 0 then 100
  else if Qeq_bool avg_gain 0 then 0
       else 100 - 100 / (1 + avg_gain / avg_loss).

Definition rsi_by_recurrence (closes : list Q) : list Q :=
  Pandas.zip_with rsi_of
    (wilder_recurrence 14 (gains closes))
    (wilder_recurrence 14 (losses closes)).

(** The directional indicator of a smoothed movement over the smoothed true
    range, the directional index of the two indicators, and the ADX column
    with the three averages and the final one taken by the Wilder
    recurrence.  The first bar has no movement: its indicators are 0. *)
Definition di_of (dm_avg tr_avg : Q) : Q := 100 * (dm_avg / tr_avg).

Definition dx_of (plus_di minus_di : Q) : Q :=
  100 * Qabs (plus_di - minus_di)
  / (if Qeq_bool (plus_di + minus_di) 0 then 1 else plus_di + minus_di).

Definition di_column (dm tr : list Q) : list Q :=
  match wilder_recurrence 14 tr with
  | [] => []
  | _ :: tr_avg => 0 :: Pandas.zip_with di_of (wilder_recurrence 14 dm) tr_avg
  end.

Definition adx_by_recurrence (highs lows closes : list Q) : list Q :=
  let tr := true_ranges highs lows closes in
  let plus_di := di_column (plus_dm highs lows) tr in
  let minus_di := di_column (minus_dm highs lows) tr in
  wilder_recurrence 14 (Pandas.zip_with dx_of plus_di minus_di).

(** The entry gate of the signal generator. *)
Definition gates_hold (p : ModeParams) (with_alignment : bool)
  (combined vol alignment : fl) : bool :=
  (trend_strength_threshold p <=? Fl.abs combined)%fl
  && (Fl.abs combined <=? max_trend_strength_threshold p)%fl
  && (min_volatility_percentile p <=? vol)%fl
  && (vol <=? Fin 90)%fl
  && (if with_alignment then (alignment >? Fin 0.3)%fl else true).

Definition negative (x : fl) : Prop := (x <? Fin 0)%fl = true.
Definition nonpositive (x : fl) : Prop := (x <=? Fin 0)%fl = true.

(** Positions open after a sequence of events: opens minus closes. *)
Fixpoint open_positions (ev : list Backtester.Event) : Z :=
  match ev with
  | [] => 0
  | Backtester.Opened _ :: r => (open_positions r + 1)%Z
  | Backtester.Closed _ :: r => (open_positions r - 1)%Z
  end.

(** A sequence of events that opens only when the slot is free and closes
    only when it is taken, from one occupancy of the slot to another. *)
Inductive alternates : bool -> list Backtester.Event -> bool -> Prop :=
| alt_nil (b : bool) : alternates b [] b
| alt_open (p : Position) (ev : list Backtester.Event) (b : bool) :
    alternates true ev b -> alternates false (Backtester.Opened p :: ev) b
| alt_close (t : Trade) (ev : list Backtester.Event) (b : bool) :
    alternates false ev b -> alternates true (Backtester.Closed t :: ev) b.

(** The trend threshold of a parameter record is a number above [v]. *)
Definition threshold_above (v : Q) (p : ModeParams) : Prop :=
  exists q, trend_strength_threshold p = Fin q /\ (v < q)%Q.

(** A flat price series: every bar opens, peaks, bottoms and closes at
    [c]. *)
Definition flat (c : Q) (df : list Bar) : Prop :=
  Forall (fun b => b_open b = Fin c /\ b_high b = Fin c
                   /\ b_low b = Fin c /\ b_close b = Fin c) df.

(** A bar whose high, low and close are numbers. *)
Definition finite_bar (b : Bar) : Prop :=
  Fl.is_fin (b_high b) /\ Fl.is_fin (b_low b) /\ Fl.is_fin (b_close b).

(** A cell holding a number or nothing. *)
Definition fin_or_nan (x : fl) : Prop := x = NaN \/ Fl.is_fin x.

(** A cell holding the number [v], and a cell holding [v] or nothing. *)
Definition near (v : Q) (x : fl) : Prop := x =~ Fin v.
Definition nan_or (v : Q) (x : fl) : Prop := x = NaN \/ x =~ Fin v.

(** A column of [n] cells that all satisfy [P]. *)
Definition column {A : Type} (n : nat) (P : A -> Prop) (l : list A) : Prop :=
  length l = n /\ Forall P l.

(** A value lies in the closed interval [[lo, hi]]. *)
Definition within (lo hi : Q) (x : fl) : Prop :=
  exists q, x = Fin q /\ lo <= q <= hi.

End Spec.

(** ** Sample data *)

Module Samples.

Definition bar_of (t : Z) (price : fl) : Bar :=
  {| b_datetime := t; b_open := price; b_high := price; b_low := price;
     b_close := price; b_volume := Fin 1 |}.

Definition frame_of (t : Z) (price atr vol trend : fl) : IndicatorFrame :=
  {| bar := bar_of t price;
     ema9 := price; ema21 := price; ema50 := price; ema100 := price;
     ema200 := price;
     ema_aligned_bull := false; ema_aligned_bear := false;
     macd := Fin 0; macd_signal := Fin 0; rsi := Fin 50; adx := Fin 0;
     atr14 := atr; atr_pct := (atr / price * Fin 100)%fl;
     vol_percentile := vol; strong_trend := false;
     trend_strength := trend |}.

(** A combined row whose three timeframes agree on [trend]. *)
Definition row_of (t : Z) (price atr vol trend alignment : fl) : Row :=
  {| frame := frame_of t price atr vol trend;
     daily_trend := trend; medium_trend := trend; lower_trend := trend;
     combined_trend := trend; timeframe_alignment := alignment |}.

(** A run that ends with its position open: 250 skipped rows, a
    conservative BUY at price 1 with ATR 0.02, and a last row at 1.01. *)
Definition open_at_end : list Row :=
  repeat (row_of 0 (Fin 1) (Fin 0.02) (Fin 60) (Fin 0) (Fin 1)) 250
  ++ [row_of 250 (Fin 1) (Fin 0.02) (Fin 60) (Fin 0.5) (Fin 0.9);
      row_of 251 (Fin 1.01) (Fin 0.02) (Fin 60) (Fin 0.5) (Fin 0.9)].

(** Three rising bars, far fewer than the 200 the slowest average spans. *)
Definition three_bars : list Bar :=
  [bar_of 0 (Fin 1); bar_of 1 (Fin 1.1); bar_of 2 (Fin 1.2)].

(** A flat series of 201 hourly bars at price 1. *)
Definition flat_bars : list Bar :=
  map (fun i => bar_of (Z.of_nat i) (Fin 1)) (seq 0 201).

(** Fourteen observations: a spike of 14 followed by thirteen zeros. *)
Definition spike : list fl := Fin 14 :: repeat (Fin 0) 13.

(** A run stopped out: 250 skipped rows, a conservative BUY at price 1
    with ATR 0.02, then a row at 0.96, below the stop at 0.97, on which no
    new signal fires. *)
Definition stopped_out : list Row :=
  repeat (row_of 0 (Fin 1) (Fin 0.02) (Fin 60) (Fin 0) (Fin 1)) 250
  ++ [row_of 250 (Fin 1) (Fin 0.02) (Fin 60) (Fin 0.5) (Fin 0.9);
      row_of 251 (Fin 0.96) (Fin 0.02) (Fin 60) (Fin 0.1) (Fin 0.9)].

(** A long position opened at price 1 and a trade that closed it with the
    given profit or loss. *)
Definition position_of (t : Z) : Position :=
  {| entry_time := t; side := BUY; entry_price := Fin 1;
     position_size := Fin 100; leverage := Fin 1; stop_loss := Fin 0.97;
     take_profit := Fin 1.05; entry_fee := Fin 0.04;
     pos_mode := conservative; pos_confidence := Fin 0.5 |}.

Definition trade_of (pnl : fl) : Trade :=
  {| position := position_of 0; exit_time := 1; exit_price := Fin 1;
     exit_reason := TakeProfit; pnl_dollar := pnl; pnl_percent := Fin 0;
     total_fees := Some (Fin 0.08); capital_after := Fin 10000 |}.

End Samples.

(** ** Trade-level and drawdown metrics *)

Module Metrics.

Import Pandas Backtester.

(** A length or a count, as the float it becomes in a division. *)
Definition count (n : nat) : fl := Fin (inject_Z (Z.of_nat n)).

Definition win_flag (t : Trade) : bool := (pnl_dollar t >? Fin 0)%fl.
Definition loss_flag (t : Trade) : bool := (pnl_dollar t <? Fin 0)%fl.

(** [(current_capital / initial_capital - 1) * 100]. *)
Definition total_return (initial_capital capital : fl) : fl :=
  ((capital / initial_capital - Fin 1) * Fin 100)%fl.

Definition win_rate (trades_df : list Trade) : fl :=
  match trades_df with
  | [] => Fin 0
  | _ => (count (length (filter win_flag trades_df))
          / count (length trades_df) * Fin 100)%fl
  end.

(** [Series.mean()] of a column without NaN. *)
Definition mean (xs : list fl) : fl := (sum xs / count (length xs))%fl.

Definition avg_win (trades_df : list Trade) : fl :=
  match filter win_flag trades_df with
  | [] => Fin 0
  | w => mean (map pnl_dollar w)
  end.

Definition avg_loss (trades_df : list Trade) : fl :=
  match filter loss_flag trades_df with
  | [] => Fin 0
  | l => mean (map pnl_dollar l)
  end.

(** [(win != win.shift()).cumsum()]: the streak number of each trade; the
    first trade always starts a streak. *)
Fixpoint streak_ids (prev : option bool) (id : nat) (wins : list bool)
  : list nat :=
  match wins with
  | [] => []
  | w :: r =>
      let changed := match prev with
                     | None => true
                     | Some p => negb (Bool.eqb w p)
                     end in
      let id' := if changed then S id else id in
      id' :: streak_ids (Some w) id' r
  end.

Definition streak_keys (wins : list bool) : list (nat * bool) :=
  combine (streak_ids None 0 wins) wins.

Definition key_dec (a b : nat * bool) : {a = b} + {a <> b}.
Proof.
  decide equality; [apply Bool.bool_dec|apply Nat.eq_dec].
Defined.

(** [groupby(['streak_id', 'win']).size()]: each distinct key with the
    number of trades that carry it. *)
Definition streak_counts (wins : list bool) : list ((nat * bool) * nat) :=
  let keys := streak_keys wins in
  map (fun k => (k, count_occ key_dec keys k)) (nodup key_dec keys).

(** The largest group among those whose win flag is [flag]; 0 when there is
    none. *)
Definition max_consecutive (flag : bool) (wins : list bool) : nat :=
  list_max
    (map snd
       (filter (fun kc => Bool.eqb (snd (fst kc)) flag) (streak_counts wins))).

Definition max_consecutive_wins (trades_df : list Trade) : nat :=
  max_consecutive true (map win_flag trades_df).

Definition max_consecutive_losses (trades_df : list Trade) : nat :=
  max_consecutive false (map win_flag trades_df).

Fixpoint expanding_max_from (cur : fl) (xs : list fl) : list fl :=
  match xs with
  | [] => []
  | x :: r =>
      let cur' := max_skipna2 cur (prep x) in
      cur' :: expanding_max_from cur' r
  end.

(** [Series.expanding().max()]. *)
Definition expanding_max (xs : list fl) : list fl :=
  expanding_max_from NaN xs.

Definition min_skipna2 (a b : fl) : fl :=
  if isna a then b else if isna b then a else if Fl.ltb b a then b else a.

(** [Series.min()]. *)
Definition min_skipna (xs : list fl) : fl := fold_left min_skipna2 xs NaN.

(** The drawdown column and [abs(drawdown.min()) * 100]. *)
Definition drawdown (equity : list fl) : list fl :=
  zip_with (fun e p => ((e - p) / p)%fl) equity (expanding_max equity).

Definition max_drawdown (equity : list fl) : fl :=
  (Fl.abs (min_skipna (drawdown equity)) * Fin 100)%fl.

End Metrics.

(** ** Position sizing of the live signal *)

Module Live.

Import Strategy.

(** Leverage bounds set by [__init__]. *)
Definition min_leverage : fl := Fin 1.
Definition max_leverage : fl := Fin 100.

(** [numpy.ceil]. *)
Definition ceil (x : fl) : fl :=
  match x with
  | Fin q => Fin (inject_Z (Qceiling q))
  | y => y
  end.

(** [int(x)]: truncation toward zero; an infinity or NaN raises. *)
Definition to_int (x : fl) : option Z :=
  match x with
  | Fin q => Some (if Qle_bool 0 q then Qfloor q else Qceiling q)
  | _ => None
  end.

(** The fields the sizing block writes into the signal dictionary. *)
Record Sizing : Type := {
  sz_position_size : fl;
  sz_leverage_raw : fl;
  sz_leverage_rounded : Z;
  sz_allocated_capital : fl;
  sz_stop_loss : fl;
  sz_take_profit : fl
}.

(** The block under [if signal in ['BUY', 'SELL']]; [None] when [int]
    raises. *)
Definition size_position (current_params : ModeParams) (current_equity : fl)
  (signal : Signal) (atr entry : fl) : option Sizing :=
  let '(sl, tp) :=
    match signal with
    | BUY => ((entry - atr * Fin 1.5)%fl,
              (entry + atr * profit_target_multiplier current_params)%fl)
    | _ => ((entry + atr * Fin 1.5)%fl,
            (entry - atr * profit_target_multiplier current_params)%fl)
    end in
  let risk_per_unit := Fl.abs (entry - sl) in
  let size := (risk_per_trade current_params * current_equity
               / risk_per_unit)%fl in
  let position_value := (size * entry)%fl in
  let calculated_leverage := (position_value / current_equity)%fl in
  let rounded_leverage :=
    if (calculated_leverage <? min_leverage)%fl then min_leverage
    else py_min (ceil calculated_leverage) max_leverage in
  match to_int rounded_leverage with
  | None => None
  | Some n =>
      Some {| sz_position_size := size;
              sz_leverage_raw := calculated_leverage;
              sz_leverage_rounded := n;
              sz_allocated_capital := (position_value / rounded_leverage)%fl;
              sz_stop_loss := sl;
              sz_take_profit := tp |}
  end.

(** What [generate_signals_live] returns once the equity and the latest
    combined row are known: the signal, and the sizing when there is one. *)
Record Output : Type := {
  out_signal : Signal;
  out_confidence : fl;
  out_mode_used : option Mode;
  out_sizing : option Sizing
}.

(** [generate_signals_live] after the two fetches; [None] when the sizing
    raises. *)
Definition signal_output (current_equity : fl) (latest_row : Row)
  : option Output :=
  if (current_equity =? Fin 0)%fl then
    Some {| out_signal := NEUTRAL; out_confidence := Fin 0;
            out_mode_used := None; out_sizing := None |}
  else
    let ls := generate_signals_live latest_row in
    match ls_signal ls, ls_mode_used ls with
    | NEUTRAL, _ | _, None =>
        Some {| out_signal := ls_signal ls;
                out_confidence := ls_confidence ls;
                out_mode_used := ls_mode_used ls; out_sizing := None |}
    | s, Some mode =>
        match size_position (params mode) current_equity s
                (atr14 (frame latest_row)) (close latest_row) with
        | None => None
        | Some sz =>
            Some {| out_signal := s; out_confidence := ls_confidence ls;
                    out_mode_used := Some mode; out_sizing := Some sz |}
        end
    end.

End Live.

(** ** Resampling and the preparation of the three timeframes *)

Module Resample.

Import Pandas Strategy.
Import String.StringSyntax.
Local Open Scope string_scope.

(** Stable insertion by timestamp: the grouper sorts a frame that is not in
    time order with a stable sort. *)
Fixpoint insert_bar (b : Bar) (l : list Bar) : list Bar :=
  match l with
  | [] => [b]
  | x :: r =>
      if (b_datetime b <=? b_datetime x)%Z then b :: l
      else x :: insert_bar b r
  end.

Fixpoint sort_bars (l : list Bar) : list Bar :=
  match l with
  | [] => []
  | b :: r => insert_bar b (sort_bars r)
  end.

(** The left edge of the bin of width [width] that holds [t]; timestamps
    are seconds since the epoch. *)
Definition bucket (width t : Z) : Z := (t / width * width)%Z.

(** Every bin from the one of the first bar to the one of the last. *)
Definition bins (width : Z) (sorted : list Bar) : list Z :=
  match sorted with
  | [] => []
  | b0 :: _ =>
      let lo := bucket width (b_datetime b0) in
      let hi := bucket width (b_datetime (last sorted b0)) in
      map (fun j => (lo + Z.of_nat j * width)%Z)
          (seq 0 (S (Z.to_nat ((hi - lo) / width))))
  end.

(** [first()], [last()], [max()], [min()] and [sum()] of a group: missing
    cells are skipped. *)
Definition first_valid (xs : list fl) : fl :=
  match filter (fun x => negb (isna x)) xs with
  | x :: _ => x
  | [] => NaN
  end.

Definition last_valid (xs : list fl) : fl := first_valid (rev xs).

Definition max_skipna (xs : list fl) : fl := fold_left max_skipna2 xs NaN.

Definition sum_skipna (xs : list fl) : fl :=
  fold_left Fl.add (filter (fun x => negb (isna x)) xs) (Fin 0).

Definition resample_bin (width : Z) (sorted : list Bar) (k : Z) : Bar :=
  let group := filter (fun b => (bucket width (b_datetime b) =? k)%Z) sorted in
  {| b_datetime := k;
     b_open := first_valid (map b_open group);
     b_high := max_skipna (map b_high group);
     b_low := Metrics.min_skipna (map b_low group);
     b_close := last_valid (map b_close group);
     b_volume := sum_skipna (map b_volume group) |}.

(** [DataFrame.dropna()] on the five value columns. *)
Definition complete (b : Bar) : bool :=
  negb (isna (b_open b) || isna (b_high b) || isna (b_low b)
        || isna (b_close b) || isna (b_volume b)).

Definition resample_width (width : Z) (df : list Bar) : list Bar :=
  let sorted := sort_bars df in
  filter complete (map (resample_bin width sorted) (bins width sorted)).

(** ['1d'] and ['4h'] are the supported timeframes; anything else
    raises. *)
Definition resample_to_timeframe (df : list Bar) (timeframe : String.string)
  : option (list Bar) :=
  if String.eqb timeframe "1d" then Some (resample_width 86400 df)
  else if String.eqb timeframe "4h" then Some (resample_width 14400 df)
  else None.

Definition prepare_multi_timeframe_data (hourly_df : list Bar)
  : option (list IndicatorFrame * list IndicatorFrame * list IndicatorFrame) :=
  match resample_to_timeframe hourly_df "1d" with
  | None => None
  | Some daily_df =>
      match resample_to_timeframe hourly_df "4h" with
      | None => None
      | Some four_hour_df =>
          Some (calculate_indicators daily_df,
                calculate_indicators four_hour_df,
                calculate_indicators hourly_df)
      end
  end.

(** [InstitutionalBacktester.prepare_data]. *)
Definition prepare_data (df : list Bar) : option (list Row) :=
  match prepare_multi_timeframe_data df with
  | None => None
  | Some (daily_df, four_hour_df, hourly_df) =>
      Some (combine_timeframes daily_df four_hour_df hourly_df)
  end.

(** The date filters of [run_backtest]. *)
Definition filter_dates (start_date end_date : option Z) (df : list Bar)
  : list Bar :=
  let df := match start_date with
            | Some s => filter (fun b => (s <=? b_datetime b)%Z) df
            | None => df
            end in
  match end_date with
  | Some e => filter (fun b => (b_datetime b <=? e)%Z) df
  | None => df
  end.

(** [run_backtest] from the loaded frame on. *)
Definition backtest (strategy_params : Mode -> ModeParams)
  (initial_capital : fl) (start_date end_date : option Z) (df : list Bar)
  : option (Backtester.State * list Backtester.Event) :=
  match prepare_data (filter_dates start_date end_date df) with
  | None => None
  | Some prepared_df =>
      Some (Backtester.run_backtest strategy_params initial_capital
              prepared_df)
  end.

End Resample.

(** ** The earlier simulator: [NikesMassiveRocket] *)

Module Legacy.

(** The parameter table of [NikesMassiveRocket.__init__]; it has no upper
    trend threshold. *)
Record Params : Type := {
  lg_trend_strength_threshold : fl;
  lg_min_volatility_percentile : fl;
  lg_profit_target_multiplier : fl;
  lg_risk_per_trade : fl
}.

Definition params (m : Mode) : Params :=
  match m with
  | aggressive =>
      {| lg_trend_strength_threshold := Fin 0.4;
         lg_min_volatility_percentile := Fin 15;
         lg_profit_target_multiplier := Fin 3.5;
         lg_risk_per_trade := Fin 0.04 |}
  | conservative =>
      {| lg_trend_strength_threshold := Fin 0.2;
         lg_min_volatility_percentile := Fin 15;
         lg_profit_target_multiplier := Fin 2.5;
         lg_risk_per_trade := Fin 0.02 |}
  end.

Definition confidence_mode_selector (confidence vol_percentile : fl) : fl :=
  let vol_factor := (Fin 1 - vol_percentile / Fin 100)%fl in
  (Fin 0.5 * confidence + Fin 0.5 * vol_factor)%fl.

Inductive Exit : Type := STOP_LOSS | TAKE_PROFIT | SIGNAL_REVERSAL.

(** The cells the loop writes on one row.  The exit column is read as
    holding a label or nothing. *)
Record Cells : Type := {
  o_signal : Signal;
  o_confidence : fl;
  o_mode_used : option Mode;
  o_mode_score : fl;
  o_position_size : fl;
  o_leverage : fl;
  o_stop_loss : fl;
  o_take_profit : fl;
  o_exit_signal : option Exit;
  o_equity : fl
}.

(** The values the columns are created with. *)
Definition default_cells (equity : fl) : Cells :=
  {| o_signal := NEUTRAL; o_confidence := Fin 0; o_mode_used := None;
     o_mode_score := Fin 0; o_position_size := Fin 0; o_leverage := Fin 1;
     o_stop_loss := Fin 0; o_take_profit := Fin 0; o_exit_signal := None;
     o_equity := equity |}.

(** The local variables [entry_price], [stop_loss], [take_profit] and
    [trade_direction], which are set exactly while [in_position] holds. *)
Record Holding : Type := {
  lg_entry_price : fl;
  lg_stop_loss : fl;
  lg_take_profit : fl;
  lg_trade_direction : Signal
}.

Record State : Type := {
  current_equity : fl;
  in_position : option Holding
}.

(** The signal and the confidence under the thresholds of [p]; the loop
    computes them twice, first with the conservative thresholds. *)
Definition signal_under (p : Params) (abs_trend trend_direction
  vol_percentile : fl) : Signal * fl :=
  let '(signal, confidence) :=
    if (abs_trend >=? lg_trend_strength_threshold p)%fl
    then (if (trend_direction >? Fin 0)%fl then BUY else SELL,
          py_min abs_trend (Fin 0.99))
    else (NEUTRAL, Fin 0) in
  if (vol_percentile <? lg_min_volatility_percentile p)%fl
     || (vol_percentile >? Fin 90)%fl
  then (NEUTRAL, Fin 0)
  else (signal, confidence).

(** The exit tests of an open trade, in the order the loop tries them: the
    label and the profit or loss. *)
Definition exit_of (current_params : Params) (current_equity : fl)
  (h : Holding) (signal : Signal) (row : Row) : option (Exit * fl) :=
  let current_price := close row in
  let high := b_high (bar (frame row)) in
  let low := b_low (bar (frame row)) in
  let entry_price := lg_entry_price h in
  let stop_loss := lg_stop_loss h in
  let take_profit := lg_take_profit h in
  let risk := lg_risk_per_trade current_params in
  match lg_trade_direction h with
  | BUY =>
      let reversal := match signal with SELL => true | _ => false end in
      if (low <=? stop_loss)%fl then
        Some (STOP_LOSS, (Fl.neg risk * current_equity)%fl)
      else if (high >=? take_profit)%fl then
        Some (TAKE_PROFIT,
              (risk * current_equity
               * ((take_profit - entry_price)
                  / (entry_price - stop_loss)))%fl)
      else if reversal then
        Some (SIGNAL_REVERSAL,
              ((current_price - entry_price) / (entry_price - stop_loss)
               * risk * current_equity)%fl)
      else None
  | SELL =>
      let reversal := match signal with BUY => true | _ => false end in
      if (high >=? stop_loss)%fl then
        Some (STOP_LOSS, (Fl.neg risk * current_equity)%fl)
      else if (low <=? take_profit)%fl then
        Some (TAKE_PROFIT,
              (risk * current_equity
               * ((entry_price - take_profit)
                  / (stop_loss - entry_price)))%fl)
      else if reversal then
        Some (SIGNAL_REVERSAL,
              ((entry_price - current_price) / (stop_loss - entry_price)
               * risk * current_equity)%fl)
      else None
  | NEUTRAL => None
  end.

(** One iteration of the loop at a row of index 200 or more. *)
Definition step (st : State) (row : Row) : State * Cells :=
  let equity := current_equity st in
  if isna (combined_trend row) || isna (timeframe_alignment row)
  then (st, default_cells equity)
  else
    let abs_trend := Fl.abs (combined_trend row) in
    let trend_direction := Fl.sign (combined_trend row) in
    let vol_percentile := vol_percentile (frame row) in
    let confidence :=
      snd (signal_under (params conservative) abs_trend trend_direction
             vol_percentile) in
    let score := confidence_mode_selector confidence vol_percentile in
    let mode := if (score >=? Fin 0.5)%fl then aggressive else conservative in
    let current_params := params mode in
    let '(signal, confidence) :=
      signal_under current_params abs_trend trend_direction vol_percentile in
    let cells :=
      {| o_signal := NEUTRAL; o_confidence := Fin 0;
         o_mode_used := Some mode; o_mode_score := score;
         o_position_size := Fin 0; o_leverage := Fin 1;
         o_stop_loss := Fin 0; o_take_profit := Fin 0;
         o_exit_signal := None; o_equity := equity |} in
    match in_position st with
    | Some h =>
        match exit_of current_params equity h signal row with
        | Some (label, pnl) =>
            let equity' := (equity + pnl)%fl in
            ({| current_equity := equity'; in_position := None |},
             {| o_signal := NEUTRAL; o_confidence := Fin 0;
                o_mode_used := Some mode; o_mode_score := score;
                o_position_size := Fin 0; o_leverage := Fin 1;
                o_stop_loss := Fin 0; o_take_profit := Fin 0;
                o_exit_signal := Some label; o_equity := equity' |})
        | None => (st, cells)
        end
    | None =>
        match signal with
        | NEUTRAL => (st, cells)
        | _ =>
            let atr := atr14 (frame row) in
            let entry_price := close row in
            let '(stop_loss, take_profit) :=
              match signal with
              | BUY =>
                  ((entry_price - atr * Fin 1.5)%fl,
                   (entry_price
                    + atr * lg_profit_target_multiplier current_params)%fl)
              | _ =>
                  ((entry_price + atr * Fin 1.5)%fl,
                   (entry_price
                    - atr * lg_profit_target_multiplier current_params)%fl)
              end in
            let risk_per_unit := Fl.abs (entry_price - stop_loss) in
            let position_size :=
              (lg_risk_per_trade current_params * equity
               / risk_per_unit)%fl in
            let leverage := (position_size * entry_price / equity)%fl in
            ({| current_equity := equity;
                in_position :=
                  Some {| lg_entry_price := entry_price;
                          lg_stop_loss := stop_loss;
                          lg_take_profit := take_profit;
                          lg_trade_direction := signal |} |},
             {| o_signal := signal; o_confidence := confidence;
                o_mode_used := Some mode; o_mode_score := score;
                o_position_size := position_size; o_leverage := leverage;
                o_stop_loss := stop_loss; o_take_profit := take_profit;
                o_exit_signal := None; o_equity := equity |})
        end
    end.

(** The loop over the rows from index 200 on. *)
Fixpoint run_from (st : State) (rows : list Row) : State * list Cells :=
  match rows with
  | [] => (st, [])
  | row :: rest =>
      let '(st1, c) := step st row in
      let '(st2, cs) := run_from st1 rest in
      (st2, c :: cs)
  end.

(** The columns [generate_signals_with_compounding_and_reversal] adds to
    the frame: the first 200 rows keep the values the columns were created
    with. *)
Definition generate_signals_with_compounding_and_reversal (df : list Row)
  (initial_equity : fl) : list Cells :=
  map (fun _ => default_cells initial_equity) (firstn 200 df)
  ++ snd (run_from {| current_equity := initial_equity;
                      in_position := None |} (skipn 200 df)).

End Legacy.

(** ** Readings of a run *)

Module Props.

(** The trades a sequence of events closed, in order. *)
Fixpoint closed_trades (ev : list Backtester.Event) : list Trade :=
  match ev with
  | [] => []
  | Backtester.Closed t :: r => t :: closed_trades r
  | Backtester.Opened _ :: r => closed_trades r
  end.

(** The number of leading flags equal to [b], and the length of the
    longest run of flags equal to [b]. *)
Fixpoint leading (b : bool) (l : list bool) : nat :=
  match l with
  | x :: r => if Bool.eqb x b then S (leading b r) else 0
  | [] => 0
  end.

Fixpoint longest_run (b : bool) (l : list bool) : nat :=
  match l with
  | [] => 0
  | x :: r =>
      if Bool.eqb x b then Nat.max (S (leading b r)) (longest_run b r)
      else longest_run b r
  end.

(** The streak keys of a list of flags whose predecessor carried the flag
    [p] and the streak number [id]. *)
Definition keys_from (p : bool) (id : nat) (l : list bool)
  : list (nat * bool) :=
  combine (Metrics.streak_ids (Some p) id l) l.

(** Keys already seen: none has a streak number above [id]. *)
Definition history (pre : list (nat * bool)) (id : nat) : Prop :=
  forall k, In k pre -> (fst k <= id)%nat.

(** A series that never falls below the value before it, starting from
    [m]. *)
Fixpoint no_fall (m : Q) (qs : list Q) : Prop :=
  match qs with
  | [] => True
  | q :: r => m <= q /\ no_fall q r
  end.

(** A bar whose five value cells are numbers. *)
Definition whole_bar (b : Bar) : Prop :=
  Fl.is_fin (b_open b) /\ Fl.is_fin (b_high b) /\ Fl.is_fin (b_low b)
  /\ Fl.is_fin (b_close b) /\ Fl.is_fin (b_volume b).

(** Two bars in time order. *)
Definition le_time (x y : Bar) : Prop := (b_datetime x <= b_datetime y)%Z.

(** A series in which each value is at least the fraction [f] of the one
    before it, starting from [m]. *)
Fixpoint falls_within (f m : Q) (qs : list Q) : Prop :=
  match qs with
  | [] => True
  | q :: r => f * m <= q /\ falls_within f q r
  end.

(** A row whose low, close and high are numbers in that order, whose
    close and ATR are of moderate size and whose close is at most a million
    ATRs, so that a stop and a target computed from them stay off the
    entry in float64. *)
Definition tradable (row : Row) : Prop :=
  exists l c h a,
    b_low (bar (frame row)) = Fin l /\ close row = Fin c
    /\ b_high (bar (frame row)) = Fin h /\ atr14 (frame row) = Fin a
    /\ l <= c <= h
    /\ Domain.moderate c /\ Domain.moderate a /\ Domain.resolves c a.

(** The stop and the target of an open trade of the earlier simulator lie
    on opposite sides of its entry. *)
Definition bracketed (h : Legacy.Holding) : Prop :=
  exists e s t,
    Legacy.lg_entry_price h = Fin e /\ Legacy.lg_stop_loss h = Fin s
    /\ Legacy.lg_take_profit h = Fin t
    /\ match Legacy.lg_trade_direction h with
       | BUY => s < e < t
       | SELL => t < e < s
       | NEUTRAL => False
       end.

(** A state of the earlier simulator with a positive equity and, when a
    trade is open, a bracketed one. *)
Definition sound (st : Legacy.State) : Prop :=
  (exists e, Legacy.current_equity st = Fin e /\ 0 < e)
  /\ match Legacy.in_position st with
     | Some h => bracketed h
     | None => True
     end.

(** An equity point taken at a row. *)
Definition point_of (ep : EquityPoint) (row : Row) : Prop :=
  ep_datetime ep = datetime row /\ ep_price ep = close row.

End Props.

(** ** More sample data *)

Module MoreSamples.

(** A conservative BUY at 1.00 with its stop at 0.97 and its target at
    1.05. *)
Definition buy_signal : SignalData :=
  {| sd_signal := BUY; sd_confidence := Fin 0.5; sd_mode := conservative;
     sd_entry_price := Fin 1; sd_stop_loss := Fin 0.97;
     sd_take_profit := Fin 1.05; sd_atr := Fin 0.02;
     sd_risk_per_trade := Fin 0.02 |}.

(** Rows past the warm-up skip whose trend is 0: none carries a signal. *)
Definition quiet_rows : list Row :=
  repeat (Samples.row_of 0 (Fin 1) (Fin 0.02) (Fin 60) (Fin 0) (Fin 1)) 252.

(** Thirty hourly bars from midnight on, the price rising by one each
    hour. *)
Definition hourly_bars : list Bar :=
  map (fun i => Samples.bar_of (Z.of_nat i * 3600)
                  (Fin (inject_Z (Z.of_nat i) + 1)))
      (seq 0 30).

(** Three hundred hourly bars at price 1, fifty of them past the warm-up
    skip of the simulation. *)
Definition flat_hours : list Bar :=
  map (fun i => Samples.bar_of (Z.of_nat i * 3600) (Fin 1)) (seq 0 300).

(** Four hourly bars that swing: up, down and up again. *)
Definition swing_bar (t : Z) (o h l c : Q) : Bar :=
  {| b_datetime := t; b_open := Fin o; b_high := Fin h; b_low := Fin l;
     b_close := Fin c; b_volume := Fin 1 |}.

Definition swing_bars : list Bar :=
  [swing_bar 0 1 1.1 0.9 1; swing_bar 3600 1 1.3 1 1.2;
   swing_bar 7200 1.2 1.25 0.95 1; swing_bar 10800 1 1.4 1 1.3].

End MoreSamples.

(** ** Facts about float values *)

Section FlFacts.

Lemma Qltb_lt (a b : Q) : Qltb a b = true <-> a < b.
Proof.
  unfold Qltb. rewrite negb_true_iff.
  split; intro H.
  - apply Qnot_le_lt. intro Hle. apply Qle_bool_iff in Hle. congruence.
  - destruct (Qle_bool b a) eqn:E; [|reflexivity].
    apply Qle_bool_iff in E. lra.
Qed.

Lemma ltb_fin (a b : Q) : (Fin a <? Fin b)%fl = true <-> a < b.
Proof.
  unfold Fl.ltb; simpl. rewrite Qlt_alt.
  destruct (a ?= b); split; congruence.
Qed.

Lemma leb_fin (a b : Q) : (Fin a <=? Fin b)%fl = true <-> a <= b.
Proof.
  unfold Fl.leb; simpl. rewrite Qle_alt.
  destruct (a ?= b); split; congruence.
Qed.

Lemma eqb_fin (a b : Q) : (Fin a =? Fin b)%fl = true <-> a == b.
Proof.
  unfold Fl.eqb; simpl. rewrite Qeq_alt.
  destruct (a ?= b); split; congruence.
Qed.

Lemma gtb_fin (a b : Q) : (Fin a >? Fin b)%fl = true <-> b < a.
Proof. unfold Fl.gtb. apply ltb_fin. Qed.

Lemma geb_fin (a b : Q) : (Fin a >=? Fin b)%fl = true <-> b <= a.
Proof. unfold Fl.geb. apply leb_fin. Qed.

Lemma Qltb_false (a b : Q) : Qltb a b = false <-> b <= a.
Proof.
  split; intro H.
  - destruct (Qlt_le_dec a b) as [Hlt|Hle]; [|exact Hle].
    apply Qltb_lt in Hlt. congruence.
  - destruct (Qltb a b) eqn:E; [|reflexivity].
    apply Qltb_lt in E. lra.
Qed.

Lemma div_fin (a b : Q) : ~ b == 0 -> (Fin a / Fin b)%fl = Fin (a / b).
Proof.
  intro H. cbn [Fl.div].
  destruct (Qeq_bool b 0) eqn:E; [|reflexivity].
  apply Qeq_bool_iff in E. contradiction.
Qed.

Lemma ltb_fin_false (a b : Q) : (Fin a <? Fin b)%fl = false <-> b <= a.
Proof.
  rewrite <- not_true_iff_false, ltb_fin. split; intro; lra.
Qed.

Lemma leb_fin_false (a b : Q) : (Fin a <=? Fin b)%fl = false <-> b < a.
Proof.
  rewrite <- not_true_iff_false, leb_fin. split; intro; lra.
Qed.

Lemma equiv_refl (x : fl) : x =~ x.
Proof. destruct x; simpl; auto. reflexivity. Qed.

Lemma prep_clean (x : fl) : Spec.fin_or_nan x -> Pandas.prep x = x.
Proof.
  intros [->|(q & ->)]; reflexivity.
Qed.

Lemma map_prep_clean (xs : list fl) :
  Forall Spec.fin_or_nan xs -> map Pandas.prep xs = xs.
Proof.
  induction 1 as [|x r Hx _ IH]; [reflexivity|].
  cbn [map]. rewrite IH, (prep_clean x Hx). reflexivity.
Qed.

(** On cells that are numbers or missing the weighted mean reads the
    column as it is. *)
Lemma ewm_mean_clean (alpha : Q) (xs : list fl) :
  Forall Spec.fin_or_nan xs ->
  Pandas.ewm_mean alpha xs
  = match xs with
    | [] => []
    | x :: r => x :: Pandas.ewm_from alpha (x, 1%Q) r
    end.
Proof.
  intro H. unfold Pandas.ewm_mean. rewrite (map_prep_clean xs H).
  reflexivity.
Qed.

Lemma near_clean (v : Q) (x : fl) : Spec.near v x -> Spec.fin_or_nan x.
Proof.
  unfold Spec.near. destruct x as [q| | |]; try contradiction.
  intros _. right. exists q. reflexivity.
Qed.

Lemma nan_or_clean (v : Q) (x : fl) : Spec.nan_or v x -> Spec.fin_or_nan x.
Proof.
  intros [->|H]; [left; reflexivity|exact (near_clean v x H)].
Qed.

End FlFacts.

(** Turn comparisons of finite values into statements on rationals. *)
Ltac fl_prop :=
  repeat match goal with
  | H : (Fin _ <? Fin _)%fl = true |- _ => apply ltb_fin in H
  | H : (Fin _ <=? Fin _)%fl = true |- _ => apply leb_fin in H
  | H : (Fin _ >? Fin _)%fl = true |- _ => apply gtb_fin in H
  | H : (Fin _ >=? Fin _)%fl = true |- _ => apply geb_fin in H
  | H : (Fin _ =? Fin _)%fl = true |- _ => apply eqb_fin in H
  | H : (Fin _ <? Fin _)%fl = false |- _ => apply ltb_fin_false in H
  | H : (Fin _ <=? Fin _)%fl = false |- _ => apply leb_fin_false in H
  | H : (Fin _ >? Fin _)%fl = false |- _ => apply ltb_fin_false in H
  | H : (Fin _ >=? Fin _)%fl = false |- _ => apply leb_fin_false in H
  end.

(** ** Mode selection *)

Section ModeSelector.

Import Strategy Backtester.



Lemma generate_signal_some (sp : Mode -> ModeParams) (row : Row)
  (sd : SignalData) :
  generate_signal sp row = Some sd ->
  isna (combined_trend row) = false /\
  isna (timeframe_alignment row) = false /\
  sd_confidence sd = Fl.abs (combined_trend row) /\
  sd_mode sd =
    mode_of_score (confidence_mode_selector (Fl.abs (combined_trend row))
                     (vol_percentile (frame row))) /\
  sd_entry_price sd = close row /\
  sd_atr sd = atr14 (frame row) /\
  sd_risk_per_trade sd = risk_per_trade (sp (sd_mode sd)).
Proof.
  unfold generate_signal.
  destruct (isna (combined_trend row)) eqn:E1; simpl; [discriminate|].
  destruct (isna (timeframe_alignment row)) eqn:E2; simpl; [discriminate|].
  match goal with
  | |- (let '(_, _) := ?m in _) = _ -> _ => destruct m
  end.
  intro H; injection H as <-. simpl. repeat split; reflexivity.
Qed.




End ModeSelector.

(** ** Opening a position *)

Section OpenPosition.

Import Strategy Backtester.

(** [min(x, max_leverage)] followed by the lift to 1 is the clamp of [x]
    to [[1, max_leverage]]. *)
Lemma leverage_is_clamp (x : fl) :
  (let lev := py_min x max_leverage in
   if (lev <? Fin 1)%fl then Fin 1 else lev)
  = Spec.clamp x (Fin 1) max_leverage.
Proof.
  unfold Spec.clamp, py_min, max_leverage, Fl.gtb.
  destruct x as [q| | |]; try reflexivity.
  cbv zeta.
  destruct (Fin 10 <? Fin q)%fl eqn:E1; destruct (Fin q <? Fin 1)%fl eqn:E2;
    try reflexivity.
  fl_prop. lra.
Qed.

Lemma simulate_trade_entry (capital : fl) (sd : SignalData) (price : fl)
  (t : Z) :
  is_entry (sd_signal sd) = true ->
  simulate_trade capital (Some sd) price t =
  if (Fl.abs (sd_entry_price sd - sd_stop_loss sd) <=? Fin 0)%fl then None
  else
    let size := (capital * sd_risk_per_trade sd
                 / Fl.abs (sd_entry_price sd - sd_stop_loss sd))%fl in
    let value := (size * sd_entry_price sd)%fl in
    Some {| entry_time := t;
            side := sd_signal sd;
            entry_price := sd_entry_price sd;
            position_size := size;
            leverage := Spec.clamp (value / capital)%fl (Fin 1) max_leverage;
            stop_loss := sd_stop_loss sd;
            take_profit := sd_take_profit sd;
            entry_fee := (value * trading_fee)%fl;
            pos_mode := sd_mode sd;
            pos_confidence := sd_confidence sd |}.
Proof.
  intro He. unfold simulate_trade. rewrite He. simpl.
  destruct (Fl.abs (sd_entry_price sd - sd_stop_loss sd) <=? Fin 0)%fl;
    [reflexivity|].
  cbv zeta. rewrite <- leverage_is_clamp. reflexivity.
Qed.

(** C3.  A flat simulator receiving a BUY or SELL signal opens nothing and
    stays flat when [|entry - stop_loss| <= 0]; otherwise, on an equity
    that is not zero -- the leverage divides by it, and Python raises on a
    zero divisor -- it opens the position sized
    [equity * risk_per_trade / |entry - stop_loss|], valued [size * entry],
    with leverage [clamp(value / equity, 1, max_leverage)] and entry fee
    [value * fee_rate].  With equity 10000, risk 0.02, entry 1 and stop 0.97
    the size is 20000/3 (about 6666.67) and the leverage 1. *)
Theorem C3_open_position (sp : Mode -> ModeParams) (st : State) (row : Row)
  (sd : SignalData) :
  current_position st = None ->
  generate_signal sp row = Some sd ->
  is_entry (sd_signal sd) = true ->
  let equity := current_capital st in
  let risk_per_unit := Fl.abs (sd_entry_price sd - sd_stop_loss sd) in
  let size := (equity * sd_risk_per_trade sd / risk_per_unit)%fl in
  let value := (size * sd_entry_price sd)%fl in
  ((risk_per_unit <=? Fin 0)%fl = true ->
     simulate_trade equity (Some sd) (close row) (datetime row) = None /\
     check_entry sp st row = (st, [])) /\
  ((risk_per_unit <=? Fin 0)%fl = false ->
   Domain.nonzero equity ->
     exists p,
       simulate_trade equity (Some sd) (close row) (datetime row) = Some p /\
       fst (check_entry sp st row)
       = {| current_capital := equity; trades := trades st;
            equity_curve := equity_curve st; current_position := Some p |} /\
       snd (check_entry sp st row) = [Opened p] /\
       side p = sd_signal sd /\
       position_size p = size /\
       leverage p = Spec.clamp (value / equity)%fl (Fin 1) max_leverage /\
       entry_fee p = (value * trading_fee)%fl) /\
  (forall t,
      let example :=
        {| sd_signal := BUY; sd_confidence := Fin 0.5;
           sd_mode := conservative; sd_entry_price := Fin 1;
           sd_stop_loss := Fin 0.97; sd_take_profit := Fin 1.05;
           sd_atr := Fin 0.02; sd_risk_per_trade := Fin 0.02 |} in
      exists p,
        simulate_trade (Fin 10000) (Some example) (Fin 1) t = Some p /\
        position_size p =~ Fin (20000 / 3) /\
        Spec.within 6666.66 6666.67 (position_size p) /\
        (position_size p * entry_price p / Fin 10000)%fl =~ Fin (2 / 3) /\
        leverage p = Fin 1).
Proof.
  intros Hflat Hsig Hentry equity rpu size value.
  subst equity.
  pose proof (simulate_trade_entry (current_capital st) sd (close row)
                (datetime row) Hentry) as Hsim.
  fold rpu in Hsim.
  assert (Hchk : check_entry sp st row =
                 match simulate_trade (current_capital st) (Some sd)
                         (close row) (datetime row) with
                 | Some p =>
                     ({| current_capital := current_capital st;
                         trades := trades st;
                         equity_curve := equity_curve st;
                         current_position := Some p |}, [Opened p])
                 | None => (st, [])
                 end).
  { unfold check_entry. rewrite Hflat. cbv zeta. rewrite Hsig, Hentry.
    reflexivity. }
  repeat split.
  - rewrite Hsim, H. reflexivity.
  - rewrite Hchk, Hsim, H. reflexivity.
  - intros Hpos _. rewrite Hpos in Hsim. cbv zeta in Hsim.
    eexists. split; [exact Hsim|].
    rewrite Hchk, Hsim.
    simpl. repeat split; reflexivity.
  - intros t example. eexists. split; [vm_compute; reflexivity|].
    cbn [position_size entry_price leverage].
    split; [|split; [|split]].
    + vm_compute. reflexivity.
    + eexists. split; [reflexivity|]. split; vm_compute; discriminate.
    + vm_compute. reflexivity.
    + reflexivity.
Qed.

(** A conservative BUY at price 1 with ATR 0.02 on an equity of 10000. *)
Lemma C3_open_position_witness :
  let row := Samples.row_of 7 (Fin 1) (Fin 0.02) (Fin 60) (Fin 0.5) (Fin 0.9) in
  exists p,
    simulate_trade (Fin 10000) (generate_signal params row) (close row)
      (datetime row) = Some p /\
    position_size p =~ Fin (20000 / 3) /\
    leverage p = Fin 1.
Proof.
  intro row.
  destruct (generate_signal params row) as [sd|] eqn:E;
    [|vm_compute in E; discriminate E].
  assert (Hs : is_entry (sd_signal sd) = true)
    by (vm_compute in E; injection E as <-; reflexivity).
  destruct (C3_open_position params (initial_state (Fin 10000)) row sd
              eq_refl E Hs) as (_ & Hopen & _).
  destruct Hopen as (p & Hp & _ & _ & _ & Hsize & Hlev & _).
  - vm_compute in E; injection E as <-; reflexivity.
  - reflexivity.
  - exists p. split; [exact Hp|]. split.
    + rewrite Hsize. vm_compute in E; injection E as <-. vm_compute. reflexivity.
    + rewrite Hlev. vm_compute in E; injection E as <-. vm_compute. reflexivity.
Defined.

End OpenPosition.

(** ** Closing a position *)

Section ClosePosition.

Import Strategy Backtester.

(** A close on a stop or a target moves the equity [e] to
    [e * (1 + leveraged_return) - (entry_fee + exit_fee)]. *)
Lemma exit_close_equity_law (st : State) (p : Position) (t : Z)
  (reason : ExitReason) (exit : fl) (e lr fee_in fee_out : Q) :
  current_capital st = Fin e ->
  (price_change p exit * leverage p)%fl = Fin lr ->
  entry_fee p = Fin fee_in ->
  (position_size p * exit * trading_fee)%fl = Fin fee_out ->
  let '(st', trade) := close_position st p t reason exit in
  current_capital st' =~ Fin (e * (1 + lr) - (fee_in + fee_out)) /\
  capital_after trade = current_capital st' /\
  total_fees trade = Some (Fin (fee_in + fee_out)) /\
  current_position st' = None /\
  trades st' = trades st ++ [trade].
Proof.
  intros He Hlr Hin Hout. unfold close_position. cbv zeta.
  rewrite He, Hlr, Hin, Hout. simpl.
  repeat split; try reflexivity. ring.
Qed.

(** The close at the end of the data moves the equity [e] to
    [e * (1 + leveraged_return)]: no fee enters the update. *)
Lemma final_close_equity_law (st : State) (p : Position) (t : Z)
  (price : fl) (e lr : Q) :
  current_position st = Some p ->
  current_capital st = Fin e ->
  (price_change p price * leverage p)%fl = Fin lr ->
  current_capital (fst (close_final st t price)) =~ Fin (e * (1 + lr)).
Proof.
  intros Hp He Hlr. unfold close_final. rewrite Hp. cbv zeta.
  rewrite He, Hlr. simpl. ring.
Qed.

(** C1 at the end of the data.  The run [Samples.open_at_end] from an equity of
    10000 opens one position (entry fee 8/3, leverage 1) and closes it at
    the last price 1.01: the equity becomes 10100 = 10000 * (1 + 0.01), not
    10000 * (1 + 0.01) minus the entry and exit fees as the equity law
    requires and as the stop and target closes compute it. *)
Theorem C1_end_of_data_close_skips_fees :
  exists st p t,
    run_backtest params (Fin 10000) Samples.open_at_end = (st, [Opened p; Closed t]) /\
    position t = p /\
    exit_reason t = EndOfData /\
    leverage p = Fin 1 /\
    entry_fee p =~ Fin (8 / 3) /\
    (position_size p * exit_price t * trading_fee)%fl =~ Fin (2.02 * 4 / 3) /\
    (price_change p (exit_price t) * leverage p)%fl =~ Fin 0.01 /\
    total_fees t = None /\
    capital_after t =~ Fin (10000 * (1 + 0.01)) /\
    current_capital st =~ Fin 10100 /\
    ~ (capital_after t
       =~ Fin (10000 * (1 + 0.01) - (8 / 3 + 2.02 * 4 / 3))).
Proof.
  do 3 eexists.
  split; [vm_compute; reflexivity|].
  cbn [position exit_reason leverage entry_fee position_size exit_price
       total_fees capital_after current_capital].
  repeat (split; [vm_compute; reflexivity|]).
  vm_compute. discriminate.
Qed.

End ClosePosition.

(** ** Profit factor *)

Section ProfitFactor.

Import Backtester.

Import Spec.

Lemma add_nonpositive_negative (a b : fl) :
  nonpositive a -> negative b -> negative (a + b)%fl.
Proof.
  unfold nonpositive, negative.
  destruct a as [x| | |], b as [y| | |]; simpl; intros Ha Hb;
    try discriminate; try reflexivity.
  fl_prop. apply ltb_fin. lra.
Qed.

Lemma negative_nonpositive (a : fl) : negative a -> nonpositive a.
Proof.
  unfold nonpositive, negative.
  destruct a as [x| | |]; simpl; intros Ha; try discriminate; try reflexivity.
  fl_prop. apply leb_fin. lra.
Qed.

Lemma fold_add_negative (l : list fl) (acc : fl) :
  Forall negative l -> l <> [] -> nonpositive acc ->
  negative (fold_left Fl.add l acc).
Proof.
  revert acc. induction l as [|x l IH]; intros acc Hall Hne Hacc.
  - congruence.
  - inversion Hall as [|? ? Hx Hl]; subst. simpl.
    pose proof (add_nonpositive_negative acc x Hacc Hx) as Hs.
    destruct l as [|y l'].
    + exact Hs.
    + apply IH; [exact Hl|discriminate|apply negative_nonpositive, Hs].
Qed.

Lemma abs_negative_positive (x : fl) :
  negative x -> (Fl.abs x >? Fin 0)%fl = true.
Proof.
  unfold negative. destruct x as [q| | |]; simpl; intro H;
    try discriminate; try reflexivity.
  fl_prop. apply gtb_fin.
  rewrite Qabs_neg by lra. lra.
Qed.

Lemma filter_nil_iff {A : Type} (f : A -> bool) (l : list A) :
  filter f l = [] <-> forall x, In x l -> f x = false.
Proof.
  induction l as [|a l IH]; simpl.
  - split; [intros _ x []|reflexivity].
  - destruct (f a) eqn:E.
    + split; [discriminate|]. intro H.
      specialize (H a (or_introl eq_refl)). congruence.
    + rewrite IH. split.
      * intros H x [<-|Hx]; auto.
      * intros H x Hx. apply H. right. exact Hx.
Qed.

(** C9.  The profit factor is the sum of the winning trades' P&L over the
    absolute value of the sum of the losing trades' P&L whenever the log has
    a losing trade; it is +infinity for a log with a winning trade and no
    losing one; it is 0 for the empty log. *)
Theorem C9_profit_factor (trades_df : list Trade) :
  let pnl := map pnl_dollar trades_df in
  let wins := filter (fun x => (x >? Fin 0)%fl) pnl in
  let losses := filter (fun x => (x <? Fin 0)%fl) pnl in
  ((exists t, In t trades_df /\ (pnl_dollar t <? Fin 0)%fl = true) ->
   profit_factor trades_df = (sum wins / Fl.abs (sum losses))%fl) /\
  ((exists t, In t trades_df /\ (pnl_dollar t >? Fin 0)%fl = true) ->
   (forall t, In t trades_df -> (pnl_dollar t <? Fin 0)%fl = false) ->
   profit_factor trades_df = PInf) /\
  (trades_df = [] -> profit_factor trades_df = Fin 0).
Proof.
  intros pnl wins losses. split; [|split].
  - intros (t & Hin & Hneg).
    assert (Hne : losses <> []).
    { intro Hnil. apply filter_nil_iff with (x := pnl_dollar t) in Hnil.
      - congruence.
      - apply in_map. exact Hin. }
    assert (Hall : Forall negative losses).
    { apply Forall_forall. intros x Hx. apply filter_In in Hx.
      exact (proj2 Hx). }
    assert (Hgl : (gross_loss trades_df >? Fin 0)%fl = true).
    { apply abs_negative_positive. apply fold_add_negative; auto.
      reflexivity. }
    unfold profit_factor. destruct trades_df as [|t0 r]; [destruct Hin|].
    rewrite Hgl. reflexivity.
  - intros (t & Hin & Hpos) Hno.
    assert (Hnil : losses = []).
    { apply filter_nil_iff. intros x Hx. apply in_map_iff in Hx.
      destruct Hx as (t' & <- & Ht'). apply Hno. exact Ht'. }
    unfold profit_factor. destruct trades_df as [|t0 r]; [destruct Hin|].
    unfold gross_loss. fold pnl. fold losses. rewrite Hnil. reflexivity.
  - intros ->. reflexivity.
Qed.

(** Two winners and a loser give 150 / 50; two winners alone give
    +infinity. *)
Lemma C9_profit_factor_witness :
  profit_factor [Samples.trade_of (Fin 100); Samples.trade_of (Fin (-50));
                 Samples.trade_of (Fin 50)] =~ Fin 3 /\
  profit_factor [Samples.trade_of (Fin 100); Samples.trade_of (Fin 50)] = PInf.
Proof.
  split.
  - rewrite (proj1 (C9_profit_factor _)).
    + vm_compute. reflexivity.
    + exists (Samples.trade_of (Fin (-50))). split; [|reflexivity].
      simpl. auto.
  - apply (proj1 (proj2 (C9_profit_factor _))).
    + exists (Samples.trade_of (Fin 100)). split; [|reflexivity].
      simpl. auto.
    + intros t [<-|[<-|[]]]; reflexivity.
Defined.

End ProfitFactor.

(** ** Signal gates *)

Section SignalGates.

Import Strategy Backtester.

Lemma generate_signal_signal (sp : Mode -> ModeParams) (row : Row)
  (sd : SignalData) :
  generate_signal sp row = Some sd ->
  let p := sp (sd_mode sd) in
  let abs_trend := Fl.abs (combined_trend row) in
  sd_signal sd =
    if (abs_trend >=? trend_strength_threshold p)%fl
       && (abs_trend <=? max_trend_strength_threshold p)%fl
       && ((min_volatility_percentile p <=? vol_percentile (frame row))%fl
           && (vol_percentile (frame row) <=? Fin 90)%fl)
       && (timeframe_alignment row >? Fin 0.3)%fl
    then (if (Fl.sign (combined_trend row) >? Fin 0)%fl then BUY else SELL)
    else NEUTRAL.
Proof.
  unfold generate_signal.
  destruct (isna (combined_trend row)) eqn:E1; simpl; [discriminate|].
  destruct (isna (timeframe_alignment row)) eqn:E2; simpl; [discriminate|].
  match goal with
  | |- (let '(_, _) := ?m in _) = _ -> _ => destruct m
  end.
  intro H; injection H as <-. reflexivity.
Qed.

(** A trend whose magnitude reaches a positive threshold has a sign. *)
Lemma direction_of_trend (x : fl) (q : Q) :
  (0 < q)%Q -> (Fl.abs x >=? Fin q)%fl = true ->
  ((Fl.sign x >? Fin 0)%fl = true /\ (x >? Fin 0)%fl = true
   /\ (x <? Fin 0)%fl = false)
  \/ ((Fl.sign x >? Fin 0)%fl = false /\ (x <? Fin 0)%fl = true
      /\ (x >? Fin 0)%fl = false).
Proof.
  intros Hq Habs. destruct x as [c| | |]; simpl in *.
  - fl_prop.
    destruct (Qcompare_spec c 0) as [He|Hlt|Hgt].
    + rewrite He in Habs. simpl in Habs. lra.
    + right. split; [reflexivity|]. split.
      * apply ltb_fin. exact Hlt.
      * apply ltb_fin_false. lra.
    + left. split; [reflexivity|]. split.
      * apply gtb_fin. exact Hgt.
      * apply ltb_fin_false. lra.
  - left. repeat split; reflexivity.
  - right. repeat split; reflexivity.
  - discriminate.
Qed.

Lemma ltb_negb_leb (x y : fl) :
  isna x = false -> isna y = false -> (x <? y)%fl = negb (y <=? x)%fl.
Proof.
  unfold Fl.ltb, Fl.leb.
  destruct x as [a| | |], y as [b| | |]; simpl; intros; try discriminate;
    try reflexivity.
  rewrite <- (Qcompare_antisym a b). destruct (a ?= b); reflexivity.
Qed.

Lemma params_positive_threshold (m : Mode) :
  Spec.threshold_above 0 (params m).
Proof.
  destruct m; exists 0.2; split; try reflexivity.
Qed.

Lemma signal_cases (g d : bool) (x : fl) :
  (g = true ->
   (d = true /\ (x >? Fin 0)%fl = true /\ (x <? Fin 0)%fl = false)
   \/ (d = false /\ (x <? Fin 0)%fl = true /\ (x >? Fin 0)%fl = false)) ->
  let s := if g then (if d then BUY else SELL) else NEUTRAL in
  (s = BUY <-> g = true /\ (x >? Fin 0)%fl = true) /\
  (s = SELL <-> g = true /\ (x <? Fin 0)%fl = true) /\
  (s = NEUTRAL <-> g = false).
Proof.
  intros H s. subst s. destruct g.
  - destruct (H eq_refl) as [(-> & Hp & Hn)|(-> & Hn & Hp)];
      rewrite Hp, Hn; repeat split; intros; try congruence;
      try tauto; try (destruct H0; congruence).
  - repeat split; intros; try congruence; destruct H0; congruence.
Qed.

(** C4.  On a row whose combined trend and alignment are defined, the
    backtester's signal is BUY (trend above 0) or SELL (trend below 0)
    exactly when the active mode's gates hold --
    threshold <= |trend| <= max threshold, min volatility percentile <=
    vol_percentile <= 90 and alignment > 0.3 -- and NEUTRAL exactly when
    they do not; the live path does the same without the alignment gate on
    a row whose volatility percentile is defined.  The thresholds of the
    parameter table are positive. *)
Theorem C4_signal_gates (sp : Mode -> ModeParams) (row : Row)
  (sd : SignalData) :
  (forall m, Spec.threshold_above 0 (sp m)) ->
  generate_signal sp row = Some sd ->
  let combined := combined_trend row in
  let vol := vol_percentile (frame row) in
  let alignment := timeframe_alignment row in
  let gate := Spec.gates_hold (sp (sd_mode sd)) true combined vol alignment in
  let live := generate_signals_live row in
  let live_gate :=
    Spec.gates_hold (params (sd_mode sd)) false combined vol alignment in
  ((sd_signal sd = BUY <-> gate = true /\ (combined >? Fin 0)%fl = true) /\
   (sd_signal sd = SELL <-> gate = true /\ (combined <? Fin 0)%fl = true) /\
   (sd_signal sd = NEUTRAL <-> gate = false)) /\
  (isna vol = false ->
   (ls_signal live = BUY
    <-> live_gate = true /\ (combined >? Fin 0)%fl = true) /\
   (ls_signal live = SELL
    <-> live_gate = true /\ (combined <? Fin 0)%fl = true) /\
   (ls_signal live = NEUTRAL <-> live_gate = false)).
Proof.
  intros Hthr Hsig. cbv zeta.
  destruct (generate_signal_some sp row sd Hsig)
    as (Hct & Hal & _ & Hmode & _).
  set (combined := combined_trend row) in *.
  set (vol := vol_percentile (frame row)) in *.
  set (alignment := timeframe_alignment row) in *.
  split.
  - rewrite (generate_signal_signal sp row sd Hsig). cbv zeta.
    fold combined vol alignment.
    set (gate := Spec.gates_hold (sp (sd_mode sd)) true combined vol alignment).
    assert (Hg : ((Fl.abs combined >=? trend_strength_threshold (sp (sd_mode sd)))%fl
       && (Fl.abs combined <=? max_trend_strength_threshold (sp (sd_mode sd)))%fl
       && ((min_volatility_percentile (sp (sd_mode sd)) <=? vol)%fl
           && (vol <=? Fin 90)%fl)
       && (alignment >? Fin 0.3)%fl) = gate).
    { unfold gate, Spec.gates_hold, Fl.geb.
      repeat match goal with |- context [(?a <=? ?b)%fl] =>
        let c := fresh "c" in set (c := (a <=? b)%fl) end.
      destruct c, c0, c1, c2; reflexivity. }
    rewrite Hg. apply signal_cases. intro Hgate.
    destruct (Hthr (sd_mode sd)) as (q & Hq & Hpos).
    apply direction_of_trend with (q := q); [exact Hpos|].
    unfold gate, Spec.gates_hold in Hgate. rewrite Hq in Hgate.
    unfold Fl.geb.
    destruct (Fin q <=? Fl.abs combined)%fl; [reflexivity|discriminate].
  - intro Hvol.
    set (live_gate :=
           Spec.gates_hold (params (sd_mode sd)) false combined vol alignment).
    assert (Hlive : ls_signal (generate_signals_live row) =
                    if live_gate
                    then (if (Fl.sign combined >? Fin 0)%fl then BUY else SELL)
                    else NEUTRAL).
    { unfold generate_signals_live. fold combined vol alignment.
      rewrite Hct, Hal. cbn [orb]. cbv zeta. rewrite <- Hmode.
      unfold live_gate, Spec.gates_hold, Fl.geb, Fl.gtb.
      rewrite (ltb_negb_leb vol) by (auto; destruct (sd_mode sd); reflexivity).
      rewrite (ltb_negb_leb (Fin 90) vol) by auto.
      repeat match goal with |- context [(?a <=? ?b)%fl] =>
        let c := fresh "c" in set (c := (a <=? b)%fl) end.
      destruct c, c0, c1, c2; reflexivity. }
    rewrite Hlive. apply signal_cases. intro Hgate.
    apply direction_of_trend with (q := 0.2%Q); [reflexivity|].
    unfold live_gate, Spec.gates_hold in Hgate.
    unfold Fl.geb.
    destruct (sd_mode sd); simpl in Hgate;
      destruct (Fin 0.2 <=? Fl.abs combined)%fl;
      try reflexivity; discriminate.
Qed.

(** A conservative BUY: trend 0.5, alignment 0.9, volatility percentile
    60. *)
Lemma C4_signal_gates_witness :
  match generate_signal params
          (Samples.row_of 7 (Fin 1) (Fin 0.02) (Fin 60) (Fin 0.5) (Fin 0.9))
  with
  | Some sd => sd_signal sd = BUY
  | None => False
  end.
Proof.
  destruct (generate_signal params
              (Samples.row_of 7 (Fin 1) (Fin 0.02) (Fin 60) (Fin 0.5)
                 (Fin 0.9))) as [sd|] eqn:E.
  - apply (C4_signal_gates params _ sd params_positive_threshold E).
    vm_compute in E. injection E as <-. vm_compute. split; reflexivity.
  - vm_compute in E. discriminate E.
Defined.

End SignalGates.

(** ** One position at a time *)

Section SinglePosition.

Import Strategy Backtester.

Lemma alternates_app (a b c : bool) (e1 e2 : list Event) :
  Spec.alternates a e1 b -> Spec.alternates b e2 c ->
  Spec.alternates a (e1 ++ e2) c.
Proof.
  intros H1 H2. induction H1; simpl.
  - exact H2.
  - constructor. apply IHalternates. exact H2.
  - constructor. apply IHalternates. exact H2.
Qed.

Lemma alternates_prefix (a b : bool) (ev : list Event) :
  Spec.alternates a ev b ->
  forall pre suf, ev = pre ++ suf ->
    ((if a then 1 else 0) + Spec.open_positions pre = 0
     \/ (if a then 1 else 0) + Spec.open_positions pre = 1)%Z.
Proof.
  intro H. induction H as [b|p ev b H IH|t ev b H IH]; intros pre suf Heq.
  - destruct pre; [|discriminate]. simpl. destruct b; auto.
  - destruct pre as [|e pre]; [simpl; auto|].
    injection Heq as <- Heq. specialize (IH pre suf Heq).
    cbn [Spec.open_positions]. lia.
  - destruct pre as [|e pre]; [simpl; auto|].
    injection Heq as <- Heq. specialize (IH pre suf Heq).
    cbn [Spec.open_positions]. lia.
Qed.

Lemma handle_position_alternates (st : State) (row : Row) :
  Spec.alternates (occupied st) (snd (handle_position st row))
    (occupied (fst (handle_position st row))).
Proof.
  unfold handle_position, occupied.
  destruct (current_position st) as [p|] eqn:E.
  - destruct (exit_check p (close row)) as [[reason exit]|]; simpl.
    + repeat constructor.
    + rewrite E. constructor.
  - simpl. rewrite E. constructor.
Qed.

Lemma check_entry_alternates (sp : Mode -> ModeParams) (st : State)
  (row : Row) :
  Spec.alternates (occupied st) (snd (check_entry sp st row))
    (occupied (fst (check_entry sp st row))).
Proof.
  unfold check_entry, occupied.
  destruct (current_position st) as [p|] eqn:E.
  - simpl. rewrite E. constructor.
  - cbv zeta. destruct (generate_signal sp row) as [sd|];
      [|simpl; rewrite E; constructor].
    destruct (is_entry (sd_signal sd)); [|simpl; rewrite E; constructor].
    destruct (simulate_trade _ _ _ _) as [p|]; simpl.
    + repeat constructor.
    + rewrite E. constructor.
Qed.

Lemma bar_step_alternates (sp : Mode -> ModeParams) (st : State) (row : Row) :
  Spec.alternates (occupied st) (snd (bar_step sp st row))
    (occupied (fst (bar_step sp st row))).
Proof.
  unfold bar_step.
  match goal with
  | |- context [handle_position ?s row] =>
      pose proof (handle_position_alternates s row) as H1;
      destruct (handle_position s row) as [st2 ev1]
  end.
  pose proof (check_entry_alternates sp st2 row) as H2.
  destruct (check_entry sp st2 row) as [st3 ev2]. simpl in *.
  eapply alternates_app; eassumption.
Qed.

Lemma run_loop_alternates (sp : Mode -> ModeParams) (rows : list Row) :
  forall i st,
    Spec.alternates (occupied st) (snd (run_loop sp i rows st))
      (occupied (fst (run_loop sp i rows st))).
Proof.
  induction rows as [|row rest IH]; intros i st; simpl.
  - constructor.
  - destruct (i <? 250)%nat; [apply IH|].
    pose proof (bar_step_alternates sp st row) as H1.
    destruct (bar_step sp st row) as [st1 ev1].
    specialize (IH (S i) st1).
    destruct (run_loop sp (S i) rest st1) as [st2 ev2]. simpl in *.
    eapply alternates_app; eassumption.
Qed.

Lemma close_final_alternates (st : State) (t : Z) (price : fl) :
  Spec.alternates (occupied st) (snd (close_final st t price)) false.
Proof.
  unfold close_final, occupied.
  destruct (current_position st) as [p|]; simpl; repeat constructor.
Qed.

Lemma run_backtest_alternates (sp : Mode -> ModeParams) (capital : fl)
  (rows : list Row) :
  Spec.alternates false (snd (run_backtest sp capital rows)) false.
Proof.
  destruct rows as [|row0 rest]; [simpl; constructor|].
  unfold run_backtest.
  pose proof (run_loop_alternates sp (row0 :: rest) 0 (initial_state capital))
    as H.
  destruct (run_loop sp 0 (row0 :: rest) (initial_state capital)) as [st ev].
  simpl in H.
  destruct (rev (row0 :: rest)) as [|final r] eqn:E.
  - apply (f_equal (@length Row)) in E. rewrite length_rev in E.
    discriminate E.
  - pose proof (close_final_alternates st (datetime final) (close final))
      as H2.
    destruct (close_final st (datetime final) (close final)) as [st' ev'].
    simpl in *. eapply alternates_app; eassumption.
Qed.

(** C8.  Over any input rows the events of a run alternate -- a position is
    opened only from FLAT, a close returns to FLAT -- so after every prefix
    of the run the number of open positions is 0 or 1; while a position is
    held the entry check opens nothing, and a triggered exit empties the
    slot. *)
Theorem C8_single_position (sp : Mode -> ModeParams) (capital : fl)
  (rows : list Row) :
  let ev := snd (run_backtest sp capital rows) in
  Spec.alternates false ev false /\
  (forall pre suf, ev = pre ++ suf ->
     Spec.open_positions pre = 0%Z \/ Spec.open_positions pre = 1%Z) /\
  (forall st row p,
     current_position st = Some p -> check_entry sp st row = (st, [])) /\
  (forall st row st' t,
     handle_position st row = (st', [Closed t]) ->
     current_position st' = None /\ current_position st = Some (position t)).
Proof.
  intro ev. pose proof (run_backtest_alternates sp capital rows) as H.
  fold ev in H. split; [exact H|]. split; [|split].
  - intros pre suf Heq.
    exact (alternates_prefix false false ev H pre suf Heq).
  - intros st row p Hp. unfold check_entry. rewrite Hp. reflexivity.
  - intros st row st' t. unfold handle_position.
    destruct (current_position st) as [p|]; [|discriminate].
    destruct (exit_check p (close row)) as [[reason exit]|]; [|discriminate].
    simpl. intro Heq. injection Heq as <- <-. split; reflexivity.
Qed.

(** The run that opens one position and closes it at the end of the data:
    one position is open after its first event, none after both. *)
Lemma C8_single_position_witness :
  let ev := snd (run_backtest params (Fin 10000) Samples.open_at_end) in
  (Spec.open_positions (firstn 1 ev) = 0%Z
   \/ Spec.open_positions (firstn 1 ev) = 1%Z)
  /\ length ev = 2%nat.
Proof.
  intro ev. split.
  - apply (proj1 (proj2 (C8_single_position params (Fin 10000)
                           Samples.open_at_end))
             (firstn 1 ev) (skipn 1 ev)).
    symmetry. apply firstn_skipn.
  - vm_compute. reflexivity.
Defined.

End SinglePosition.


(** ** Bounds on the trend values *)

Section TrendBounds.

Import Pandas Strategy.

(** The trend-strength cell is a finite number of magnitude at most 1,
    whatever the indicator cells it is computed from. *)
Lemma trend_strength_of_within
  (bull bear : bool) (c e50 e200 m s r : fl) (strong : bool) :
  Spec.within (-1) 1 (trend_strength_of bull bear c e50 e200 m s r strong).
Proof.
  unfold trend_strength_of.
  destruct bull, bear, (c >? e50)%fl, (c >? e200)%fl, (m >? s)%fl,
    (r >? Fin 50)%fl, strong;
    (eexists; split; [reflexivity|split; vm_compute; discriminate]).
Qed.

(** Every row of [calculate_indicators] is built from the cells at one
    index below the length of the frame. *)
Lemma calculate_indicators_row (df : list Bar) (f : IndicatorFrame) :
  In f (calculate_indicators df) ->
  exists i bull bear c e50 e200 m s r strong,
    (i < length df)%nat /\
    bar f = nth i df no_bar /\
    trend_strength f = trend_strength_of bull bear c e50 e200 m s r strong.
Proof.
  unfold calculate_indicators. cbv zeta. intro H.
  apply in_map_iff in H. destruct H as (i & <- & Hi).
  apply in_seq in Hi.
  exists i. do 9 eexists. split; [lia|]. split; reflexivity.
Qed.

Lemma calculate_indicators_length (df : list Bar) :
  length (calculate_indicators df) = length df.
Proof.
  unfold calculate_indicators. cbv zeta. rewrite length_map, length_seq.
  reflexivity.
Qed.

Lemma trend_strength_within (df : list Bar) (f : IndicatorFrame) :
  In f (calculate_indicators df) -> Spec.within (-1) 1 (trend_strength f).
Proof.
  intro H. apply calculate_indicators_row in H.
  destruct H as (i & bull & bear & c & e50 & e200 & m & s & r & strong
                 & _ & _ & ->).
  apply trend_strength_of_within.
Qed.

(** The as-of lookup yields NaN or the trend strength of a row of the
    frame. *)
Lemma asof_trend_cases (df : list IndicatorFrame) (t : Z) :
  (asof_trend df t = NaN
   /\ forall f, In f df -> (b_datetime (bar f) <=? t)%Z = false)
  \/ (exists f, In f df /\ (b_datetime (bar f) <=? t)%Z = true
                /\ asof_trend df t = trend_strength f).
Proof.
  unfold asof_trend.
  destruct (rev (filter (fun r => (b_datetime (bar r) <=? t)%Z) df))
    as [|f r] eqn:E.
  - left. split; [reflexivity|].
    apply (f_equal (@rev IndicatorFrame)) in E. rewrite rev_involutive in E.
    simpl in E. intros f Hf.
    destruct (b_datetime (bar f) <=? t)%Z eqn:Ef; [|reflexivity].
    assert (Hin : In f (filter (fun r => (b_datetime (bar r) <=? t)%Z) df))
      by (apply filter_In; split; assumption).
    rewrite E in Hin. destruct Hin.
  - right. exists f.
    assert (Hin : In f (filter (fun r => (b_datetime (bar r) <=? t)%Z) df)).
    { apply in_rev. rewrite E. left. reflexivity. }
    apply filter_In in Hin. destruct Hin as (Hin & Ht).
    split; [exact Hin|]. split; [exact Ht|reflexivity].
Qed.

(** The combination of three trend values of magnitude at most 1. *)
Lemma combine_within (d m l : Q) :
  -1 <= d <= 1 -> -1 <= m <= 1 -> -1 <= l <= 1 ->
  Spec.within (-1) 1 (Fin d * w_daily + Fin m * w_medium + Fin l * w_lower)%fl
  /\ Spec.within 0 1
       (Fin 1 - (Fl.abs (Fin d - Fin m) * Fin 0.4
                 + Fl.abs (Fin d - Fin l) * Fin 0.4
                 + Fl.abs (Fin m - Fin l) * Fin 0.2) / Fin 2)%fl.
Proof.
  intros Hd Hm Hl. split.
  - eexists. split; [reflexivity|]. split; lra.
  - eexists. split; [reflexivity|].
    pose proof (Qabs_nonneg (d + - m)) as A1.
    pose proof (Qabs_nonneg (d + - l)) as A2.
    pose proof (Qabs_nonneg (m + - l)) as A3.
    assert (B1 : Qabs (d + - m) <= 2) by (apply Qabs_Qle_condition; lra).
    assert (B2 : Qabs (d + - l) <= 2) by (apply Qabs_Qle_condition; lra).
    assert (B3 : Qabs (m + - l) <= 2) by (apply Qabs_Qle_condition; lra).
    set (a := Qabs (d + - m)) in *.
    set (b := Qabs (d + - l)) in *.
    set (c := Qabs (m + - l)) in *.
    split.
    + setoid_replace ((a * 0.4 + b * 0.4 + c * 0.2) / 2)
        with (a * 0.2 + b * 0.2 + c * 0.1) by field.
      lra.
    + setoid_replace ((a * 0.4 + b * 0.4 + c * 0.2) / 2)
        with (a * 0.2 + b * 0.2 + c * 0.1) by field.
      lra.
Qed.

(** A combined row has both added trend columns undefined, or both within
    their bounds. *)
Lemma combine_row_bounded (daily medium lower : list Bar)
  (f : IndicatorFrame) :
  In f (calculate_indicators lower) ->
  let r := combine_row (calculate_indicators daily)
             (calculate_indicators medium) f in
  (combined_trend r = NaN /\ timeframe_alignment r = NaN)
  \/ (Spec.within (-1) 1 (combined_trend r)
      /\ Spec.within 0 1 (timeframe_alignment r)).
Proof.
  intros Hf. unfold combine_row. cbv zeta.
  destruct (asof_trend_cases (calculate_indicators daily) (b_datetime (bar f)))
    as [(-> & _)|(fd & Hfd & _ & ->)]; [left; split; reflexivity|].
  destruct (asof_trend_cases (calculate_indicators medium)
              (b_datetime (bar f)))
    as [(-> & _)|(fm & Hfm & _ & ->)].
  { left. rewrite orb_true_r. split; reflexivity. }
  destruct (trend_strength_within daily fd Hfd) as (d & -> & Hd).
  destruct (trend_strength_within medium fm Hfm) as (m & -> & Hm).
  destruct (trend_strength_within lower f Hf) as (l & -> & Hl).
  right. cbn [isna orb combined_trend timeframe_alignment].
  apply combine_within; assumption.
Qed.

(** C10.  On every input, the trend strength of every row lies in
    [[-1, 1]]; every combined row either has both its combined trend and
    its alignment undefined, or has a combined trend in [[-1, 1]] and an
    alignment in [[0, 1]]. *)
Theorem C10_trend_values_bounded (daily medium lower : list Bar) :
  let daily_df := calculate_indicators daily in
  let medium_df := calculate_indicators medium in
  let lower_df := calculate_indicators lower in
  (forall f, In f daily_df \/ In f medium_df \/ In f lower_df ->
             Spec.within (-1) 1 (trend_strength f)) /\
  (forall r, In r (combine_timeframes daily_df medium_df lower_df) ->
             (combined_trend r = NaN /\ timeframe_alignment r = NaN)
             \/ (Spec.within (-1) 1 (combined_trend r)
                 /\ Spec.within 0 1 (timeframe_alignment r))).
Proof.
  intros daily_df medium_df lower_df. split.
  - intros f [H|[H|H]]; eapply trend_strength_within; exact H.
  - intros r Hr. unfold combine_timeframes in Hr.
    apply in_map_iff in Hr. destruct Hr as (f & <- & Hf).
    exact (combine_row_bounded daily medium lower f Hf).
Qed.

End TrendBounds.

(** ** Warm-up *)

Section WarmUp.

Import Pandas Strategy Backtester.

Lemma calculate_indicators_nth (df : list Bar) (i : nat) :
  (i < length df)%nat ->
  exists f, nth_error (calculate_indicators df) i = Some f
            /\ In f (calculate_indicators df).
Proof.
  intro Hi.
  destruct (nth_error (calculate_indicators df) i) as [f|] eqn:E.
  - exists f. split; [reflexivity|]. eapply nth_error_In. exact E.
  - apply nth_error_None in E. rewrite calculate_indicators_length in E. lia.
Qed.

Lemma generate_signal_absent (sp : Mode -> ModeParams) (r : Row) :
  combined_trend r = NaN -> generate_signal sp r = None.
Proof.
  intro H. unfold generate_signal. rewrite H. reflexivity.
Qed.

(** C2, as the code has it.  The trend strength is a defined number at
    every bar of every frame, the bars before the 200-bar average has
    warmed up included.  The combined trend of a row is absent exactly when
    the daily frame or the medium frame has no row dated at or before it;
    an absent combined trend yields no signal, and a present one is a
    finite number. *)
Theorem C2_trend_defined_at_every_bar (daily medium lower : list Bar) :
  let daily_df := calculate_indicators daily in
  let medium_df := calculate_indicators medium in
  let lower_df := calculate_indicators lower in
  (forall i, (i < length lower)%nat ->
     exists f, nth_error lower_df i = Some f /\ Fl.is_fin (trend_strength f)) /\
  (forall r, In r (combine_timeframes daily_df medium_df lower_df) ->
     (combined_trend r = NaN <->
      (forall f, In f daily_df ->
                 (b_datetime (bar f) <=? datetime r)%Z = false)
      \/ (forall f, In f medium_df ->
                    (b_datetime (bar f) <=? datetime r)%Z = false)) /\
     (combined_trend r = NaN ->
      forall sp, generate_signal sp r = None) /\
     (combined_trend r <> NaN -> Fl.is_fin (combined_trend r))).
Proof.
  intros daily_df medium_df lower_df. split.
  - intros i Hi. destruct (calculate_indicators_nth lower i Hi) as (f & E & Hf).
    exists f. split; [exact E|].
    destruct (trend_strength_within lower f Hf) as (q & Hq & _).
    exists q. exact Hq.
  - intros r Hr.
    unfold combine_timeframes in Hr.
    apply in_map_iff in Hr. destruct Hr as (f & <- & Hf).
    pose proof (combine_row_bounded daily medium lower f Hf) as Hb.
    cbv zeta in Hb. fold daily_df medium_df in Hb.
    assert (Hdt : datetime (combine_row daily_df medium_df f)
                  = b_datetime (bar f)).
    { unfold combine_row, datetime. cbv zeta.
      destruct (_ || _); reflexivity. }
    rewrite Hdt. split; [|split].
    + unfold combine_row. cbv zeta.
      destruct (trend_strength_within lower f Hf) as (l & Hl & _).
      rewrite Hl.
      destruct (asof_trend_cases daily_df (b_datetime (bar f)))
        as [(Ed & Hnd)|(fd & Hfd & Htd & Ed)];
      destruct (asof_trend_cases medium_df (b_datetime (bar f)))
        as [(Em & Hnm)|(fm & Hfm & Htm & Em)]; rewrite Ed, Em.
      * split; [intros _; left; exact Hnd|reflexivity].
      * split; [intros _; left; exact Hnd|reflexivity].
      * destruct (trend_strength_within daily fd Hfd) as (d & -> & _).
        split; [intros _; right; exact Hnm|reflexivity].
      * destruct (trend_strength_within daily fd Hfd) as (d & -> & _).
        destruct (trend_strength_within medium fm Hfm) as (m & -> & _).
        cbn. split; [discriminate|].
        intros [H|H].
        -- rewrite (H fd Hfd) in Htd. discriminate.
        -- rewrite (H fm Hfm) in Htm. discriminate.
    + intros Hn sp. apply generate_signal_absent. exact Hn.
    + intro Hn. destruct Hb as [(Hc & _)|((q & Hq & _) & _)];
        [contradiction|]. exists q. exact Hq.
Qed.

(** C2 as stated fails: on a frame of three bars, which serves as its own
    daily and medium frame, the first bar already has a trend strength and
    a combined trend that are numbers, not absent values. *)
Lemma C2_early_bar_not_absent :
  ~ (forall df i r,
        (i < 200)%nat ->
        nth_error (combine_timeframes (calculate_indicators df)
                     (calculate_indicators df) (calculate_indicators df)) i
        = Some r ->
        isna (trend_strength (frame r)) = true
        /\ isna (combined_trend r) = true).
Proof.
  intro H.
  assert (E : exists r,
             nth_error (combine_timeframes
                          (calculate_indicators Samples.three_bars)
                          (calculate_indicators Samples.three_bars)
                          (calculate_indicators Samples.three_bars)) 0
             = Some r /\ isna (combined_trend r) = false).
  { eexists. split; vm_compute; reflexivity. }
  destruct E as (r & Hr & Hc).
  destruct (H Samples.three_bars 0%nat r) as (_ & Hn); [lia|exact Hr|].
  congruence.
Qed.

End WarmUp.

(** ** Flat price series *)

Section FlatSeries.

Import Pandas Strategy Backtester.
Import Spec.

Lemma column_map (n : nat) (P R : fl -> Prop) (f : fl -> fl) (l : list fl) :
  (forall x, P x -> R (f x)) -> column n P l -> column n R (map f l).
Proof.
  intros H [Hl Hf]. split; [rewrite length_map; exact Hl|].
  apply Forall_map. eapply Forall_impl; [exact H|exact Hf].
Qed.

Lemma column_zip_with {A B C : Type} (n : nat) (P : A -> Prop)
  (Q : B -> Prop) (R : C -> Prop) (f : A -> B -> C) (xs : list A)
  (ys : list B) :
  (forall x y, P x -> Q y -> R (f x y)) ->
  column n P xs -> column n Q ys -> column n R (zip_with f xs ys).
Proof.
  intros H [Hlx Hx] [Hly Hy]. subst n. revert ys Hly Hy.
  induction Hx as [|x xs Px Hx IH]; intros ys Hly Hy.
  - split; [reflexivity|constructor].
  - destruct Hy as [|y ys Qy Hy]; [discriminate|].
    simpl in Hly. injection Hly as Hly.
    destruct (IH ys Hly Hy) as [Hl Hf]. split.
    + simpl. rewrite Hl. reflexivity.
    + simpl. constructor; [apply H; assumption|exact Hf].
Qed.

Lemma column_removelast (P : fl -> Prop) (x : fl) (l : list fl) :
  Forall P (x :: l) ->
  length (removelast (x :: l)) = length l /\ Forall P (removelast (x :: l)).
Proof.
  revert x. induction l as [|y l IH]; intros x H.
  - split; [reflexivity|constructor].
  - inversion H as [|? ? Px Hl]; subst.
    destruct (IH y Hl) as [Hlen Hf].
    change (removelast (x :: y :: l)) with (x :: removelast (y :: l)).
    split; [cbn [length]; rewrite Hlen; reflexivity|].
    constructor; assumption.
Qed.

Lemma column_shift_gen (n : nat) (P R : fl -> Prop) (l : list fl) :
  (forall x, P x -> R x) -> R NaN ->
  column n P l -> column n R (shift l).
Proof.
  intros HPR HR [Hl Hf]. destruct l as [|x l]; [split; [exact Hl|constructor]|].
  unfold shift.
  assert (Hf' : Forall R (x :: l))
    by (eapply Forall_impl; [exact HPR|exact Hf]).
  destruct (column_removelast R x l Hf') as [Hlen Hr].
  split.
  - cbn [length]. rewrite Hlen. exact Hl.
  - constructor; [exact HR|exact Hr].
Qed.

Lemma column_shift (n : nat) (v : Q) (l : list fl) :
  column n (near v) l -> column n (nan_or v) (shift l).
Proof.
  apply column_shift_gen.
  - intros x Hx. right. exact Hx.
  - left. reflexivity.
Qed.

Lemma column_set_first (n : nat) (P : fl -> Prop) (v : fl) (l : list fl) :
  P v -> column n P l -> column n P (set_first v l).
Proof.
  intros Hv [Hl Hf]. destruct l as [|x l]; [split; assumption|].
  inversion Hf as [|? ? Hx Hr]. split; [exact Hl|].
  constructor; assumption.
Qed.

Lemma column_nth (n : nat) (P : fl -> Prop) (l : list fl) (i : nat) :
  column n P l -> (i < n)%nat -> P (nth i l NaN).
Proof.
  intros [Hl Hf] Hi. rewrite Forall_forall in Hf. apply Hf.
  apply nth_In. lia.
Qed.

Lemma near_eq (a b : Q) (x y : fl) :
  near a x -> near b y -> a == b -> (x =? y)%fl = true.
Proof.
  unfold near. destruct x, y; simpl; try tauto.
  intros Hx Hy Hab. apply eqb_fin. lra.
Qed.

Lemma ewm_step_near (alpha v : Q) (st : fl * Q) (cur : fl) :
  near v (fst st) -> near v cur -> near v (fst (ewm_step alpha st cur)).
Proof.
  destruct st as [w old_wt]. simpl fst. intros Hw Hc.
  unfold ewm_step.
  pose proof (near_eq v v w cur Hw Hc (Qeq_refl v)) as He.
  destruct w as [w'| | |]; try contradiction.
  destruct cur as [x| | |]; try contradiction.
  cbn [isna]. unfold Fl.neb. rewrite He. exact Hw.
Qed.

Lemma ewm_from_near (alpha v : Q) (xs : list fl) :
  forall st, near v (fst st) -> Forall (near v) xs ->
    length (ewm_from alpha st xs) = length xs
    /\ Forall (near v) (ewm_from alpha st xs).
Proof.
  induction xs as [|x r IH]; intros st Hst Hxs.
  - split; [reflexivity|constructor].
  - inversion Hxs as [|? ? Hx Hr]; subst.
    cbn [ewm_from]. cbv zeta.
    pose proof (ewm_step_near alpha v st x Hst Hx) as Hs.
    destruct (IH (ewm_step alpha st x) Hs Hr) as [Hl Hf].
    split; [cbn [length]; rewrite Hl; reflexivity|].
    constructor; assumption.
Qed.

Lemma column_ewm_near (n : nat) (alpha v : Q) (l : list fl) :
  column n (near v) l -> column n (near v) (ewm_mean alpha l).
Proof.
  intros [Hl Hf]. destruct l as [|x r]; [split; assumption|].
  inversion Hf as [|? ? Hx Hr]; subst.
  destruct (ewm_from_near alpha v r (x, 1%Q) Hx Hr) as [Hlen Hall].
  rewrite ewm_mean_clean
    by (eapply Forall_impl; [exact (near_clean v)|exact Hf]).
  split; [cbn [length]; rewrite Hlen; reflexivity|].
  constructor; assumption.
Qed.

Lemma ewm_step_nan_or (alpha v : Q) (st : fl * Q) (cur : fl) :
  nan_or v (fst st) -> nan_or v cur ->
  nan_or v (fst (ewm_step alpha st cur)).
Proof.
  destruct st as [w old_wt]. simpl fst. intros [->|Hw] [->|Hc].
  - left. reflexivity.
  - right. unfold near in *. destruct cur; try contradiction. exact Hc.
  - right. destruct w; try contradiction. exact Hw.
  - right. apply (ewm_step_near alpha v (w, old_wt) cur Hw Hc).
Qed.

Lemma ewm_from_nan_or (alpha v : Q) (xs : list fl) :
  forall st, nan_or v (fst st) -> Forall (nan_or v) xs ->
    length (ewm_from alpha st xs) = length xs
    /\ Forall (nan_or v) (ewm_from alpha st xs).
Proof.
  induction xs as [|x r IH]; intros st Hst Hxs.
  - split; [reflexivity|constructor].
  - inversion Hxs as [|? ? Hx Hr]; subst.
    cbn [ewm_from]. cbv zeta.
    pose proof (ewm_step_nan_or alpha v st x Hst Hx) as Hs.
    destruct (IH (ewm_step alpha st x) Hs Hr) as [Hl Hf].
    split; [cbn [length]; rewrite Hl; reflexivity|].
    constructor; assumption.
Qed.

Lemma column_ewm_nan_or (n : nat) (alpha v : Q) (l : list fl) :
  column n (nan_or v) l -> column n (nan_or v) (ewm_mean alpha l).
Proof.
  intros [Hl Hf]. destruct l as [|x r]; [split; assumption|].
  inversion Hf as [|? ? Hx Hr]; subst.
  destruct (ewm_from_nan_or alpha v r (x, 1%Q) Hx Hr) as [Hlen Hall].
  rewrite ewm_mean_clean
    by (eapply Forall_impl; [exact (nan_or_clean v)|exact Hf]).
  split; [cbn [length]; rewrite Hlen; reflexivity|].
  constructor; assumption.
Qed.

(** *** Cells *)

Lemma near_sub (a b : Q) (x y : fl) :
  near a x -> near b y -> near (a - b) (x - y)%fl.
Proof.
  unfold near. destruct x, y; simpl; try tauto. intros -> ->. reflexivity.
Qed.

Lemma nan_or_sub (c : Q) (x y : fl) :
  near c x -> nan_or c y -> nan_or 0 (x - y)%fl.
Proof.
  intros Hx [->|Hy].
  - left. destruct x; reflexivity.
  - right. pose proof (near_sub c c x y Hx Hy) as H.
    unfold near in *. destruct (x - y)%fl; try contradiction.
    simpl in *. lra.
Qed.

Lemma near_zero_sub (c : Q) (x y : fl) :
  near c x -> near c y -> near 0 (x - y)%fl.
Proof.
  intros Hx Hy. pose proof (near_sub c c x y Hx Hy) as H.
  unfold near in *. destruct (x - y)%fl; try contradiction.
  simpl in *. lra.
Qed.

Lemma nan_or_neg (x : fl) : nan_or 0 x -> nan_or 0 (Fl.neg x).
Proof.
  intros [->|H]; [left; reflexivity|right].
  unfold near in *. destruct x; try contradiction. simpl in *. lra.
Qed.

Lemma nan_or_abs (x : fl) : nan_or 0 x -> nan_or 0 (Fl.abs x).
Proof.
  intros [->|H]; [left; reflexivity|right].
  unfold near in *. destruct x; try contradiction. simpl in *.
  rewrite H. reflexivity.
Qed.

Lemma gtb_near_false (a : Q) (x y : fl) :
  near a x -> near a y -> (x >? y)%fl = false.
Proof.
  unfold near. destruct x, y; simpl; try tauto. intros Hx Hy.
  apply ltb_fin_false. lra.
Qed.

Lemma ltb_near_false (a : Q) (x y : fl) :
  near a x -> near a y -> (x <? y)%fl = false.
Proof.
  unfold near. destruct x, y; simpl; try tauto. intros Hx Hy.
  apply ltb_fin_false. lra.
Qed.

Lemma where_pos_near (x : fl) :
  nan_or 0 x -> near 0 (if (x >? Fin 0)%fl then x else Fin 0).
Proof.
  intros [->|H]; [reflexivity|].
  destruct (x >? Fin 0)%fl; [exact H|reflexivity].
Qed.

Lemma where_neg_near (x : fl) :
  nan_or 0 x -> near 0 (Fl.neg (if (x <? Fin 0)%fl then x else Fin 0)).
Proof.
  intros [->|H]; [reflexivity|].
  destruct (x <? Fin 0)%fl; [|reflexivity].
  unfold near in *. destruct x; try contradiction. simpl in *. lra.
Qed.

Lemma max_skipna3_near (a b c : fl) :
  near 0 a -> nan_or 0 b -> nan_or 0 c -> near 0 (max_skipna3 a b c).
Proof.
  assert (H2 : forall u v, near 0 u -> nan_or 0 v -> near 0 (max_skipna2 u v)).
  { intros u v Hu [->|Hv]; unfold max_skipna2.
    - destruct u; try contradiction. exact Hu.
    - destruct u; try contradiction. destruct v; try contradiction.
      cbn [isna]. destruct (Fin q <? Fin q0)%fl; assumption. }
  intros Ha Hb Hc. unfold max_skipna3. apply H2; [apply H2|]; assumption.
Qed.

Lemma directional_move_nan_or (u d : fl) :
  nan_or 0 u -> nan_or 0 d ->
  nan_or 0 (if isna u then NaN
            else if (u >? d)%fl && (u >? Fin 0)%fl then u else Fin 0).
Proof.
  intros [->|Hu] Hd; [left; reflexivity|].
  destruct (isna u); [left; reflexivity|right].
  destruct ((u >? d)%fl && (u >? Fin 0)%fl); [exact Hu|reflexivity].
Qed.

Lemma di_is_nan (d t : fl) :
  nan_or 0 d -> near 0 t -> (Fin 100 * (d / t))%fl = NaN.
Proof.
  intros [->|Hd] Ht; unfold near in *.
  - destruct t; reflexivity.
  - destruct d as [a| | |], t as [b| | |]; try contradiction.
    simpl in *. cbn [Fl.div].
    rewrite (Qeq_eq_bool b 0 Ht).
    unfold signed_inf. apply Qeq_alt in Hd. rewrite Hd. reflexivity.
Qed.

Lemma dx_near (p m : fl) :
  near 0 p -> near 0 m ->
  near 0 (Fin 100 * Fl.abs (p - m)
          / (if ((p + m) =? Fin 0)%fl then Fin 1 else (p + m)))%fl.
Proof.
  unfold near. destruct p as [a| | |], m as [b| | |]; try contradiction.
  cbn [Fl.equiv]. intros Ha Hb.
  cbn [Fl.add Fl.sub Fl.neg Fl.abs Fl.mul].
  assert (E : (Fin (a + b) =? Fin 0)%fl = true) by (apply eqb_fin; lra).
  rewrite E. cbn [Fl.div].
  change (Qeq_bool 1 0) with false. cbn [Fl.equiv].
  assert (Hz : Qabs (a + - b) == 0).
  { rewrite Ha, Hb. reflexivity. }
  rewrite Hz. reflexivity.
Qed.

Lemma fillna_near (v : Q) (d x : fl) :
  near v x -> near v (if isna x then d else x).
Proof.
  unfold near. destruct x; try contradiction. intro H; exact H.
Qed.

(** *** Columns of a flat frame *)

Lemma flat_prices (c : Q) (df : list Bar) :
  flat c df ->
  column (length df) (near c) (map b_high df)
  /\ column (length df) (near c) (map b_low df)
  /\ column (length df) (near c) (map b_close df).
Proof.
  intro H. unfold flat in H.
  repeat split; try apply length_map; apply Forall_map;
    (eapply Forall_impl; [|exact H]); intros b (Ho & Hh & Hl & Hc);
    unfold near; [rewrite Hh|rewrite Hl|rewrite Hc]; apply equiv_refl.
Qed.

Lemma flat_diff (n : nat) (c : Q) (l : list fl) :
  column n (near c) l -> column n (nan_or 0) (diff l).
Proof.
  intro H. unfold diff.
  apply (column_zip_with n (near c) (nan_or c)); [|exact H|].
  - intros x y. apply nan_or_sub.
  - apply column_shift. exact H.
Qed.

Lemma flat_true_range (n : nat) (c : Q) (high low close : list fl) :
  column n (near c) high -> column n (near c) low ->
  column n (near c) close ->
  column n (near 0) (true_range high low close).
Proof.
  intros Hh Hl Hc. unfold true_range. cbv zeta.
  pose proof (column_shift n c close Hc) as Hp.
  assert (Ht : forall l, column n (near c) l ->
                column n (nan_or 0)
                  (set_first (Fin 0)
                     (map Fl.abs (zip_with Fl.sub l (shift close))))).
  { intros l Hcol. apply column_set_first; [right; reflexivity|].
    apply (column_map n (nan_or 0)); [exact nan_or_abs|].
    apply (column_zip_with n (near c) (nan_or c)); [|exact Hcol|exact Hp].
    intros x y. apply nan_or_sub. }
  apply (column_zip_with n (near 0)
           (fun bc : fl * fl => nan_or 0 (fst bc) /\ nan_or 0 (snd bc))).
  - intros a bc Ha [Hb Hd]. apply max_skipna3_near; assumption.
  - apply (column_zip_with n (near c) (near c)); [|exact Hh|exact Hl].
    intros x y. apply near_zero_sub.
  - apply (column_zip_with n (nan_or 0) (nan_or 0));
      [|apply Ht; exact Hh|apply Ht; exact Hl].
    intros x y Hx Hy. split; assumption.
Qed.

Lemma flat_rsi (n : nat) (c : Q) (close : list fl) :
  column n (near c) close -> column n (near 100) (rsi_column close).
Proof.
  intro Hc. unfold rsi_column, wilder_smooth, where_, fillna. cbv zeta.
  pose proof (flat_diff n c close Hc) as Hd.
  apply (column_map n (fun x => x = Fin 100)).
  { intros x ->. reflexivity. }
  apply (column_zip_with n (near 0) (near 0)).
  - intros g l Hg Hl.
    rewrite (near_eq 0 0 l (Fin 0) Hl (Qeq_refl 0) (Qeq_refl 0)).
    reflexivity.
  - apply column_ewm_near.
    apply (column_map n (nan_or 0)); [exact where_pos_near|exact Hd].
  - apply column_ewm_near. rewrite map_map.
    apply (column_map n (nan_or 0)); [exact where_neg_near|exact Hd].
Qed.

Lemma flat_adx (n : nat) (c : Q) (high low close : list fl) :
  column n (near c) high -> column n (near c) low ->
  column n (near c) close ->
  column n (near 0) (calculate_tradingview_adx high low close).
Proof.
  intros Hh Hl Hc. unfold calculate_tradingview_adx, wilder_smooth, fillna.
  cbv zeta.
  pose proof (flat_diff n c high Hh) as Hup.
  assert (Hdown : column n (nan_or 0) (map Fl.neg (diff low))).
  { apply (column_map n (nan_or 0)); [exact nan_or_neg|].
    apply (flat_diff n c). exact Hl. }
  pose proof (column_ewm_near n (1 / (14 # 1)) 0 _
                (flat_true_range n c high low close Hh Hl Hc)) as Htr.
  assert (Hdi : forall dm, column n (nan_or 0) dm ->
                  column n (near 0)
                    (map (fun x => if isna x then Fin 0 else x)
                       (zip_with (fun d t => (Fin 100 * (d / t))%fl)
                          (ewm_mean (1 / (14 # 1)) dm)
                          (ewm_mean (1 / (14 # 1))
                             (true_range high low close))))).
  { intros dm Hdm.
    apply (column_map n (fun x => x = NaN)); [intros x ->; reflexivity|].
    apply (column_zip_with n (nan_or 0) (near 0)); [|
      apply column_ewm_nan_or; exact Hdm|exact Htr].
    intros d t. apply di_is_nan. }
  apply (column_map n (near 0)); [intros x; apply fillna_near|].
  apply column_ewm_near.
  apply (column_zip_with n (near 0) (near 0)).
  - intros p m. apply dx_near.
  - apply Hdi.
    apply (column_zip_with n (nan_or 0) (nan_or 0)); [|exact Hup|exact Hdown].
    intros u d. apply directional_move_nan_or.
  - apply Hdi.
    apply (column_zip_with n (nan_or 0) (nan_or 0)); [|exact Hup|exact Hdown].
    intros u d Hu Hd.
    destruct Hd as [->|Hd]; [left; reflexivity|].
    destruct (isna d); [left; reflexivity|right].
    destruct ((d >? u)%fl && (d >? Fin 0)%fl); [exact Hd|reflexivity].
Qed.

(** *** Rows of a flat frame *)

Lemma indicator_row_flat (c : Q) (df : list Bar) (cols : Columns) (i : nat) :
  let n := length df in
  (i < n)%nat -> flat c df ->
  column n (near c) (c_ema9 cols) -> column n (near c) (c_ema21 cols) ->
  column n (near c) (c_ema50 cols) -> column n (near c) (c_ema100 cols) ->
  column n (near c) (c_ema200 cols) ->
  column n (near 0) (c_macd cols) -> column n (near 0) (c_signal cols) ->
  column n (near 100) (c_rsi cols) -> column n (near 0) (c_adx cols) ->
  trend_strength (indicator_row df cols i) =~ Fin (-0.15).
Proof.
  intros n Hi Hflat H9 H21 H50 H100 H200 Hm Hs Hr Ha.
  assert (Hclose : near c (b_close (nth i df no_bar))).
  { unfold flat in Hflat. rewrite Forall_forall in Hflat.
    destruct (Hflat (nth i df no_bar)) as (_ & _ & _ & ->);
      [apply nth_In; exact Hi|apply equiv_refl]. }
  apply (column_nth n _ _ i) in H9, H21, H50, H100, H200, Hm, Hs, Hr, Ha;
    try exact Hi.
  unfold indicator_row. cbv zeta. cbn [trend_strength].
  unfold trend_strength_of.
  rewrite (gtb_near_false c _ _ H9 H21).
  rewrite (ltb_near_false c _ _ H9 H21).
  rewrite (gtb_near_false c _ _ Hclose H50).
  rewrite (gtb_near_false c _ _ Hclose H200).
  rewrite (gtb_near_false 0 _ _ Hm Hs).
  assert (Hr50 : (nth i (c_rsi cols) NaN >? Fin 50)%fl = true).
  { unfold near in Hr. destruct (nth i (c_rsi cols) NaN); try contradiction.
    apply gtb_fin. simpl in Hr. lra. }
  assert (Ha25 : (nth i (c_adx cols) NaN >? Fin 25)%fl = false).
  { unfold near in Ha. destruct (nth i (c_adx cols) NaN); try contradiction.
    apply ltb_fin_false. simpl in Ha. lra. }
  rewrite Hr50, Ha25. vm_compute. reflexivity.
Qed.

Lemma flat_trend_strength (c : Q) (df : list Bar) (f : IndicatorFrame) :
  flat c df -> In f (calculate_indicators df) ->
  trend_strength f =~ Fin (-0.15).
Proof.
  intros Hflat Hf. unfold calculate_indicators in Hf. cbv zeta in Hf.
  apply in_map_iff in Hf. destruct Hf as (i & <- & Hi).
  apply in_seq in Hi.
  destruct (flat_prices c df Hflat) as (Hh & Hl & Hc).
  assert (Hema : forall span,
             column (length df) (near c) (ewm_span span (map b_close df)))
    by (intro span; apply column_ewm_near; exact Hc).
  assert (Hmacd : column (length df) (near 0)
                    (zip_with Fl.sub (ewm_span 12 (map b_close df))
                       (ewm_span 26 (map b_close df)))).
  { apply (column_zip_with _ (near c) (near c)); [|apply Hema|apply Hema].
    intros x y. apply near_zero_sub. }
  apply (indicator_row_flat c); cbn [indicator_columns c_ema9 c_ema21 c_ema50
    c_ema100 c_ema200 c_macd c_signal c_rsi c_adx]; try apply Hema;
    try exact Hflat; try lia.
  - exact Hmacd.
  - apply column_ewm_near. exact Hmacd.
  - apply (flat_rsi _ c). exact Hc.
  - apply (flat_adx _ c); assumption.
Qed.

(** The three timeframes of a flat series combine to the same value, where
    they combine at all. *)
Lemma flat_combined_trend (cd cm cl : Q) (daily medium lower : list Bar)
  (r : Row) :
  flat cd daily -> flat cm medium -> flat cl lower ->
  In r (combine_timeframes (calculate_indicators daily)
          (calculate_indicators medium) (calculate_indicators lower)) ->
  combined_trend r = NaN \/ combined_trend r =~ Fin (-0.15).
Proof.
  intros Hd Hm Hl Hr. unfold combine_timeframes in Hr.
  apply in_map_iff in Hr. destruct Hr as (f & <- & Hf).
  unfold combine_row. cbv zeta.
  destruct (asof_trend_cases (calculate_indicators daily) (b_datetime (bar f)))
    as [(-> & _)|(fd & Hfd & _ & ->)]; [left; reflexivity|].
  destruct (asof_trend_cases (calculate_indicators medium)
              (b_datetime (bar f)))
    as [(-> & _)|(fm & Hfm & _ & ->)].
  { left. rewrite orb_true_r. reflexivity. }
  pose proof (flat_trend_strength cd daily fd Hd Hfd) as Ed.
  pose proof (flat_trend_strength cm medium fm Hm Hfm) as Em.
  pose proof (flat_trend_strength cl lower f Hl Hf) as El.
  destruct (trend_strength fd) as [d| | |]; try contradiction.
  destruct (trend_strength fm) as [m| | |]; try contradiction.
  destruct (trend_strength f) as [l| | |]; try contradiction.
  right. simpl in *. rewrite Ed, Em, El. reflexivity.
Qed.

Lemma flat_bars_flat : flat 1 Samples.flat_bars.
Proof.
  unfold flat, Samples.flat_bars. apply Forall_map. apply Forall_forall.
  intros i _. repeat split; reflexivity.
Qed.

Lemma abs_below_threshold (x : fl) (q : Q) :
  x =~ Fin (-0.15) -> (0.15 < q)%Q -> (Fl.abs x >=? Fin q)%fl = false.
Proof.
  destruct x as [a| | |]; try contradiction. simpl. intros Ha Hq.
  apply leb_fin_false. rewrite Ha. exact Hq.
Qed.

(** C7, as the code has it.  On flat daily, medium and lower series the
    trend strength of every bar is -0.15 (ties count as -1 in the sign
    terms, the RSI of a series without losses is 100, and the ADX is 0), so
    the combined trend is -0.15 wherever it is defined; its magnitude is
    below every threshold above 0.15, and neither the backtester nor the
    live path ever emits BUY or SELL. *)
Theorem C7_flat_series_no_signal (cd cm cl : Q)
  (daily medium lower : list Bar) (sp : Mode -> ModeParams) :
  flat cd daily -> flat cm medium -> flat cl lower ->
  (forall m, threshold_above 0.15 (sp m)) ->
  let daily_df := calculate_indicators daily in
  let medium_df := calculate_indicators medium in
  let lower_df := calculate_indicators lower in
  (forall f, In f daily_df \/ In f medium_df \/ In f lower_df ->
             trend_strength f =~ Fin (-0.15)) /\
  (forall r, In r (combine_timeframes daily_df medium_df lower_df) ->
     (combined_trend r = NaN \/ combined_trend r =~ Fin (-0.15)) /\
     (forall sd, generate_signal sp r = Some sd -> sd_signal sd = NEUTRAL) /\
     ls_signal (generate_signals_live r) = NEUTRAL).
Proof.
  intros Hd Hm Hl Hthr daily_df medium_df lower_df. split.
  - intros f [H|[H|H]].
    + exact (flat_trend_strength cd daily f Hd H).
    + exact (flat_trend_strength cm medium f Hm H).
    + exact (flat_trend_strength cl lower f Hl H).
  - intros r Hr.
    pose proof (flat_combined_trend cd cm cl daily medium lower r Hd Hm Hl Hr)
      as Hc.
    split; [exact Hc|]. split.
    + intros sd Hsd. rewrite (generate_signal_signal sp r sd Hsd). cbv zeta.
      destruct Hc as [Hn|He].
      * rewrite (generate_signal_absent sp r Hn) in Hsd. discriminate.
      * destruct (Hthr (sd_mode sd)) as (q & -> & Hq).
        rewrite (abs_below_threshold _ q He Hq). reflexivity.
    + unfold generate_signals_live.
      destruct Hc as [Hn|He].
      * rewrite Hn. reflexivity.
      * destruct (isna (combined_trend r) || isna (timeframe_alignment r));
          [reflexivity|].
        cbv zeta.
        set (m := mode_of_score _).
        assert (E : (Fl.abs (combined_trend r)
                     >=? trend_strength_threshold (params m))%fl = false).
        { destruct m; apply abs_below_threshold; try exact He; reflexivity. }
        rewrite E. cbn [andb].
        destruct (_ || _); reflexivity.
Qed.

(** The last bar of 201 flat hourly bars, the frame serving as its own
    daily and medium frame. *)
Lemma C7_flat_series_no_signal_witness :
  let df := calculate_indicators Samples.flat_bars in
  match nth_error (combine_timeframes df df df) 200 with
  | Some r => ls_signal (generate_signals_live r) = NEUTRAL
  | None => False
  end.
Proof.
  intro df.
  destruct (nth_error (combine_timeframes df df df) 200) as [r|] eqn:E.
  - apply nth_error_In in E.
    exact (proj2 (proj2 (proj2 (C7_flat_series_no_signal 1 1 1
             Samples.flat_bars Samples.flat_bars Samples.flat_bars params
             flat_bars_flat flat_bars_flat flat_bars_flat
             (fun m => match m with
                       | aggressive =>
                           ex_intro _ 0.2 (conj eq_refl eq_refl)
                       | conservative =>
                           ex_intro _ 0.2 (conj eq_refl eq_refl)
                       end)) r E))).
  - apply nth_error_None in E. unfold combine_timeframes, df in E.
    rewrite length_map, calculate_indicators_length in E.
    vm_compute in E. lia.
Defined.

(** C7 as stated fails: on 201 flat bars the trend strength of the bar of
    index 200, past the warm-up, is -0.15 and not within a tenth of 0. *)
Lemma C7_flat_trend_not_zero :
  ~ (forall c df i f,
        flat c df -> (200 <= i)%nat ->
        nth_error (calculate_indicators df) i = Some f ->
        within (-0.1) 0.1 (trend_strength f)).
Proof.
  intro H.
  destruct (calculate_indicators_nth Samples.flat_bars 200) as (f & E & Hin).
  { vm_compute. lia. }
  destruct (H 1 Samples.flat_bars 200%nat f flat_bars_flat (le_n _) E)
    as (q & Hq & Hlo & Hhi).
  pose proof (flat_trend_strength 1 Samples.flat_bars f flat_bars_flat Hin)
    as Ht.
  rewrite Hq in Ht. simpl in Ht. lra.
Qed.

End FlatSeries.

(** ** Wilder smoothing *)

Section WilderSmoothing.

Import Pandas Strategy.

Lemma Qeq_bool_false (a b : Q) : ~ a == b -> Qeq_bool a b = false.
Proof.
  intro H. destruct (Qeq_bool a b) eqn:E; [|reflexivity].
  apply Qeq_bool_iff in E. contradiction.
Qed.

Lemma neb_fin_false (a b : Q) : Fl.neb (Fin a) (Fin b) = false -> a == b.
Proof.
  unfold Fl.neb. rewrite negb_false_iff. apply eqb_fin.
Qed.

(** One step of the weighted mean from a finite mean carrying weight 1 is
    one step of the recurrence. *)
Lemma ewm_step_wilder (alpha w w' x : Q) :
  w == w' ->
  exists y,
    ewm_step alpha (Fin w, 1%Q) (Fin x) = (Fin y, 1%Q)
    /\ y == w' + alpha * (x - w').
Proof.
  intro Hw. unfold ewm_step. cbn [isna].
  destruct (Fl.neb (Fin w) (Fin x)) eqn:E.
  - cbn [Fl.mul Fl.add Fl.div].
    rewrite Qeq_bool_false by (intro H; lra).
    eexists. split; [reflexivity|].
    rewrite Hw. field. lra.
  - apply neb_fin_false in E. exists w. split; [reflexivity|].
    rewrite <- Hw, <- E. ring.
Qed.

Lemma ewm_from_wilder (period : positive) (xs : list Q) :
  forall w w', w == w' ->
    Forall2 Fl.equiv
      (ewm_from (1 / (Zpos period # 1)) (Fin w, 1%Q) (map Fin xs))
      (map Fin (Spec.wilder_from period w' xs)).
Proof.
  induction xs as [|x r IH]; intros w w' Hw.
  - constructor.
  - cbn [map ewm_from Spec.wilder_from]. cbv zeta.
    destruct (ewm_step_wilder (1 / (Zpos period # 1)) w w' x Hw)
      as (y & Hstep & Hy).
    rewrite Hstep. cbn [fst]. constructor.
    + exact Hy.
    + apply IH. exact Hy.
Qed.

Lemma ewm_from_nan_prefix (alpha : Q) (k : nat) (x : Q) (r : list fl) :
  ewm_from alpha (NaN, 1%Q) (repeat NaN k ++ Fin x :: r)
  = repeat NaN k ++ Fin x :: ewm_from alpha (Fin x, 1%Q) r.
Proof.
  induction k as [|k IH]; simpl.
  - reflexivity.
  - rewrite IH. reflexivity.
Qed.

Lemma ewm_from_all_nan (alpha : Q) (k : nat) :
  ewm_from alpha (NaN, 1%Q) (repeat NaN k) = repeat NaN k.
Proof.
  induction k as [|k IH]; simpl; [reflexivity|]. rewrite IH. reflexivity.
Qed.

Lemma Forall2_equiv_refl (l : list fl) : Forall2 Fl.equiv l l.
Proof.
  induction l; constructor; auto using equiv_refl.
Qed.

(** *** The ATR column of finite bars *)

Lemma map_nth_seq (l : list fl) :
  map (fun i => nth i l NaN) (seq 0 (length l)) = l.
Proof.
  apply nth_ext with (d := NaN) (d' := NaN).
  - rewrite length_map, length_seq. reflexivity.
  - intros i Hi. rewrite length_map, length_seq in Hi.
    rewrite (nth_indep _ NaN (nth 0 l NaN))
      by (rewrite length_map, length_seq; exact Hi).
    rewrite (map_nth (fun i => nth i l NaN) (seq 0 (length l)) 0%nat i).
    rewrite seq_nth by exact Hi. reflexivity.
Qed.

Lemma all_fin_values (l : list fl) :
  Forall Fl.is_fin l -> exists qs, l = map Fin qs.
Proof.
  induction 1 as [|x l (q & ->) _ (qs & ->)].
  - exists []. reflexivity.
  - exists (q :: qs). reflexivity.
Qed.

Lemma max_skipna3_fin (a b c : fl) :
  Fl.is_fin a -> Spec.fin_or_nan b -> Spec.fin_or_nan c ->
  Fl.is_fin (max_skipna3 a b c).
Proof.
  assert (H2 : forall u v, Fl.is_fin u -> Spec.fin_or_nan v ->
                           Fl.is_fin (max_skipna2 u v)).
  { intros u v (p & ->) [->|(q & ->)]; unfold max_skipna2; cbn [isna].
    - exists p. reflexivity.
    - destruct (Fin p <? Fin q)%fl; eexists; reflexivity. }
  intros Ha Hb Hc. unfold max_skipna3. apply H2; [apply H2|]; assumption.
Qed.

Lemma true_range_fin (n : nat) (high low close : list fl) :
  Spec.column n Fl.is_fin high -> Spec.column n Fl.is_fin low ->
  Spec.column n Fl.is_fin close ->
  Spec.column n Fl.is_fin (true_range high low close).
Proof.
  intros Hh Hl Hc. unfold true_range. cbv zeta.
  assert (Hp : Spec.column n Spec.fin_or_nan (shift close)).
  { apply (column_shift_gen n Fl.is_fin); [|left; reflexivity|exact Hc].
    intros x Hx. right. exact Hx. }
  assert (Ht : forall l, Spec.column n Fl.is_fin l ->
                Spec.column n Spec.fin_or_nan
                  (set_first (Fin 0)
                     (map Fl.abs (zip_with Fl.sub l (shift close))))).
  { intros l Hcol. apply column_set_first; [right; exists 0; reflexivity|].
    assert (Hsub : forall x y, Fl.is_fin x -> Spec.fin_or_nan y ->
                     Spec.fin_or_nan (Fl.abs (x - y)%fl)).
    { intros x y (p & ->) [->|(q & ->)]; [left; reflexivity|right].
      eexists. reflexivity. }
    destruct (column_zip_with n Fl.is_fin Spec.fin_or_nan
                (fun x => Spec.fin_or_nan (Fl.abs x)) Fl.sub l (shift close)
                Hsub Hcol Hp) as [Hlen Hall].
    split; [rewrite length_map; exact Hlen|].
    apply Forall_map. exact Hall. }
  apply (column_zip_with n Fl.is_fin
           (fun bc : fl * fl =>
              Spec.fin_or_nan (fst bc) /\ Spec.fin_or_nan (snd bc))).
  - intros a bc Ha [Hb Hd]. apply max_skipna3_fin; assumption.
  - apply (column_zip_with n Fl.is_fin Fl.is_fin); [|exact Hh|exact Hl].
    intros x y (p & ->) (q & ->). eexists. reflexivity.
  - apply (column_zip_with n Spec.fin_or_nan Spec.fin_or_nan);
      [|apply Ht; exact Hh|apply Ht; exact Hl].
    intros x y Hx Hy. split; assumption.
Qed.

Lemma ewm_mean_length (alpha : Q) (l : list fl) :
  length (ewm_mean alpha l) = length l.
Proof.
  assert (H : forall xs st, length (ewm_from alpha st xs) = length xs).
  { induction xs as [|x r IH]; intro st; [reflexivity|].
    cbn [ewm_from]. cbv zeta. cbn [length]. rewrite IH. reflexivity. }
  unfold ewm_mean. rewrite <- (length_map prep l).
  destruct (map prep l) as [|x r]; [reflexivity|].
  cbn [length]. rewrite H. reflexivity.
Qed.

Lemma true_range_length (n : nat) (high low close : list fl) :
  length high = n -> length low = n -> length close = n ->
  length (true_range high low close) = n.
Proof.
  intros Hh Hl Hc.
  assert (T : forall l : list fl,
             length l = n -> Spec.column n (fun _ : fl => True) l).
  { intros l Hlen. split; [exact Hlen|]. apply Forall_forall. auto. }
  unfold true_range. cbv zeta.
  assert (Hp : Spec.column n (fun _ : fl => True) (shift close))
    by (apply (column_shift_gen n (fun _ => True)); auto).
  assert (Ht : forall l, length l = n ->
                Spec.column n (fun _ : fl => True)
                  (set_first (Fin 0)
                     (map Fl.abs (zip_with Fl.sub l (shift close))))).
  { intros l Hlen. apply column_set_first; [exact I|].
    apply (column_map n (fun _ => True)); [auto|].
    apply (column_zip_with n (fun _ => True) (fun _ => True)); auto. }
  apply (column_zip_with n (fun _ : fl => True) (fun _ : fl * fl => True)
           (fun _ : fl => True)); auto.
  - apply (column_zip_with n (fun _ : fl => True) (fun _ : fl => True)); auto.
  - apply (column_zip_with n (fun _ : fl => True) (fun _ : fl => True)); auto.
Qed.

Lemma atr_column (df : list Bar) :
  map atr14 (calculate_indicators df)
  = wilder_smooth
      (true_range (map b_high df) (map b_low df) (map b_close df)) 14.
Proof.
  unfold calculate_indicators. cbv zeta. rewrite map_map.
  cbn [atr14 indicator_row indicator_columns c_atr].
  set (atr := wilder_smooth _ 14).
  assert (Hlen : length atr = length df).
  { unfold atr, wilder_smooth. cbv zeta. rewrite ewm_mean_length.
    apply true_range_length; apply length_map. }
  rewrite <- Hlen. apply map_nth_seq.
Qed.

(** *** The smoothed columns over finite prices *)

Import Spec.

(** *** Reading columns *)

Lemma reads_fin (xs : list fl) (qs : list Q) :
  reads xs qs -> Forall Spec.fin_or_nan xs.
Proof.
  induction 1 as [|x q xs qs Hx _ IH]; constructor; [|exact IH].
  destruct x as [x'| | |]; try contradiction. right. exists x'. reflexivity.
Qed.

Lemma reads_map_fin (qs : list Q) : reads (map Fin qs) qs.
Proof.
  induction qs as [|q r IH]; constructor; [apply Qeq_refl|exact IH].
Qed.

Lemma reads_length (xs : list fl) (qs : list Q) :
  reads xs qs -> length xs = length qs.
Proof. apply Forall2_length. Qed.

Lemma reads_equiv (xs : list fl) (qs : list Q) :
  reads xs qs -> Forall2 Fl.equiv xs (map Fin qs).
Proof.
  induction 1 as [|x q xs qs Hx _ IH]; constructor; assumption.
Qed.

Lemma reads_zip_with (P R : Q -> Prop) (f : fl -> fl -> fl) (g : Q -> Q -> Q)
  (xs ys : list fl) (ps qs : list Q) :
  (forall x y p q, x =~ Fin p -> y =~ Fin q -> P p -> R q ->
                   f x y =~ Fin (g p q)) ->
  reads xs ps -> reads ys qs -> Forall P ps -> Forall R qs ->
  reads (zip_with f xs ys) (zip_with g ps qs).
Proof.
  intros Hf Hx. revert ys qs.
  induction Hx as [|x p xs ps Hxp _ IH]; intros ys qs Hy HP HR;
    [constructor|].
  destruct Hy as [|y q ys qs Hyq Hy]; [constructor|].
  inversion HP; inversion HR; subst.
  cbn [zip_with]. constructor; [apply Hf; assumption|].
  apply IH; assumption.
Qed.

(** *** The weighted mean of a column that reads as numbers *)

Lemma ewm_step_reads (alpha w w' x x' : Q) :
  w == w' -> x == x' ->
  exists y,
    ewm_step alpha (Fin w, 1%Q) (Fin x) = (Fin y, 1%Q)
    /\ y == w' + alpha * (x' - w').
Proof.
  intros Hw Hx. unfold ewm_step. cbn [isna].
  destruct (Fl.neb (Fin w) (Fin x)) eqn:E.
  - cbn [Fl.mul Fl.add Fl.div].
    rewrite Qeq_bool_false by (intro H; lra).
    eexists. split; [reflexivity|].
    rewrite Hw, Hx. field. lra.
  - apply neb_fin_false in E. exists w. split; [reflexivity|].
    rewrite <- Hw, <- Hx, <- E. ring.
Qed.

Lemma ewm_from_reads (period : positive) (xs : list fl) (qs : list Q) :
  reads xs qs ->
  forall w w', w == w' ->
    reads (ewm_from (1 / (Zpos period # 1)) (Fin w, 1%Q) xs)
      (wilder_from period w' qs).
Proof.
  induction 1 as [|x q xs qs Hx _ IH]; intros w w' Hw; [constructor|].
  destruct x as [x'| | |]; try contradiction. cbn [Fl.equiv] in Hx.
  cbn [ewm_from wilder_from]. cbv zeta.
  destruct (ewm_step_reads (1 / (Zpos period # 1)) w w' x' q Hw Hx)
    as (y & Hstep & Hy).
  rewrite Hstep. cbn [fst]. constructor; [exact Hy|].
  apply IH. exact Hy.
Qed.

Lemma wilder_smooth_reads (period : positive) (xs : list fl) (qs : list Q) :
  reads xs qs ->
  reads (wilder_smooth xs period) (wilder_recurrence period qs).
Proof.
  intro H. unfold wilder_smooth. cbv zeta.
  rewrite ewm_mean_clean by exact (reads_fin xs qs H).
  destruct H as [|x q xs qs Hx Hr]; [constructor|].
  destruct x as [x'| | |]; try contradiction. cbn [Fl.equiv] in Hx.
  cbn [wilder_recurrence]. constructor; [exact Hx|].
  apply ewm_from_reads; assumption.
Qed.

Lemma wilder_smooth_reads_after_nan (period : positive) (xs : list fl)
  (qs : list Q) :
  reads xs qs ->
  exists ys,
    wilder_smooth (NaN :: xs) period = NaN :: ys
    /\ reads ys (wilder_recurrence period qs).
Proof.
  intro H. unfold wilder_smooth. cbv zeta.
  rewrite ewm_mean_clean
    by (constructor; [left; reflexivity|exact (reads_fin xs qs H)]).
  destruct H as [|x q xs qs Hx Hr].
  - exists []. split; [reflexivity|constructor].
  - destruct x as [x'| | |]; try contradiction. cbn [Fl.equiv] in Hx.
    cbn [ewm_from]. cbv zeta. unfold ewm_step at 1 2. cbn [isna fst].
    eexists. split; [reflexivity|].
    cbn [wilder_recurrence]. constructor; [exact Hx|].
    apply ewm_from_reads; assumption.
Qed.

(** The recurrence keeps a sign. *)

Lemma wilder_weight (period : positive) :
  0 < 1 / (Zpos period # 1) <= 1.
Proof.
  assert (E : 1 / (Zpos period # 1) == 1 # period)
    by (unfold Qdiv, Qinv; cbn; unfold Qeq; cbn; lia).
  rewrite E. split.
  - reflexivity.
  - unfold Qle. cbn. lia.
Qed.

Lemma wilder_from_nonneg (period : positive) (xs : list Q) :
  forall prev, 0 <= prev -> Forall (fun x => 0 <= x) xs ->
    Forall (fun x => 0 <= x) (wilder_from period prev xs).
Proof.
  pose proof (wilder_weight period) as (Ha0 & Ha1).
  induction xs as [|x r IH]; intros prev Hp Hx; [constructor|].
  inversion Hx as [|? ? Hx0 Hr]; subst.
  cbn [wilder_from]. cbv zeta.
  set (alpha := 1 / (Zpos period # 1)) in *.
  assert (Hn : 0 <= prev + alpha * (x - prev)) by nra.
  constructor; [exact Hn|]. apply IH; assumption.
Qed.

Lemma wilder_from_positive (xs : list Q) :
  forall prev, 0 < prev -> Forall (fun x => 0 <= x) xs ->
    Forall (fun x => 0 < x) (wilder_from 14 prev xs).
Proof.
  induction xs as [|x r IH]; intros prev Hp Hx; [constructor|].
  inversion Hx as [|? ? Hx0 Hr]; subst.
  cbn [wilder_from]. cbv zeta.
  assert (Hn : 0 < prev + 1 / (14 # 1) * (x - prev)).
  { setoid_replace (prev + 1 / (14 # 1) * (x - prev))
      with ((13 # 14) * prev + (1 # 14) * x) by field.
    lra. }
  constructor; [exact Hn|]. apply IH; assumption.
Qed.

Lemma wilder_recurrence_nonneg (period : positive) (xs : list Q) :
  Forall (fun x => 0 <= x) xs ->
  Forall (fun x => 0 <= x) (wilder_recurrence period xs).
Proof.
  intro H. destruct H as [|x r Hx Hr]; [constructor|].
  cbn [wilder_recurrence]. constructor; [exact Hx|].
  apply wilder_from_nonneg; assumption.
Qed.

Lemma wilder_recurrence_positive (x : Q) (r : list Q) :
  0 < x -> Forall (fun y => 0 <= y) r ->
  Forall (fun y => 0 < y) (wilder_recurrence 14 (x :: r)).
Proof.
  intros Hx Hr. cbn [wilder_recurrence]. constructor; [exact Hx|].
  apply wilder_from_positive; assumption.
Qed.

Lemma ltb_Qltb (a b : Q) : (Fin a <? Fin b)%fl = Qltb a b.
Proof.
  destruct (Fin a <? Fin b)%fl eqn:E1; destruct (Qltb a b) eqn:E2;
    try reflexivity; fl_prop.
  - apply Qltb_false in E2. lra.
  - apply Qltb_lt in E2. lra.
Qed.

Lemma gtb_Qltb (a b : Q) : (Fin a >? Fin b)%fl = Qltb b a.
Proof. unfold Fl.gtb. apply ltb_Qltb. Qed.

Lemma removelast_map_fin (l : list Q) :
  removelast (map Fin l) = map Fin (removelast l).
Proof.
  induction l as [|x r IH]; [reflexivity|].
  destruct r as [|y r']; [reflexivity|].
  cbn [map removelast] in *. rewrite IH. reflexivity.
Qed.

Lemma zip_with_map_fin (f : fl -> fl -> fl) (g : Q -> Q -> Q) :
  (forall x y, f (Fin x) (Fin y) = Fin (g x y)) ->
  forall a b, zip_with f (map Fin a) (map Fin b) = map Fin (zip_with g a b).
Proof.
  intros Hf a. induction a as [|x r IH]; intros [|y b']; try reflexivity.
  cbn [map zip_with]. rewrite Hf, IH. reflexivity.
Qed.

Lemma shift_fin (c0 : Q) (r : list Q) :
  shift (map Fin (c0 :: r)) = NaN :: map Fin (removelast (c0 :: r)).
Proof.
  unfold shift. cbn [map]. rewrite <- removelast_map_fin. reflexivity.
Qed.

Lemma sub_shift_fin (x0 c0 : Q) (xr cr : list Q) :
  zip_with Fl.sub (map Fin (x0 :: xr)) (shift (map Fin (c0 :: cr)))
  = NaN :: map Fin (zip_with Qminus xr (removelast (c0 :: cr))).
Proof.
  rewrite shift_fin. cbn [map zip_with]. f_equal.
  apply zip_with_map_fin. reflexivity.
Qed.

Lemma diff_fin (c0 : Q) (r : list Q) :
  diff (map Fin (c0 :: r)) = NaN :: map Fin (deltas (c0 :: r)).
Proof.
  unfold diff. apply sub_shift_fin.
Qed.

Lemma length_zip_with {A B C : Type} (f : A -> B -> C) (a : list A)
  (b : list B) :
  length (zip_with f a b) = Nat.min (length a) (length b).
Proof.
  revert b. induction a as [|x r IH]; intros [|y b']; try reflexivity.
  cbn [zip_with length Nat.min]. rewrite IH. reflexivity.
Qed.

Lemma length_removelast {A : Type} (l : list A) :
  length (removelast l) = pred (length l).
Proof.
  induction l as [|x r IH]; [reflexivity|].
  destruct r as [|y r']; [reflexivity|].
  cbn [removelast length] in *. rewrite IH. reflexivity.
Qed.

Lemma length_deltas (xs : list Q) : length (deltas xs) = pred (length xs).
Proof.
  unfold deltas. rewrite length_zip_with, length_removelast.
  destruct xs; cbn [tl length pred]; lia.
Qed.

Lemma length_wilder_recurrence (p : positive) (xs : list Q) :
  length (wilder_recurrence p xs) = length xs.
Proof.
  assert (H : forall l prev, length (wilder_from p prev l) = length l).
  { induction l as [|x r IH]; intro prev; [reflexivity|].
    cbn [wilder_from length]. cbv zeta. cbn [length]. rewrite IH.
    reflexivity. }
  destruct xs as [|x r]; [reflexivity|].
  cbn [wilder_recurrence length]. rewrite H. reflexivity.
Qed.

(** *** Gains and losses *)

Lemma gain_column (cs : list Q) :
  where_ (fun d => (d >? Fin 0)%fl) (diff (map Fin cs)) (Fin 0)
  = map Fin (gains cs).
Proof.
  destruct cs as [|c0 r]; [reflexivity|].
  rewrite diff_fin. unfold where_, gains. cbn [map]. f_equal.
  rewrite !map_map. apply map_ext. intro d.
  rewrite gtb_Qltb. destruct (Qltb 0 d); reflexivity.
Qed.

Lemma loss_column (cs : list Q) :
  reads (map Fl.neg
           (where_ (fun d => (d <? Fin 0)%fl) (diff (map Fin cs)) (Fin 0)))
    (losses cs).
Proof.
  destruct cs as [|c0 r]; [constructor|].
  rewrite diff_fin. unfold where_, losses. cbn [map].
  constructor; [reflexivity|].
  rewrite !map_map. generalize (deltas (c0 :: r)) as ds.
  induction ds as [|d ds IH]; [constructor|].
  cbn [map]. constructor; [|exact IH].
  rewrite ltb_Qltb. destruct (Qltb d 0); reflexivity.
Qed.

(** *** The RSI cell *)

Lemma eqb_Qeq_bool (a b : Q) : a == b -> (Fin a =? Fin 0)%fl = Qeq_bool b 0.
Proof.
  intro H.
  destruct (Fin a =? Fin 0)%fl eqn:E1; destruct (Qeq_bool b 0) eqn:E2;
    try reflexivity.
  - apply eqb_fin in E1. apply Qeq_bool_neq in E2. exfalso. apply E2.
    rewrite <- H. exact E1.
  - apply Qeq_bool_iff in E2.
    assert (Ht : (Fin a =? Fin 0)%fl = true)
      by (apply eqb_fin; rewrite H; exact E2).
    congruence.
Qed.

Lemma rsi_cell (g l : fl) (g' l' : Q) :
  g =~ Fin g' -> l =~ Fin l' -> 0 <= g' -> 0 <= l' ->
  (let rs := (g / l)%fl in
   if (l =? Fin 0)%fl then Fin 100
   else if (g =? Fin 0)%fl then Fin 0
        else (Fin 100 - Fin 100 / (Fin 1 + rs))%fl)
  =~ Fin (rsi_of g' l').
Proof.
  intros Hg Hl Hg0 Hl0.
  destruct g as [a| | |]; try contradiction.
  destruct l as [b| | |]; try contradiction.
  cbn [Fl.equiv] in Hg, Hl. cbv zeta. unfold rsi_of.
  rewrite (eqb_Qeq_bool b l' Hl), (eqb_Qeq_bool a g' Hg).
  destruct (Qeq_bool l' 0) eqn:El; [apply Qeq_refl|].
  destruct (Qeq_bool g' 0) eqn:Eg; [apply Qeq_refl|].
  apply Qeq_bool_neq in El. apply Qeq_bool_neq in Eg.
  assert (Hb : ~ b == 0) by (rewrite Hl; exact El).
  rewrite (div_fin a b) by exact Hb.
  cbn [Fl.add]. 
  assert (Hpos : 0 < 1 + a / b).
  { assert (0 <= a / b); [|lra].
    apply Qle_shift_div_l; [rewrite Hl; lra|]. rewrite Hg. lra. }
  rewrite (div_fin 100 (1 + a / b)) by lra.
  cbn [Fl.sub Fl.add Fl.neg Fl.equiv].
  rewrite Hg, Hl. reflexivity.
Qed.

Lemma fillna_reads (v : fl) (xs : list fl) (qs : list Q) :
  reads xs qs -> fillna v xs = xs.
Proof.
  unfold fillna. induction 1 as [|x q xs qs Hx _ IH]; [reflexivity|].
  cbn [map]. rewrite IH.
  destruct x; try contradiction. reflexivity.
Qed.

Lemma nonneg_gains (cs : list Q) : Forall (fun x => 0 <= x) (gains cs).
Proof.
  unfold gains. destruct cs as [|c0 r]; [constructor|].
  constructor; [lra|]. apply Forall_forall. intros x Hx.
  apply in_map_iff in Hx. destruct Hx as (d & <- & _).
  destruct (Qltb 0 d) eqn:E; [apply Qltb_lt in E|]; lra.
Qed.

Lemma nonneg_losses (cs : list Q) : Forall (fun x => 0 <= x) (losses cs).
Proof.
  unfold losses. destruct cs as [|c0 r]; [constructor|].
  constructor; [lra|]. apply Forall_forall. intros x Hx.
  apply in_map_iff in Hx. destruct Hx as (d & <- & _).
  destruct (Qltb d 0) eqn:E; [apply Qltb_lt in E|]; lra.
Qed.

Lemma rsi_column_reads (cs : list Q) :
  reads (rsi_column (map Fin cs)) (rsi_by_recurrence cs).
Proof.
  unfold rsi_column, rsi_by_recurrence. cbv zeta.
  rewrite gain_column.
  assert (H : reads
    (zip_with
       (fun g l =>
          let rs := (g / l)%fl in
          if (l =? Fin 0)%fl then Fin 100
          else if (g =? Fin 0)%fl then Fin 0
               else (Fin 100 - Fin 100 / (Fin 1 + rs))%fl)
       (wilder_smooth (map Fin (gains cs)) 14)
       (wilder_smooth
          (map Fl.neg
             (where_ (fun d => (d <? Fin 0)%fl) (diff (map Fin cs)) (Fin 0)))
          14))
    (zip_with rsi_of (wilder_recurrence 14 (gains cs))
       (wilder_recurrence 14 (losses cs)))).
  { apply (reads_zip_with (fun x => 0 <= x) (fun x => 0 <= x)).
    - intros x y p q Hx Hy Hp Hq. apply rsi_cell; assumption.
    - apply wilder_smooth_reads. apply reads_map_fin.
    - apply wilder_smooth_reads. apply loss_column.
    - apply wilder_recurrence_nonneg. apply nonneg_gains.
    - apply wilder_recurrence_nonneg. apply nonneg_losses. }
  rewrite (fillna_reads _ _ _ H). exact H.
Qed.

Lemma column_of_frame (l : list fl) (df : list Bar) :
  length l = length df ->
  map (fun i => nth i l NaN) (seq 0 (length df)) = l.
Proof.
  intro H. rewrite <- H. apply map_nth_seq.
Qed.

Lemma rsi_of_frame (df : list Bar) (cs : list Q) :
  map b_close df = map Fin cs ->
  map rsi (calculate_indicators df) = rsi_column (map Fin cs).
Proof.
  intro Hc. unfold calculate_indicators. cbv zeta. rewrite map_map.
  cbn [rsi indicator_row indicator_columns c_rsi]. rewrite Hc.
  apply column_of_frame.
  rewrite (reads_length _ _ (rsi_column_reads cs)).
  unfold rsi_by_recurrence.
  rewrite length_zip_with, !length_wilder_recurrence.
  assert (Hlen : length cs = length df)
    by (rewrite <- (length_map Fin cs), <- Hc; apply length_map).
  unfold gains, losses. destruct cs as [|c0 r]; [cbn in *; lia|].
  cbn [length]. rewrite !length_map, length_deltas. cbn [length] in *.
  lia.
Qed.

Lemma map_neg_fin (l : list Q) : map Fl.neg (map Fin l) = map Fin (map Qopp l).
Proof. rewrite !map_map. reflexivity. Qed.

Lemma map_abs_fin (l : list Q) : map Fl.abs (map Fin l) = map Fin (map Qabs l).
Proof. rewrite !map_map. reflexivity. Qed.

Lemma plus_dm_column (h0 l0 : Q) (hr lr : list Q) :
  zip_with (fun u d => if isna u then NaN
                       else if (u >? d)%fl && (u >? Fin 0)%fl then u
                            else Fin 0)
    (diff (map Fin (h0 :: hr))) (map Fl.neg (diff (map Fin (l0 :: lr))))
  = NaN :: map Fin (plus_dm (h0 :: hr) (l0 :: lr)).
Proof.
  rewrite !diff_fin. cbn [map zip_with isna Fl.neg]. f_equal.
  rewrite map_neg_fin. unfold plus_dm. apply zip_with_map_fin.
  intros x y. cbn [isna]. rewrite !gtb_Qltb.
  destruct (Qltb y x && Qltb 0 x); reflexivity.
Qed.

Lemma minus_dm_column (h0 l0 : Q) (hr lr : list Q) :
  zip_with (fun u d => if isna d then NaN
                       else if (d >? u)%fl && (d >? Fin 0)%fl then d
                            else Fin 0)
    (diff (map Fin (h0 :: hr))) (map Fl.neg (diff (map Fin (l0 :: lr))))
  = NaN :: map Fin (minus_dm (h0 :: hr) (l0 :: lr)).
Proof.
  rewrite !diff_fin. cbn [map zip_with isna Fl.neg]. f_equal.
  rewrite map_neg_fin. unfold minus_dm. apply zip_with_map_fin.
  intros x y. cbn [isna]. rewrite !gtb_Qltb.
  destruct (Qltb x y && Qltb 0 y); reflexivity.
Qed.

(** *** The true range *)

Lemma max_skipna3_max2 (a b c : Q) :
  max_skipna3 (Fin a) (Fin b) (Fin c) = Fin (max2 (max2 a b) c).
Proof.
  unfold max_skipna3, max_skipna2, max2. cbn [isna]. rewrite ltb_Qltb.
  destruct (Qltb a b); cbn [isna]; rewrite ltb_Qltb;
    match goal with |- context [Qltb ?u ?v] => destruct (Qltb u v) end;
    reflexivity.
Qed.

Lemma widest_fin (t1 t2 t3 : list Q) :
  zip_with (fun a bc => max_skipna3 a (fst bc) (snd bc))
    (map Fin t1) (zip_with pair (map Fin t2) (map Fin t3))
  = map Fin (zip_with (fun a bc => max2 (max2 a (fst bc)) (snd bc))
               t1 (zip_with pair t2 t3)).
Proof.
  revert t2 t3. induction t1 as [|a t1 IH]; intros [|b t2] [|c t3];
    try reflexivity.
  cbn [map zip_with fst snd]. rewrite max_skipna3_max2, IH. reflexivity.
Qed.

Lemma true_range_reads (hs ls cs : list Q) :
  length hs = length cs -> length ls = length cs ->
  true_range (map Fin hs) (map Fin ls) (map Fin cs)
  = map Fin (true_ranges hs ls cs).
Proof.
  intros Hh Hl.
  destruct cs as [|c0 cr]; destruct hs as [|h0 hr]; destruct ls as [|l0 lr];
    try discriminate; [reflexivity|].
  unfold true_range, true_ranges. cbv zeta.
  rewrite !sub_shift_fin. cbn [map set_first tl].
  rewrite !map_abs_fin.
  change (Fin 0 :: map Fin ?l) with (map Fin (0 :: l)).
  change (Fin h0 :: map Fin hr) with (map Fin (h0 :: hr)).
  change (Fin l0 :: map Fin lr) with (map Fin (l0 :: lr)).
  rewrite (zip_with_map_fin Fl.sub Qminus) by reflexivity.
  apply widest_fin.
Qed.

Lemma max2_left (a b : Q) : a <= max2 a b.
Proof.
  unfold max2. destruct (Qltb a b) eqn:E; [apply Qltb_lt in E|]; lra.
Qed.

Lemma max2_right (a b : Q) : b <= max2 a b.
Proof.
  unfold max2. destruct (Qltb a b) eqn:E; [|apply Qltb_false in E]; lra.
Qed.

Lemma widest_nonneg (t1 t2 t3 : list Q) :
  Forall (fun x => 0 <= x) t2 ->
  Forall (fun x => 0 <= x)
    (zip_with (fun a bc => max2 (max2 a (fst bc)) (snd bc))
       t1 (zip_with pair t2 t3)).
Proof.
  intro H. revert t1 t3.
  induction H as [|b t2 Hb _ IH]; intros [|a t1] [|c t3];
    try constructor.
  - cbn [fst snd]. pose proof (max2_right a b). 
    pose proof (max2_left (max2 a b) c). lra.
  - apply IH.
Qed.

Lemma true_ranges_nonneg (hs ls cs : list Q) :
  Forall (fun x => 0 <= x) (true_ranges hs ls cs).
Proof.
  unfold true_ranges. cbv zeta. apply widest_nonneg.
  constructor; [lra|]. apply Forall_forall. intros x Hx.
  apply in_map_iff in Hx. destruct Hx as (d & <- & _). apply Qabs_nonneg.
Qed.

Lemma true_ranges_average_positive (h0 l0 c0 : Q) (hr lr cr : list Q) :
  l0 < h0 ->
  Forall (fun x => 0 < x)
    (wilder_recurrence 14 (true_ranges (h0 :: hr) (l0 :: lr) (c0 :: cr))).
Proof.
  intro H.
  pose proof (true_ranges_nonneg (h0 :: hr) (l0 :: lr) (c0 :: cr)) as Hn.
  assert (Hhd : exists r, true_ranges (h0 :: hr) (l0 :: lr) (c0 :: cr)
                  = max2 (max2 (h0 - l0) 0) 0 :: r)
    by (eexists; reflexivity).
  destruct Hhd as (r & Hr). rewrite Hr in *.
  apply wilder_recurrence_positive.
  - pose proof (max2_left (h0 - l0) 0).
    pose proof (max2_left (max2 (h0 - l0) 0) 0). lra.
  - inversion Hn; assumption.
Qed.

(** *** The directional indicators and the index *)

Lemma di_cell (d t : fl) (p q : Q) :
  d =~ Fin p -> t =~ Fin q -> True -> 0 < q ->
  (Fin 100 * (d / t))%fl =~ Fin (di_of p q).
Proof.
  intros Hd Ht _ Hq.
  destruct d as [a| | |]; try contradiction.
  destruct t as [b| | |]; try contradiction.
  cbn [Fl.equiv] in Hd, Ht. unfold di_of.
  rewrite (div_fin a b) by (rewrite Ht; lra).
  cbn [Fl.mul Fl.equiv]. rewrite Hd, Ht. reflexivity.
Qed.

Lemma di_column_reads (xs tr : list fl) (dmq trq : list Q) :
  reads xs dmq -> reads tr trq ->
  Forall (fun x => 0 < x) (wilder_recurrence 14 trq) ->
  reads
    (fillna (Fin 0)
       (zip_with (fun d t => (Fin 100 * (d / t))%fl)
          (wilder_smooth (NaN :: xs) 14) (wilder_smooth tr 14)))
    (di_column dmq trq).
Proof.
  intros Hx Ht Hpos.
  destruct (wilder_smooth_reads_after_nan 14 xs dmq Hx) as (ys & -> & Hys).
  pose proof (wilder_smooth_reads 14 tr trq Ht) as Hs.
  unfold di_column.
  destruct (wilder_recurrence 14 trq) as [|t0 trest].
  - inversion Hs. constructor.
  - inversion Hs as [|x0 t0' xrest trest' Hx0 Hrest]; subst.
    inversion Hpos as [|? ? Ht0 Hprest]; subst.
    destruct x0 as [b| | |]; try contradiction.
    cbn [zip_with].
    assert (Hz : reads
      (zip_with (fun d t => (Fin 100 * (d / t))%fl) ys xrest)
      (zip_with di_of (wilder_recurrence 14 dmq) trest)).
    { apply (reads_zip_with (fun _ => True) (fun x => 0 < x)).
      - intros x y p q. apply di_cell.
      - exact Hys.
      - exact Hrest.
      - apply Forall_forall. intros; exact I.
      - exact Hprest. }
    unfold fillna. cbn [map]. fold (fillna (Fin 0)
      (zip_with (fun d t => (Fin 100 * (d / t))%fl) ys xrest)).
    rewrite (fillna_reads _ _ _ Hz).
    constructor; [|exact Hz].
    cbn. reflexivity.
Qed.

Lemma dx_cell (p m : fl) (p' m' : Q) :
  p =~ Fin p' -> m =~ Fin m' -> True -> True ->
  (let di_sum := (p + m)%fl in
   (Fin 100 * Fl.abs (p - m)
    / (if (di_sum =? Fin 0)%fl then Fin 1 else di_sum))%fl)
  =~ Fin (dx_of p' m').
Proof.
  intros Hp Hm _ _.
  destruct p as [a| | |]; try contradiction.
  destruct m as [b| | |]; try contradiction.
  cbn [Fl.equiv] in Hp, Hm. cbv zeta. unfold dx_of.
  cbn [Fl.add Fl.sub Fl.neg Fl.abs Fl.mul].
  rewrite (eqb_Qeq_bool (a + b) (p' + m'))
    by (rewrite Hp, Hm; reflexivity).
  destruct (Qeq_bool (p' + m') 0) eqn:E.
  - rewrite div_fin by lra. cbn [Fl.equiv].
    unfold Qminus. rewrite Hp, Hm. reflexivity.
  - apply Qeq_bool_neq in E.
    rewrite div_fin by (rewrite Hp, Hm; exact E). cbn [Fl.equiv].
    unfold Qminus. rewrite Hp, Hm. reflexivity.
Qed.

Lemma adx_column_reads (hs ls cs : list Q) :
  length hs = length cs -> length ls = length cs ->
  hd 0 ls < hd 0 hs ->
  reads (calculate_tradingview_adx (map Fin hs) (map Fin ls) (map Fin cs))
    (adx_by_recurrence hs ls cs).
Proof.
  intros Hh Hl Hfirst.
  destruct cs as [|c0 cr]; destruct hs as [|h0 hr]; destruct ls as [|l0 lr];
    try discriminate; try (cbn in Hfirst; lra).
  cbn [hd] in Hfirst.
  unfold calculate_tradingview_adx, adx_by_recurrence. cbv zeta.
  rewrite plus_dm_column, minus_dm_column.
  rewrite (true_range_reads _ _ _ Hh Hl).
  pose proof (true_ranges_average_positive h0 l0 c0 hr lr cr Hfirst) as Hpos.
  pose proof (di_column_reads _ _ _ _
                (reads_map_fin (plus_dm (h0 :: hr) (l0 :: lr)))
                (reads_map_fin (true_ranges (h0 :: hr) (l0 :: lr) (c0 :: cr)))
                Hpos) as Hplus.
  pose proof (di_column_reads _ _ _ _
                (reads_map_fin (minus_dm (h0 :: hr) (l0 :: lr)))
                (reads_map_fin (true_ranges (h0 :: hr) (l0 :: lr) (c0 :: cr)))
                Hpos) as Hminus.
  match goal with
  | |- reads (fillna _ ?col) _ =>
      assert (H : reads col
        (wilder_recurrence 14
           (zip_with dx_of
              (di_column (plus_dm (h0 :: hr) (l0 :: lr))
                 (true_ranges (h0 :: hr) (l0 :: lr) (c0 :: cr)))
              (di_column (minus_dm (h0 :: hr) (l0 :: lr))
                 (true_ranges (h0 :: hr) (l0 :: lr) (c0 :: cr))))))
  end.
  { apply wilder_smooth_reads.
    apply (reads_zip_with (fun _ => True) (fun _ => True)).
    - intros x y p q. apply dx_cell.
    - exact Hplus.
    - exact Hminus.
    - apply Forall_forall. intros; exact I.
    - apply Forall_forall. intros; exact I. }
  rewrite (fillna_reads _ _ _ H). exact H.
Qed.

(** *** The columns of a frame *)

Lemma length_shift (xs : list fl) : length (shift xs) = length xs.
Proof.
  unfold shift. destruct xs as [|x r]; [reflexivity|].
  cbn [length]. rewrite length_removelast. reflexivity.
Qed.

Lemma length_diff (xs : list fl) : length (diff xs) = length xs.
Proof.
  unfold diff. rewrite length_zip_with, length_shift. lia.
Qed.

Lemma length_wilder_smooth (xs : list fl) (p : positive) :
  length (wilder_smooth xs p) = length xs.
Proof. unfold wilder_smooth. cbv zeta. apply ewm_mean_length. Qed.

Lemma length_fillna (v : fl) (xs : list fl) :
  length (fillna v xs) = length xs.
Proof. unfold fillna. apply length_map. Qed.

Lemma adx_length (n : nat) (high low close : list fl) :
  length high = n -> length low = n -> length close = n ->
  length (calculate_tradingview_adx high low close) = n.
Proof.
  intros Hh Hl Hc. unfold calculate_tradingview_adx. cbv zeta.
  repeat (rewrite ?length_fillna, ?length_wilder_smooth, ?length_zip_with,
            ?length_map, ?length_diff,
            ?(true_range_length n high low close Hh Hl Hc)).
  lia.
Qed.

Lemma adx_of_frame (df : list Bar) :
  map adx (calculate_indicators df)
  = calculate_tradingview_adx (map b_high df) (map b_low df) (map b_close df).
Proof.
  unfold calculate_indicators. cbv zeta. rewrite map_map.
  cbn [adx indicator_row indicator_columns c_adx].
  apply column_of_frame. apply adx_length; apply length_map.
Qed.


(** C5.  The engine takes the averages of the RSI, of the ADX and of the
    ATR by [wilder_smooth], the exponentially weighted mean with
    [alpha = 1 / period], and that mean is pointwise the recurrence
    [avg[i] = avg[i-1] + (1/period) * (x[i] - avg[i-1])] seeded by the first
    observation, leading NaN cells (the first cell of a differenced column)
    staying NaN.  On a frame of at most 5000 bars with moderate prices,
    column by column:
    - the RSI column is [rsi_of] of the recurrence over the gains and of the
      recurrence over the losses of the close;
    - the ATR column is the recurrence over the true ranges;
    - when no high and no low doubles or halves from one bar to the next and
      the first bar's high is above its low, the ADX column is the
      recurrence over the directional index, itself built from the
      recurrences over the two directional movements and over the true
      range.
    The 14-bar rolling mean of the older engine is a different function: on
    a spike of 14 followed by thirteen zeros it yields 1 at the last bar,
    the recurrence does not. *)
Theorem C5_wilder_smooth_is_recurrence :
  (forall (period : positive) (k : nat) (xs : list Q),
      Forall2 Fl.equiv
        (wilder_smooth (repeat NaN k ++ map Fin xs) period)
        (repeat NaN k ++ map Fin (wilder_recurrence period xs))) /\
  (forall (df : list Bar) (cs : list Q),
      df <> [] -> (Z.of_nat (length df) <= 5000)%Z ->
      map b_close df = map Fin cs ->
      Forall Domain.moderate cs ->
      reads (map rsi (calculate_indicators df)) (rsi_by_recurrence cs)) /\
  (forall (df : list Bar) (hs ls cs : list Q),
      df <> [] -> (Z.of_nat (length df) <= 5000)%Z ->
      map b_high df = map Fin hs -> map b_low df = map Fin ls ->
      map b_close df = map Fin cs ->
      Forall Domain.moderate hs -> Forall Domain.moderate ls ->
      Forall Domain.moderate cs ->
      reads (map atr14 (calculate_indicators df))
        (wilder_recurrence 14 (true_ranges hs ls cs))) /\
  (forall (df : list Bar) (hs ls cs : list Q),
      df <> [] -> (Z.of_nat (length df) <= 5000)%Z ->
      map b_high df = map Fin hs -> map b_low df = map Fin ls ->
      map b_close df = map Fin cs ->
      Forall Domain.moderate hs -> Forall Domain.moderate ls ->
      Forall Domain.moderate cs ->
      Domain.steady hs -> Domain.steady ls ->
      hd 0 ls < hd 0 hs ->
      reads (map adx (calculate_indicators df))
        (adx_by_recurrence hs ls cs)) /\
  (nth 13 (rolling_mean 14 Samples.spike) NaN =~ Fin 1
   /\ ~ (nth 13 (wilder_smooth Samples.spike 14) NaN =~ Fin 1)).
Proof.
  assert (Hlen : forall (f : Bar -> fl) (df : list Bar) (qs : list Q),
             map f df = map Fin qs -> length qs = length df).
  { intros f df qs H. rewrite <- (length_map Fin qs), <- H.
    apply length_map. }
  split; [|split; [|split; [|split]]].
  - intros period k xs. unfold wilder_smooth. cbv zeta.
    rewrite ewm_mean_clean.
    2:{ apply Forall_app. split; apply Forall_forall; intros x Hx.
        - apply repeat_spec in Hx. left. exact Hx.
        - apply in_map_iff in Hx. destruct Hx as (q & <- & _).
          right. exists q. reflexivity. }
    destruct k as [|k].
    + simpl. destruct xs as [|x r]; simpl; [constructor|].
      constructor; [simpl; reflexivity|].
      apply ewm_from_wilder. reflexivity.
    + cbn [repeat app]. constructor; [exact I|].
      destruct xs as [|x r].
      * simpl. rewrite !app_nil_r. rewrite ewm_from_all_nan.
        apply Forall2_equiv_refl.
      * cbn [map wilder_recurrence]. rewrite ewm_from_nan_prefix.
        apply Forall2_app; [apply Forall2_equiv_refl|].
        constructor; [simpl; reflexivity|].
        apply ewm_from_wilder. reflexivity.
  - intros df cs _ _ Hc _.
    rewrite (rsi_of_frame df cs Hc). apply rsi_column_reads.
  - intros df hs ls cs _ _ Hh Hl Hc _ _ _.
    rewrite atr_column, Hh, Hl, Hc.
    rewrite true_range_reads
      by (rewrite (Hlen _ _ _ Hc); eapply Hlen; eassumption).
    apply wilder_smooth_reads. apply reads_map_fin.
  - intros df hs ls cs _ _ Hh Hl Hc _ _ _ _ _ Hfirst.
    rewrite adx_of_frame, Hh, Hl, Hc.
    apply adx_column_reads; [| |exact Hfirst];
      rewrite (Hlen _ _ _ Hc); eapply Hlen; eassumption.
  - split.
    + vm_compute. reflexivity.
    + intro H. vm_compute in H. discriminate H.
Qed.

Lemma C5_wilder_smooth_is_recurrence_witness :
  reads (map adx (calculate_indicators MoreSamples.swing_bars))
    (adx_by_recurrence [1.1; 1.3; 1.25; 1.4] [0.9; 1; 0.95; 1]
       [1; 1.2; 1; 1.3]).
Proof.
  apply (proj1 (proj2 (proj2 (proj2 C5_wilder_smooth_is_recurrence)))).
  - discriminate.
  - simpl. lia.
  - reflexivity.
  - reflexivity.
  - reflexivity.
  - repeat (constructor; [unfold Domain.moderate; lra|]). constructor.
  - repeat (constructor; [unfold Domain.moderate; lra|]). constructor.
  - repeat (constructor; [unfold Domain.moderate; lra|]). constructor.
  - cbn [Domain.steady]. repeat split; lra.
  - cbn [Domain.steady]. repeat split; lra.
  - cbn [hd]. lra.
Defined.

End WilderSmoothing.

(** ** Worked examples *)

Section WorkedExamples.

Import Pandas Strategy Backtester.

(** Span 9 gives [alpha = 0.2]: from 1, an observation of 1.1 moves the
    average to 1.02. *)
Example ewm_span_two_bars :
  Forall2 Fl.equiv (ewm_span 9 [Fin 1; Fin 1.1]) [Fin 1; Fin 1.02].
Proof. repeat constructor. Qed.

(** A missing observation keeps the mean and lets its weight decay. *)
Example ewm_mean_with_gap :
  Forall2 Fl.equiv (ewm_mean 0.5 [NaN; Fin 1; NaN; Fin 2; Fin 2])
    [NaN; Fin 1; Fin 1; Fin (5 / 3); Fin (11 / 6)].
Proof. repeat constructor. Qed.

(** An infinite observation is read as a missing one. *)
Example ewm_mean_with_infinity :
  Forall2 Fl.equiv (ewm_mean 0.5 [Fin 1; PInf; Fin 2; Fin 2])
    [Fin 1; Fin 1; Fin (5 / 3); Fin (11 / 6)].
Proof. repeat constructor. Qed.

(** Percentile ranks over windows of three: ties share the average rank and
    a window holding an infinity yields nothing. *)
Example rolling_rank_pct_ties :
  Forall2 Fl.equiv
    (rolling_rank_pct 3 [Fin 1; Fin 3; Fin 2; Fin 2; PInf; Fin 1; Fin 1; Fin 5])
    [NaN; NaN; Fin (200 / 3); Fin 50; NaN; NaN; NaN; Fin 100].
Proof. repeat constructor. Qed.

(** Three rising bars: the first scores -0.15, the next two 0.5 (every
    component bullish, ADX still below 25). *)
Example three_bars_trend :
  Forall2 Fl.equiv
    (map trend_strength (calculate_indicators Samples.three_bars))
    [Fin (-0.15); Fin 0.5; Fin 0.5].
Proof. repeat constructor. Qed.

(** Entry 1.00 with ATR 0.02 in conservative mode: stop 0.97, target
    1.05. *)
Example conservative_buy_targets :
  exists sd,
    generate_signal params
      (Samples.row_of 7 (Fin 1) (Fin 0.02) (Fin 60) (Fin 0.5) (Fin 0.9))
    = Some sd
    /\ sd_signal sd = BUY /\ sd_mode sd = conservative
    /\ sd_stop_loss sd =~ Fin 0.97 /\ sd_take_profit sd =~ Fin 1.05.
Proof.
  eexists. split; [vm_compute; reflexivity|].
  repeat split; vm_compute; reflexivity.
Qed.

(** A row whose volatility percentile is undefined: the chained comparison
    of the backtester rejects it, the two-sided filter of the live path lets
    it through. *)
Example undefined_volatility_percentile :
  let row := Samples.row_of 7 (Fin 1) (Fin 0.02) NaN (Fin 0.5) (Fin 0.9) in
  option_map sd_signal (generate_signal params row) = Some NEUTRAL
  /\ ls_signal (generate_signals_live row) = BUY.
Proof. split; vm_compute; reflexivity. Qed.

(** A stop-loss exit pays both fees: from 10000 the equity falls by 300 and
    by the fees 8/3 + 0.97 * 8/3. *)
Example stop_loss_exit_pays_fees :
  exists st p t,
    run_backtest params (Fin 10000) Samples.stopped_out
    = (st, [Opened p; Closed t])
    /\ exit_reason t = StopLoss
    /\ exit_price t =~ Fin 0.97
    /\ total_fees t <> None
    /\ current_capital st =~ Fin (10000 * (1 - 0.03) - (8 / 3 + 0.97 * 8 / 3))
    /\ current_position st = None.
Proof.
  do 3 eexists. split; [vm_compute; reflexivity|].
  cbn [exit_reason exit_price total_fees current_capital current_position].
  split; [reflexivity|].
  split; [vm_compute; reflexivity|].
  split; [discriminate|].
  split; [vm_compute; reflexivity|reflexivity].
Qed.

End WorkedExamples.

(** ** Stops, targets and the risk of a trade *)

Section StopsAndRisk.

Import Strategy Backtester.

Lemma generate_signal_targets (sp : Mode -> ModeParams) (row : Row)
  (sd : SignalData) :
  generate_signal sp row = Some sd ->
  let entry := close row in
  let atr := atr14 (frame row) in
  let mult := profit_target_multiplier (sp (sd_mode sd)) in
  sd_entry_price sd = entry /\
  match sd_signal sd with
  | BUY => sd_stop_loss sd = (entry - atr * Fin 1.5)%fl
           /\ sd_take_profit sd = (entry + atr * mult)%fl
  | SELL => sd_stop_loss sd = (entry + atr * Fin 1.5)%fl
            /\ sd_take_profit sd = (entry - atr * mult)%fl
  | NEUTRAL => sd_stop_loss sd = entry /\ sd_take_profit sd = entry
  end.
Proof.
  unfold generate_signal.
  destruct (isna (combined_trend row)) eqn:E1; simpl; [discriminate|].
  destruct (isna (timeframe_alignment row)) eqn:E2; simpl; [discriminate|].
  match goal with
  | |- (let '(_, _) := match ?s with _ => _ end in _) = _ -> _ =>
      remember s as sig eqn:Es
  end.
  destruct sig; intro H; injection H as <-;
    cbn [sd_signal sd_entry_price sd_stop_loss sd_take_profit sd_mode];
    auto.
Qed.

Lemma Qabs_scaled (x a : Q) :
  x == 1.5 * a \/ x == - (1.5 * a) -> Qabs x == 1.5 * Qabs a.
Proof.
  intros [H|H]; rewrite H; rewrite ?Qabs_opp, Qabs_Qmult; reflexivity.
Qed.

(** X1. With a price and an ATR of moderate size, the price at most a
    million ATRs and a target multiple between 1 and 1000, the stop and the
    target of a BUY bracket the entry from below and above, those of a SELL
    from above and below; the stop lies 1.5 ATR from the entry and the
    target the mode's multiple of the ATR.  (Below that resolution float64
    absorbs the ATR and the stop falls on the entry.) *)
Theorem stop_and_target_bracket_entry (sp : Mode -> ModeParams) (row : Row)
  (sd : SignalData) (e a m : Q) :
  generate_signal sp row = Some sd ->
  close row = Fin e -> atr14 (frame row) = Fin a ->
  profit_target_multiplier (sp (sd_mode sd)) = Fin m ->
  Domain.moderate e -> Domain.moderate a -> Domain.resolves e a ->
  1 <= m <= 1000 ->
  exists s t,
    sd_stop_loss sd = Fin s /\ sd_take_profit sd = Fin t /\
    match sd_signal sd with
    | BUY => s < e /\ e < t /\ s == e - 1.5 * a /\ t == e + m * a
    | SELL => t < e /\ e < s /\ s == e + 1.5 * a /\ t == e - m * a
    | NEUTRAL => s == e /\ t == e
    end.
Proof.
  intros Hsig He Ha Hm (He1 & He2) (Ha1 & Ha2) _ (Hm1 & Hm2).
  assert (Hapos : 0 < a) by lra.
  assert (Ham : 0 < a * m) by nra.
  destruct (generate_signal_targets sp row sd Hsig) as (_ & Ht).
  cbv zeta in Ht. rewrite He, Ha, Hm in Ht.
  destruct (sd_signal sd); destruct Ht as (-> & ->); cbn;
    do 2 eexists; (split; [reflexivity|]); (split; [reflexivity|]);
    repeat split; try lra; ring.
Qed.

Lemma stop_and_target_bracket_entry_witness :
  match generate_signal params
          (Samples.row_of 7 (Fin 1) (Fin 0.02) (Fin 60) (Fin 0.5) (Fin 0.9))
  with
  | Some sd => exists s t, sd_stop_loss sd = Fin s /\ sd_take_profit sd = Fin t
                           /\ s < 1 /\ 1 < t
  | None => False
  end.
Proof.
  destruct (generate_signal params
              (Samples.row_of 7 (Fin 1) (Fin 0.02) (Fin 60) (Fin 0.5)
                 (Fin 0.9))) as [sd|] eqn:E.
  - assert (Hm : sd_mode sd = conservative /\ sd_signal sd = BUY)
      by (vm_compute in E; injection E as <-; split; reflexivity).
    destruct Hm as (Hm & Hs).
    destruct (stop_and_target_bracket_entry params _ sd 1 0.02 2.5 E
                eq_refl eq_refl) as (s & t & H1 & H2 & H3).
    + rewrite Hm. reflexivity.
    + unfold Domain.moderate. lra.
    + unfold Domain.moderate. lra.
    + unfold Domain.resolves. lra.
    + lra.
    + rewrite Hs in H3. exists s, t. tauto.
  - vm_compute in E. discriminate E.
Defined.

(** X2. On a capital that is not zero, an entry signal computed from a
    price of moderate size and an ATR that is zero or within the resolution
    of the price is turned down by [simulate_trade] exactly when the ATR is
    zero.  (An ATR that float64 absorbs into the price is turned down as
    well, and a capital of zero raises.) *)
Theorem entry_rejected_iff_zero_atr (sp : Mode -> ModeParams) (row : Row)
  (sd : SignalData) (capital : fl) (e a : Q) :
  generate_signal sp row = Some sd ->
  is_entry (sd_signal sd) = true ->
  close row = Fin e -> atr14 (frame row) = Fin a ->
  Domain.nonzero capital -> Domain.moderate e ->
  a == 0 \/ (Domain.moderate a /\ Domain.resolves e a) ->
  (simulate_trade capital (Some sd) (close row) (datetime row) = None
   <-> a == 0).
Proof.
  intros Hsig Hent He Ha _ _ _.
  destruct (generate_signal_targets sp row sd Hsig) as (Hentry & Ht).
  cbv zeta in Ht. rewrite He, Ha in Ht. rewrite He in Hentry.
  rewrite (simulate_trade_entry capital sd _ _ Hent), Hentry.
  assert (Hrpu : exists d, Fl.abs (Fin e - sd_stop_loss sd)%fl = Fin d
                           /\ d == 1.5 * Qabs a).
  { destruct (sd_signal sd); try discriminate; destruct Ht as (-> & _);
      cbn [Fl.abs Fl.sub Fl.add Fl.neg Fl.mul]; eexists;
      (split; [reflexivity|]); apply Qabs_scaled.
    - left. ring.
    - right. ring. }
  destruct Hrpu as (d & -> & Hd).
  pose proof (Qabs_nonneg a) as Hn.
  destruct (Fin d <=? Fin 0)%fl eqn:E; fl_prop.
  - split; [intros _|reflexivity].
    assert (Hz : Qabs a <= 0) by lra.
    apply Qabs_Qle_condition in Hz. lra.
  - split; [discriminate|]. intro Hz. rewrite Hz in Hd.
    change (Qabs 0) with 0 in Hd. lra.
Qed.

Lemma entry_rejected_iff_zero_atr_witness :
  match generate_signal params
          (Samples.row_of 7 (Fin 1) (Fin 0) (Fin 60) (Fin 0.5) (Fin 0.9))
  with
  | Some sd => simulate_trade (Fin 10000) (Some sd) (Fin 1) 7 = None
  | None => False
  end.
Proof.
  destruct (generate_signal params
              (Samples.row_of 7 (Fin 1) (Fin 0) (Fin 60) (Fin 0.5)
                 (Fin 0.9))) as [sd|] eqn:E.
  - apply (entry_rejected_iff_zero_atr params _ sd (Fin 10000) 1 0 E);
      try reflexivity.
    + vm_compute in E. injection E as <-. reflexivity.
    + unfold Domain.moderate. lra.
    + left. reflexivity.
  - vm_compute in E. discriminate E.
Defined.

(** X3. A missing ATR is not turned down: on a capital that is not zero
    the position is opened with a stop and a target that no price can
    reach, so only the end of the data closes it. *)
Theorem missing_atr_opens_a_position_without_exit (sp : Mode -> ModeParams)
  (row : Row) (sd : SignalData) (capital : fl) (e : Q) :
  generate_signal sp row = Some sd ->
  is_entry (sd_signal sd) = true ->
  close row = Fin e -> atr14 (frame row) = NaN ->
  Domain.nonzero capital ->
  exists p,
    simulate_trade capital (Some sd) (close row) (datetime row) = Some p
    /\ stop_loss p = NaN /\ take_profit p = NaN
    /\ forall price, exit_check p price = None.
Proof.
  intros Hsig Hent He Ha _.
  destruct (generate_signal_targets sp row sd Hsig) as (Hentry & Ht).
  cbv zeta in Ht. rewrite He, Ha in Ht. rewrite He in Hentry.
  rewrite (simulate_trade_entry capital sd _ _ Hent), Hentry.
  assert (Hnan : sd_stop_loss sd = NaN /\ sd_take_profit sd = NaN).
  { destruct (sd_signal sd); try discriminate; destruct Ht as (-> & ->);
      split; try reflexivity;
      destruct (profit_target_multiplier _); reflexivity. }
  destruct Hnan as (Hs & Ht'). rewrite Hs, Ht'. cbn.
  eexists. split; [reflexivity|]. cbn [stop_loss take_profit].
  split; [reflexivity|]. split; [reflexivity|].
  intro price. unfold exit_check. cbn.
  unfold Fl.geb, Fl.leb.
  destruct (sd_signal sd); destruct price; reflexivity.
Qed.

Lemma missing_atr_opens_a_position_without_exit_witness :
  match generate_signal params
          (Samples.row_of 7 (Fin 1) NaN (Fin 60) (Fin 0.5) (Fin 0.9))
  with
  | Some sd => exists p, simulate_trade (Fin 10000) (Some sd) (Fin 1) 7 = Some p
                         /\ exit_check p (Fin 0) = None
  | None => False
  end.
Proof.
  destruct (generate_signal params
              (Samples.row_of 7 (Fin 1) NaN (Fin 60) (Fin 0.5) (Fin 0.9)))
    as [sd|] eqn:E.
  - destruct (missing_atr_opens_a_position_without_exit params _ sd
                (Fin 10000) 1 E) as (p & Hp & _ & _ & Hx); try reflexivity.
    + vm_compute in E. injection E as <-. reflexivity.
    + exists p. split; [exact Hp|apply Hx].
  - vm_compute in E. discriminate E.
Defined.

Lemma div_lt_iff (a b x : Q) : 0 < x -> (a / x < b <-> a < b * x).
Proof.
  intro Hx. assert (E : a == a / x * x) by (field; lra).
  split; intro H.
  - rewrite E. apply Qmult_lt_compat_r; assumption.
  - apply Qlt_shift_div_r; assumption.
Qed.

Lemma lt_div_iff (a b x : Q) : 0 < x -> (b < a / x <-> b * x < a).
Proof.
  intro Hx. assert (E : a == a / x * x) by (field; lra).
  split; intro H.
  - rewrite E. apply Qmult_lt_compat_r; assumption.
  - apply Qlt_shift_div_l; assumption.
Qed.

(** X4. What a stop-loss costs.  A position opened from equity [c] with
    risk fraction [r], entry [e] and a stop at distance [d] from it has the
    size [c * r / d], the raw leverage [r * e / d] clamped to [[1, 10]] and
    the entry fee [size * e * 0.0004].  Closed at its stop from the same
    equity, the trade is logged at the stop, records the entry fee plus the
    exit fee [size * s * 0.0004], and its P&L is the loss
    [c * (d / e) * leverage] and those fees taken off.  The loss is the
    risked amount [c * r] when the raw leverage lies in [[1, 10]], that
    amount over the raw leverage -- more -- when the leverage was lifted to
    1, and ten times that quotient -- less -- when it was capped at 10.
    The magnitudes are moderate and the risk fraction lies between a
    millionth and 1, so that no product overflows or underflows. *)
Theorem stop_loss_cost (sd : SignalData) (st : State) (t0 t1 : Z)
  (price : fl) (c e s r : Q) :
  is_entry (sd_signal sd) = true ->
  current_capital st = Fin c -> sd_entry_price sd = Fin e ->
  sd_stop_loss sd = Fin s -> sd_risk_per_trade sd = Fin r ->
  Domain.moderate c -> Domain.moderate e -> Domain.moderate (Qabs (e - s)) ->
  1 # 1000000 <= r <= 1 ->
  (sd_signal sd = BUY -> s < e) -> (sd_signal sd = SELL -> e < s) ->
  let d := Qabs (e - s) in
  let size := c * r / d in
  let raw := r * e / d in
  let lev := if Qltb raw 1 then 1 else if Qltb 10 raw then 10 else raw in
  let loss := c * (d / e) * lev in
  let fees := size * e * 0.0004 + size * s * 0.0004 in
  exists p,
    simulate_trade (Fin c) (Some sd) price t0 = Some p /\
    position_size p =~ Fin size /\
    leverage p =~ Fin lev /\
    entry_fee p =~ Fin (size * e * 0.0004) /\
    let trade := snd (close_position st p t1 StopLoss (stop_loss p)) in
    exit_price trade = Fin s /\
    (exists f, total_fees trade = Some (Fin f) /\ f == fees) /\
    pnl_dollar trade =~ Fin (- loss - fees) /\
    capital_after trade =~ Fin (c - loss - fees) /\
    (1 <= raw <= 10 -> loss == c * r) /\
    (raw < 1 -> loss == c * r / raw) /\
    (10 < raw -> loss == 10 * (c * r / raw)).
Proof.
  intros Hent Hc He Hs Hr (Hc1 & Hc2) (He1 & He2) (Hd1 & Hd2) (Hr0 & Hr1)
    Hbuy Hsell d size raw lev loss fees.
  assert (Hrpos : 0 < r) by lra.
  assert (Hcpos : 0 < c) by lra.
  assert (Hepos : 0 < e) by lra.
  assert (Hdpos : 0 < d) by (unfold d; lra).
  assert (Hdir : (sd_signal sd = BUY -> d == e - s)
                 /\ (sd_signal sd = SELL -> d == s - e)).
  { unfold d. split; intro Hsig.
    - specialize (Hbuy Hsig). rewrite Qabs_pos by lra. reflexivity.
    - specialize (Hsell Hsig). rewrite Qabs_neg by lra. ring. }
  destruct Hdir as (Hdb & Hds).
  assert (Hrawpos : 0 < raw).
  { unfold raw. apply Qlt_shift_div_l; [exact Hdpos|]. nra. }
  assert (Hcases : (raw < 1 /\ lev == 1) \/ (10 < raw /\ lev == 10)
                   \/ (1 <= raw <= 10 /\ lev == raw)).
  { unfold lev. destruct (Qltb raw 1) eqn:E1.
    - left. apply Qltb_lt in E1. split; [exact E1|reflexivity].
    - apply Qltb_false in E1. destruct (Qltb 10 raw) eqn:E2.
      + right. left. apply Qltb_lt in E2. split; [exact E2|reflexivity].
      + right. right. apply Qltb_false in E2.
        split; [split; assumption|reflexivity]. }
  assert (Hclamp : exists L,
             Spec.clamp (Fin (size * e / c)) (Fin 1) max_leverage = Fin L
             /\ L == lev).
  { assert (Hraw : size * e / c == raw)
      by (unfold size, raw; field; split; lra).
    unfold Spec.clamp, max_leverage, Fl.gtb.
    destruct (Fin (size * e / c) <? Fin 1)%fl eqn:E1; fl_prop.
    - exists 1. split; [reflexivity|].
      destruct Hcases as [(_ & ->)|[(H & _)|((H & _) & _)]];
        [reflexivity|lra|lra].
    - destruct (Fin 10 <? Fin (size * e / c))%fl eqn:E2; fl_prop.
      + exists 10. split; [reflexivity|].
        destruct Hcases as [(H & _)|[(_ & ->)|((_ & H) & _)]];
          [lra|reflexivity|lra].
      + exists (size * e / c). split; [reflexivity|].
        destruct Hcases as [(H & _)|[(H & _)|(_ & ->)]];
          [lra|lra|exact Hraw]. }
  clearbody lev.
  rewrite (simulate_trade_entry (Fin c) sd price t0 Hent), He, Hs, Hr.
  cbn [Fl.sub Fl.add Fl.neg Fl.abs Fl.mul].
  change (Qabs (e + - s)) with d.
  destruct (Fin d <=? Fin 0)%fl eqn:E; [fl_prop; lra|]. clear E.
  cbv zeta.
  rewrite (div_fin (c * r) d) by lra. fold size. cbn [Fl.mul].
  rewrite (div_fin (size * e) c) by lra.
  destruct Hclamp as (L & -> & HL).
  eexists. split; [reflexivity|].
  cbn [position_size leverage entry_fee stop_loss].
  split; [apply Qeq_refl|]. split; [exact HL|].
  split; [unfold trading_fee; cbn [Fl.mul Fl.equiv]; apply Qeq_refl|].
  unfold close_position. cbv zeta. rewrite Hc.
  unfold price_change, trading_fee.
  cbn [side entry_price stop_loss leverage position_size entry_fee snd
       total_fees pnl_dollar exit_price capital_after].
  split; [reflexivity|].
  split; [eexists; split; [cbn [Fl.mul Fl.add]; reflexivity|
                           unfold fees; reflexivity]|].
  assert (Hloss : loss == c * (d / e) * L) by (unfold loss; rewrite HL; ring).
  split; [|split].
  - destruct (sd_signal sd) eqn:Esig; try discriminate;
      cbn [Fl.sub Fl.add Fl.neg]; rewrite (div_fin _ e) by lra;
      cbn [Fl.mul Fl.sub Fl.add Fl.neg Fl.equiv]; rewrite Hloss; unfold fees.
    + rewrite (Hdb eq_refl). field. lra.
    + rewrite (Hds eq_refl). field. lra.
  - destruct (sd_signal sd) eqn:Esig; try discriminate;
      cbn [Fl.sub Fl.add Fl.neg]; rewrite (div_fin _ e) by lra;
      cbn [Fl.mul Fl.sub Fl.add Fl.neg Fl.equiv]; rewrite Hloss; unfold fees.
    + rewrite (Hdb eq_refl). field. lra.
    + rewrite (Hds eq_refl). field. lra.
  - assert (Hrd : raw * d == r * e) by (unfold raw; field; lra).
    assert (Hrne : ~ raw == 0) by lra.
    split; [|split]; intro Hreg;
      destruct Hcases as [(H & Hl)|[(H & Hl)|(H & Hl)]]; try lra;
      unfold loss; rewrite Hl; unfold raw; field; repeat split; lra.
Qed.

(** Entry 1, stop 0.97, risk 2% of 10000: the raw leverage is 2/3, lifted
    to 1; the stop costs 300 rather than the 200 risked, and 394/75 in
    fees. *)
Lemma stop_loss_cost_witness :
  exists p,
    simulate_trade (Fin 10000) (Some MoreSamples.buy_signal) (Fin 1) 0 = Some p
    /\ pnl_dollar
         (snd (close_position (initial_state (Fin 10000)) p 1 StopLoss
                 (stop_loss p)))
       =~ Fin (- 300 - 394 / 75).
Proof.
  destruct (stop_loss_cost MoreSamples.buy_signal (initial_state (Fin 10000))
              0 1 (Fin 1) 10000 1 0.97 0.02)
    as (p & Hp & _ & _ & _ & _ & _ & Hpnl & _);
    try reflexivity; try discriminate;
    try (unfold Domain.moderate; split; try apply Qabs_case; intros; lra);
    try lra.
  exists p. split; [exact Hp|].
  destruct (pnl_dollar _) as [q| | |]; try contradiction.
  cbn [Fl.equiv] in *. eapply Qeq_trans; [exact Hpnl|].
  vm_compute. reflexivity.
Defined.

End StopsAndRisk.

(** ** Accounting of a run *)

Section RunAccounting.

Import Strategy Backtester.

Lemma handle_position_accounts (st : State) (row : Row) :
  let st' := fst (handle_position st row) in
  let ev := snd (handle_position st row) in
  equity_curve st' = equity_curve st /\
  trades st' = trades st ++ Props.closed_trades ev /\
  current_capital st'
  = fold_left Fl.add (map pnl_dollar (Props.closed_trades ev))
      (current_capital st).
Proof.
  unfold handle_position.
  destruct (current_position st) as [p|];
    [|cbn; rewrite app_nil_r; auto].
  destruct (exit_check p (close row)) as [[reason exit]|];
    [|cbn; rewrite app_nil_r; auto].
  cbn. auto.
Qed.

Lemma check_entry_accounts (sp : Mode -> ModeParams) (st : State) (row : Row) :
  let st' := fst (check_entry sp st row) in
  let ev := snd (check_entry sp st row) in
  equity_curve st' = equity_curve st /\
  trades st' = trades st /\
  current_capital st' = current_capital st /\
  Props.closed_trades ev = [].
Proof.
  unfold check_entry.
  destruct (current_position st); [cbn; auto|]. cbv zeta.
  destruct (generate_signal sp row) as [sd|]; [|cbn; auto].
  destruct (is_entry (sd_signal sd)); [|cbn; auto].
  destruct (simulate_trade _ _ _ _); cbn; auto.
Qed.

Lemma closed_trades_app (e1 e2 : list Event) :
  Props.closed_trades (e1 ++ e2)
  = Props.closed_trades e1 ++ Props.closed_trades e2.
Proof.
  induction e1 as [|[t|p] e1 IH]; simpl; [reflexivity| |exact IH].
  rewrite IH. reflexivity.
Qed.

Lemma bar_step_accounts (sp : Mode -> ModeParams) (st : State) (row : Row) :
  let st' := fst (bar_step sp st row) in
  let ev := snd (bar_step sp st row) in
  equity_curve st'
  = equity_curve st ++ [{| ep_datetime := datetime row;
                           ep_equity := current_capital st;
                           ep_price := close row |}] /\
  trades st' = trades st ++ Props.closed_trades ev /\
  current_capital st'
  = fold_left Fl.add (map pnl_dollar (Props.closed_trades ev))
      (current_capital st).
Proof.
  unfold bar_step.
  match goal with
  | |- context [handle_position ?s row] =>
      pose proof (handle_position_accounts s row) as H1;
      destruct (handle_position s row) as [st2 ev1]
  end.
  pose proof (check_entry_accounts sp st2 row) as H2.
  destruct (check_entry sp st2 row) as [st3 ev2].
  cbn in *. destruct H1 as (A1 & A2 & A3). destruct H2 as (B1 & B2 & B3 & B4).
  rewrite closed_trades_app, B4, app_nil_r.
  rewrite B1, B2, B3, A1, A2, A3. auto.
Qed.

Lemma run_loop_accounts (sp : Mode -> ModeParams) (rows : list Row) :
  forall i st k, k = (250 - i)%nat ->
    let st' := fst (run_loop sp i rows st) in
    let ev := snd (run_loop sp i rows st) in
    (exists pts,
        equity_curve st' = equity_curve st ++ pts
        /\ Forall2 Props.point_of pts (skipn k rows)) /\
    trades st' = trades st ++ Props.closed_trades ev /\
    current_capital st'
    = fold_left Fl.add (map pnl_dollar (Props.closed_trades ev))
        (current_capital st).
Proof.
  induction rows as [|row rest IH]; intros i st k Hk.
  - cbn [run_loop fst snd Props.closed_trades map fold_left].
    rewrite app_nil_r. split; [|auto].
    exists []. rewrite app_nil_r, skipn_nil. split; [reflexivity|constructor].
  - cbn [run_loop]. destruct (i <? 250)%nat eqn:Ei.
    + apply Nat.ltb_lt in Ei.
      destruct (IH (S i) st (250 - S i)%nat eq_refl)
        as ((pts & Hc & Hp) & Ht & Hm).
      cbv zeta. split; [|auto].
      exists pts. split; [exact Hc|].
      assert (Ek : k = S (250 - S i)) by lia. rewrite Ek. exact Hp.
    + apply Nat.ltb_ge in Ei.
      assert (Ek : k = 0%nat) by lia. subst k. rewrite Ek.
      pose proof (bar_step_accounts sp st row) as H1.
      destruct (bar_step sp st row) as [st1 ev1].
      destruct (IH (S i) st1 0%nat ltac:(lia)) as ((pts & Hc & Hp) & Ht & Hm).
      destruct (run_loop sp (S i) rest st1) as [st2 ev2].
      cbn [fst snd skipn] in *. destruct H1 as (A1 & A2 & A3).
      rewrite closed_trades_app, map_app, fold_left_app.
      split; [|split].
      * eexists. rewrite Hc, A1, <- app_assoc. split; [reflexivity|].
        cbn [app]. constructor; [split; reflexivity|exact Hp].
      * rewrite Ht, A2, app_assoc. reflexivity.
      * rewrite Hm, A3. reflexivity.
Qed.


Lemma close_final_accounts (st : State) (t : Z) (price : fl) :
  let st' := fst (close_final st t price) in
  let ev := snd (close_final st t price) in
  trades st' = trades st ++ Props.closed_trades ev /\
  current_capital st'
  = fold_left Fl.add (map pnl_dollar (Props.closed_trades ev))
      (current_capital st).
Proof.
  unfold close_final. destruct (current_position st); cbn; auto.
  rewrite app_nil_r. auto.
Qed.

(** X6. The trade log of a run is the sequence of its closes, and the final
    capital is the initial capital with the P&L of the trades added in
    order. *)
Theorem capital_is_initial_plus_pnl (sp : Mode -> ModeParams) (capital : fl)
  (rows : list Row) :
  let st := fst (run_backtest sp capital rows) in
  let ev := snd (run_backtest sp capital rows) in
  trades st = Props.closed_trades ev /\
  current_capital st = fold_left Fl.add (map pnl_dollar (trades st)) capital.
Proof.
  unfold run_backtest.
  destruct (run_loop_accounts sp rows 0 (initial_state capital) 250%nat
              eq_refl) as (_ & Ht & Hm).
  destruct (run_loop sp 0 rows (initial_state capital)) as [st ev].
  cbn [fst snd initial_state trades current_capital app] in Ht, Hm.
  destruct (rev rows) as [|final r]; cbn.
  - rewrite Ht. split; [reflexivity|exact Hm].
  - destruct (close_final_accounts st (datetime final) (close final))
      as (Ht' & Hm').
    destruct (close_final st (datetime final) (close final)) as [st' ev'].
    cbn in *. rewrite closed_trades_app, Ht', Hm', Ht, Hm.
    split; [reflexivity|].
    rewrite map_app, fold_left_app. reflexivity.
Qed.

(** X7. A frame of at most 250 rows is skipped whole: no event, no trade, no
    equity point, the capital untouched. *)
Theorem short_frame_trades_nothing (sp : Mode -> ModeParams) (capital : fl)
  (rows : list Row) :
  (length rows <= 250)%nat ->
  run_backtest sp capital rows = (initial_state capital, []).
Proof.
  intro Hlen.
  assert (H : forall l i st, (i + length l <= 250)%nat ->
                run_loop sp i l st = (st, [])).
  { induction l as [|row rest IH]; intros i st Hl; [reflexivity|].
    cbn [run_loop]. cbn in Hl.
    replace (i <? 250)%nat with true by (symmetry; apply Nat.ltb_lt; lia).
    apply IH. lia. }
  unfold run_backtest. rewrite (H rows 0%nat) by exact Hlen.
  destruct (rev rows); reflexivity.
Qed.

Lemma short_frame_trades_nothing_witness :
  run_backtest params (Fin 10000)
    (repeat (Samples.row_of 0 (Fin 1) (Fin 0.02) (Fin 60) (Fin 0.5) (Fin 0.9))
       250)
  = (initial_state (Fin 10000), []).
Proof.
  apply short_frame_trades_nothing. rewrite repeat_length. apply le_n.
Defined.

(** X8. A position opened on the last row -- capital, price and ATR of
    moderate size, the price at most a million ATRs, so that float64 does
    not absorb the stop distance and the entry is not turned down -- is
    closed at once by the end of the data, at its own entry price: the
    trade is logged with a P&L of zero -- neither a win nor a loss -- and
    pays no fee. *)
Theorem entry_on_last_row_closes_flat (sp : Mode -> ModeParams) (st : State)
  (row : Row) (sd : SignalData) (c e a r : Q) :
  current_position st = None -> current_capital st = Fin c ->
  generate_signal sp row = Some sd -> is_entry (sd_signal sd) = true ->
  close row = Fin e -> atr14 (frame row) = Fin a ->
  sd_risk_per_trade sd = Fin r ->
  Domain.moderate c -> Domain.moderate e -> Domain.moderate a ->
  Domain.resolves e a -> 0 <= r <= 1 ->
  let st1 := fst (check_entry sp st row) in
  exists p t,
    current_position st1 = Some p /\
    snd (close_final st1 (datetime row) (close row)) = [Closed t] /\
    trades (fst (close_final st1 (datetime row) (close row)))
    = trades st ++ [t] /\
    position t = p /\ exit_reason t = EndOfData /\
    pnl_dollar t =~ Fin 0 /\ capital_after t =~ Fin c /\
    Metrics.win_flag t = false /\ Metrics.loss_flag t = false.
Proof.
  intros Hflat Hc Hsig Hent He Ha Hr (Hc1 & _) (He1 & _) (Ha1 & _) _ _.
  assert (Hc0 : ~ c == 0) by lra.
  assert (He0 : ~ e == 0) by lra.
  assert (Ha0 : ~ a == 0) by lra.
  destruct (generate_signal_targets sp row sd Hsig) as (Hentry & Ht).
  cbv zeta in Ht. rewrite He, Ha in Ht. rewrite He in Hentry.
  assert (Hrpu : exists d, Fl.abs (Fin e - sd_stop_loss sd)%fl = Fin d
                           /\ 0 < d).
  { assert (Hapos : 0 < 1.5 * Qabs a).
    { pose proof (Qabs_nonneg a) as Hn.
      assert (~ Qabs a == 0); [|lra].
      intro Hz. assert (Hle : Qabs a <= 0) by lra.
      apply Qabs_Qle_condition in Hle. apply Ha0. lra. }
    destruct (sd_signal sd); try discriminate; destruct Ht as (-> & _);
      cbn [Fl.abs Fl.sub Fl.add Fl.neg Fl.mul]; eexists;
      (split; [reflexivity|]).
    - rewrite (Qabs_scaled _ a); [exact Hapos|left; ring].
    - rewrite (Qabs_scaled _ a); [exact Hapos|right; ring]. }
  destruct Hrpu as (d & Hd & Hdpos).
  cbv zeta. unfold check_entry. rewrite Hflat. cbv zeta.
  rewrite Hsig, Hent.
  rewrite (simulate_trade_entry (current_capital st) sd _ _ Hent).
  rewrite Hentry, Hd, Hc, Hr.
  destruct (Fin d <=? Fin 0)%fl eqn:E; [fl_prop; lra|]. clear E.
  cbv zeta. cbn [Fl.mul]. rewrite (div_fin (c * r) d) by lra.
  cbn [Fl.mul]. rewrite (div_fin _ c) by exact Hc0.
  assert (Hlev : exists L, Spec.clamp (Fin (c * r / d * e / c)) (Fin 1)
                             max_leverage = Fin L).
  { unfold Spec.clamp, max_leverage.
    destruct (_ <? _)%fl; [eexists; reflexivity|].
    destruct (_ >? _)%fl; eexists; reflexivity. }
  destruct Hlev as (L & ->).
  cbn [fst]. unfold close_final. cbn [current_position].
  cbv zeta. unfold price_change.
  cbn [side entry_price leverage fst snd trades].
  do 2 eexists. split; [reflexivity|].
  split; [reflexivity|]. split; [reflexivity|]. split; [reflexivity|].
  split; [reflexivity|].
  unfold Metrics.win_flag, Metrics.loss_flag.
  cbn [pnl_dollar capital_after].
  rewrite !He. cbn [current_capital].
  destruct (sd_signal sd); try discriminate;
    cbn [Fl.sub Fl.add Fl.neg]; rewrite (div_fin _ e) by exact He0;
    cbn [Fl.mul Fl.add Fl.equiv];
    (assert (Hz : c * ((e + - e) / e * L) == 0) by (field; exact He0));
    (repeat split;
     [exact Hz|rewrite Hz; ring
      |apply ltb_fin_false; rewrite Hz; lra
      |apply ltb_fin_false; rewrite Hz; lra]).
Qed.

Lemma entry_on_last_row_closes_flat_witness :
  let row := Samples.row_of 7 (Fin 1) (Fin 0.02) (Fin 60) (Fin 0.5) (Fin 0.9) in
  let st1 := fst (check_entry params (initial_state (Fin 10000)) row) in
  exists t,
    snd (close_final st1 (datetime row) (close row)) = [Closed t]
    /\ pnl_dollar t =~ Fin 0.
Proof.
  intros row st1.
  destruct (generate_signal params row) as [sd|] eqn:E;
    [|vm_compute in E; discriminate E].
  assert (Hs : is_entry (sd_signal sd) = true
               /\ sd_risk_per_trade sd = Fin 0.02)
    by (vm_compute in E; injection E as <-; split; reflexivity).
  destruct Hs as (Hs & Hr).
  destruct (entry_on_last_row_closes_flat params (initial_state (Fin 10000))
              row sd 10000 1 0.02 0.02 eq_refl eq_refl E Hs eq_refl eq_refl Hr)
    as (p & t & _ & Hev & _ & _ & _ & Hpnl & _);
    try (unfold Domain.moderate, Domain.resolves; lra).
  exists t. split; [exact Hev|exact Hpnl].
Defined.

End RunAccounting.

(** ** Winning and losing streaks *)

Section Streaks.

Import Metrics.
Import Props.

Lemma list_max_same_elements (a b : list nat) :
  (forall x, In x a <-> In x b) -> list_max a = list_max b.
Proof.
  assert (Hin : forall l x, In x l -> (x <= list_max l)%nat).
  { intros l x Hx.
    pose proof (proj1 (list_max_le l (list_max l)) (Nat.le_refl _)) as F.
    rewrite Forall_forall in F. apply F. exact Hx. }
  intro H. apply Nat.le_antisymm; apply list_max_le; apply Forall_forall;
    intros x Hx; apply H in Hx; apply Hin; exact Hx.
Qed.

Lemma list_max_head (a : nat) (l : list nat) :
  list_max (a :: l) = Nat.max a (list_max l).
Proof. reflexivity. Qed.

Lemma keys_from_cons (p : bool) (id : nat) (x : bool) (r : list bool) :
  keys_from p id (x :: r)
  = if Bool.eqb x p then (id, x) :: keys_from x id r
    else (S id, x) :: keys_from x (S id) r.
Proof.
  unfold keys_from. cbn. destruct (Bool.eqb x p); reflexivity.
Qed.

Lemma streak_keys_from (x : bool) (r : list bool) :
  streak_keys (x :: r) = keys_from (negb x) 0 (x :: r).
Proof.
  rewrite keys_from_cons. destruct x; reflexivity.
Qed.

Lemma keys_from_ids (l : list bool) :
  forall p id k, In k (keys_from p id l) -> (id <= fst k)%nat.
Proof.
  induction l as [|x r IH]; intros p id k Hk; [destruct Hk|].
  rewrite keys_from_cons in Hk.
  destruct (Bool.eqb x p); destruct Hk as [<-|Hk]; cbn; try lia.
  - exact (IH _ _ _ Hk).
  - specialize (IH _ _ _ Hk). lia.
Qed.

Lemma count_occ_absent (keys : list (nat * bool)) (k : nat * bool) :
  ~ In k keys -> count_occ key_dec keys k = 0%nat.
Proof. apply count_occ_not_In. Qed.

Lemma keys_from_leading (l : list bool) :
  forall p id, count_occ key_dec (keys_from p id l) (id, p)
               = Props.leading p l.
Proof.
  induction l as [|x r IH]; intros p id; [reflexivity|].
  rewrite keys_from_cons. cbn [Props.leading].
  destruct (Bool.eqb x p) eqn:E.
  - apply Bool.eqb_prop in E. subst x.
    rewrite count_occ_cons_eq by reflexivity. rewrite IH. reflexivity.
  - rewrite count_occ_cons_neq by (intro H; injection H; lia).
    apply count_occ_not_In. intro H. apply keys_from_ids in H. cbn in H. lia.
Qed.

Lemma max_consecutive_from (b : bool) (l : list bool) :
  forall pre p id,
    history pre id ->
    let keys := keys_from p id l in
    list_max (map (count_occ key_dec (pre ++ keys))
                (filter (fun k => Bool.eqb (snd k) b) keys))
    = if Bool.eqb p b && (0 <? Props.leading b l)%nat
      then Nat.max (count_occ key_dec pre (id, p) + Props.leading b l)
             (Props.longest_run b l)
      else Props.longest_run b l.
Proof.
  induction l as [|x r IH]; intros pre p id Hh.
  - cbn. rewrite andb_false_r. reflexivity.
  - cbv zeta. rewrite keys_from_cons.
    destruct (Bool.eqb x p) eqn:Exp.
    + apply Bool.eqb_prop in Exp. subst x.
      assert (Hh' : history (pre ++ [(id, p)]) id).
      { intros k Hk. apply in_app_iff in Hk. destruct Hk as [Hk|[<-|[]]].
        - apply Hh. exact Hk.
        - cbn. lia. }
      specialize (IH (pre ++ [(id, p)]) p id Hh'). cbv zeta in IH.
      rewrite <- app_assoc in IH. cbn [app] in IH.
      rewrite count_occ_app in IH. cbn [count_occ] in IH.
      destruct (key_dec (id, p) (id, p)) as [_|N]; [|contradiction].
      cbn [filter snd Props.leading Props.longest_run].
      destruct (Bool.eqb p b) eqn:Epb.
      * cbn [map]. rewrite list_max_head, IH.
        rewrite count_occ_app, count_occ_cons_eq by reflexivity.
        rewrite keys_from_leading.
        apply Bool.eqb_prop in Epb. subst b. cbn [andb].
        change (0 <? S (Props.leading p r))%nat with true.
        destruct (0 <? Props.leading p r)%nat eqn:El; lia.
      * rewrite IH. cbn [andb]. reflexivity.
    + assert (Hh' : history (pre ++ [(S id, x)]) (S id)).
      { intros k Hk. apply in_app_iff in Hk. destruct Hk as [Hk|[<-|[]]].
        - specialize (Hh _ Hk). lia.
        - cbn. lia. }
      specialize (IH (pre ++ [(S id, x)]) x (S id) Hh'). cbv zeta in IH.
      rewrite <- app_assoc in IH. cbn [app] in IH.
      assert (Hc : count_occ key_dec (pre ++ [(S id, x)]) (S id, x) = 1%nat).
      { rewrite count_occ_app. cbn [count_occ].
        destruct (key_dec (S id, x) (S id, x)) as [_|N]; [|contradiction].
        rewrite count_occ_absent; [reflexivity|].
        intro Hin. specialize (Hh _ Hin). cbn in Hh. lia. }
      rewrite Hc in IH.
      cbn [filter snd Props.leading Props.longest_run].
      destruct (Bool.eqb x b) eqn:Exb.
      * cbn [map]. rewrite list_max_head, IH.
        rewrite count_occ_app.
        rewrite (count_occ_absent pre (S id, x)).
        2:{ intro Hin. specialize (Hh _ Hin). cbn in Hh. lia. }
        cbn [count_occ].
        destruct (key_dec (S id, x) (S id, x)) as [_|N]; [|contradiction].
        rewrite keys_from_leading.
        apply Bool.eqb_prop in Exb. subst b.
        assert (Epx : Bool.eqb p x = false)
          by (destruct p, x; try reflexivity; discriminate).
        rewrite Epx. cbn [andb Nat.add].
        destruct (0 <? Props.leading x r)%nat; lia.
      * rewrite IH. rewrite ?Exb. cbn [andb].
        destruct (Bool.eqb p b); reflexivity.
Qed.

(** X9. The streak figure of the metrics, computed by numbering the
    streaks, grouping the trades by streak number and flag and taking the
    largest group, is the length of the longest run of consecutive trades
    with that flag (wins for [true], the others for [false]); it is 0 when
    no trade carries the flag. *)
Theorem max_consecutive_is_longest_run (b : bool) (l : list bool) :
  max_consecutive b l = Props.longest_run b l.
Proof.
  unfold max_consecutive, streak_counts. cbv zeta.
  transitivity
    (list_max (map (count_occ key_dec (streak_keys l))
                 (filter (fun k => Bool.eqb (snd k) b) (streak_keys l)))).
  - apply list_max_same_elements. intro n.
    rewrite !in_map_iff. split.
    + intros (kc & <- & Hkc). apply filter_In in Hkc.
      destruct Hkc as (Hkc & Hflag). apply in_map_iff in Hkc.
      destruct Hkc as (k & <- & Hk). apply nodup_In in Hk.
      exists k. split; [reflexivity|]. apply filter_In. split; assumption.
    + intros (k & <- & Hk). apply filter_In in Hk. destruct Hk as (Hk & Hflag).
      exists (k, count_occ key_dec (streak_keys l) k). split; [reflexivity|].
      apply filter_In. split; [|exact Hflag].
      apply in_map_iff. exists k. split; [reflexivity|].
      apply nodup_In. exact Hk.
  - destruct l as [|x r]; [reflexivity|].
    rewrite streak_keys_from.
    pose proof (max_consecutive_from b (x :: r) [] (negb x) 0) as H.
    cbv zeta in H. cbn [app] in H. rewrite H by (intros k []).
    cbn [count_occ Nat.add Props.leading].
    destruct x, b; cbn; try reflexivity; lia.
Qed.

End Streaks.

(** ** Maximum drawdown *)

Section Drawdown.

Import Pandas Metrics.

Lemma drawdown_cells (qs : list Q) :
  forall m, 0 < m -> Forall (fun q => 0 < q) qs ->
    exists ds,
      zip_with (fun e p => ((e - p) / p)%fl) (map Fin qs)
        (expanding_max_from (Fin m) (map Fin qs)) = map Fin ds
      /\ Forall (fun d => -1 < d <= 0) ds
      /\ (Forall (fun d => d == 0) ds <-> Props.no_fall m qs).
Proof.
  induction qs as [|q r IH]; intros m Hm Hq.
  - exists []. repeat split; constructor.
  - inversion Hq as [|? ? Hqpos Hr]; subst.
    cbn [map expanding_max_from zip_with]. cbv zeta.
    unfold prep. cbn [finite]. unfold max_skipna2. cbn [isna].
    destruct (Fin m <? Fin q)%fl eqn:E; fl_prop.
    + destruct (IH q Hqpos Hr) as (ds & Hds & Hin & Hiff).
      exists ((q - q) / q :: ds). rewrite Hds.
      cbn [Fl.sub Fl.add Fl.neg]. rewrite (div_fin _ q) by lra.
      split; [reflexivity|]. split.
      * constructor; [|exact Hin].
        setoid_replace ((q - q) / q) with 0 by (field; lra). lra.
      * cbn [Props.no_fall]. split.
        -- intro H. inversion H; subst. split; [lra|]. apply Hiff. assumption.
        -- intros (_ & H). constructor; [field; lra|]. apply Hiff. exact H.
    + destruct (IH m Hm Hr) as (ds & Hds & Hin & Hiff).
      exists ((q - m) / m :: ds). rewrite Hds.
      cbn [Fl.sub Fl.add Fl.neg]. rewrite (div_fin _ m) by lra.
      split; [reflexivity|].
      assert (Hlo : -1 < (q - m) / m).
      { apply lt_div_iff; [exact Hm|]. lra. }
      assert (Hhi : (q - m) / m <= 0).
      { apply Qle_shift_div_r; [exact Hm|]. lra. }
      split; [constructor; [split; assumption|exact Hin]|].
      cbn [Props.no_fall]. split.
      * intro H. inversion H as [|? ? Hz Hrest]; subst.
        assert (Hqm : q == m).
        { assert (Hx : (q - m) / m * m == 0) by (rewrite Hz; ring).
          assert (Hy : (q - m) / m * m == q - m) by (field; lra).
          lra. }
        split; [lra|].
        apply Hiff in Hrest.
        clear - Hrest Hqm. destruct r as [|x r]; [exact I|].
        cbn in *. destruct Hrest. split; [lra|assumption].
      * intros (Hmq & H).
        assert (Hqm : q == m) by lra.
        constructor; [rewrite Hqm; field; lra|].
        apply Hiff. clear - H Hqm. destruct r as [|x r]; [exact I|].
        cbn in *. destruct H. split; [lra|assumption].
Qed.

Lemma min_skipna_cells (ds : list Q) :
  forall a, -1 < a <= 0 -> Forall (fun d => -1 < d <= 0) ds ->
    exists b,
      fold_left min_skipna2 (map Fin ds) (Fin a) = Fin b
      /\ -1 < b <= 0
      /\ (b == 0 <-> a == 0 /\ Forall (fun d => d == 0) ds).
Proof.
  induction ds as [|d r IH]; intros a Ha Hd.
  - exists a. split; [reflexivity|]. split; [exact Ha|].
    split; [intro; split; [assumption|constructor]|tauto].
  - inversion Hd as [|? ? Hd0 Hr]; subst.
    cbn [map fold_left]. unfold min_skipna2 at 2. cbn [isna].
    destruct (Fin d <? Fin a)%fl eqn:E; fl_prop.
    + destruct (IH d Hd0 Hr) as (b & Hb & Hin & Hiff).
      exists b. split; [exact Hb|]. split; [exact Hin|].
      rewrite Hiff. split.
      * intros (Hz & Hall). lra.
      * intros (Hz & Hall). inversion Hall; subst. lra.
    + destruct (IH a Ha Hr) as (b & Hb & Hin & Hiff).
      exists b. split; [exact Hb|]. split; [exact Hin|].
      rewrite Hiff. split.
      * intros (Hz & Hall). split; [exact Hz|].
        constructor; [lra|exact Hall].
      * intros (Hz & Hall). inversion Hall; subst. tauto.
Qed.

(** X10. On an equity curve of positive values the maximum drawdown is a
    percentage in [0, 100), and it is 0 exactly when the equity never falls
    below the value before it. *)
Theorem max_drawdown_of_positive_equity (q0 : Q) (qs : list Q) :
  Forall (fun q => 0 < q) (q0 :: qs) ->
  exists d,
    max_drawdown (map Fin (q0 :: qs)) = Fin d
    /\ 0 <= d < 100
    /\ (d == 0 <-> Props.no_fall q0 qs).
Proof.
  intro Hpos. inversion Hpos as [|? ? Hq0 Hqs]; subst.
  unfold max_drawdown, drawdown, expanding_max, min_skipna.
  cbn [map expanding_max_from zip_with]. cbv zeta.
  unfold prep. cbn [finite]. unfold max_skipna2 at 1 3. cbn [isna].
  destruct (drawdown_cells qs q0 Hq0 Hqs) as (ds & Hds & Hin & Hiff).
  rewrite Hds. cbn [fold_left]. unfold min_skipna2 at 2. cbn [isna].
  cbn [Fl.sub Fl.add Fl.neg]. rewrite (div_fin _ q0) by lra.
  assert (Ha : -1 < (q0 + - q0) / q0 <= 0).
  { setoid_replace ((q0 + - q0) / q0) with 0 by (field; lra). lra. }
  destruct (min_skipna_cells ds _ Ha Hin) as (b & -> & Hb & Hbiff).
  cbn [Fl.abs Fl.mul]. eexists. split; [reflexivity|].
  rewrite Qabs_neg by lra. split; [lra|].
  rewrite <- Hiff. split.
  - intro Hz. apply Hbiff. lra.
  - intro Hall. assert (Hz : b == 0); [|lra].
    apply Hbiff. split; [field; lra|exact Hall].
Qed.

Lemma max_drawdown_of_positive_equity_witness :
  exists d,
    max_drawdown (map Fin [100; 120; 90; 130; 117]) = Fin d
    /\ 0 <= d < 100
    /\ (d == 0 <-> Props.no_fall 100 [120; 90; 130; 117]).
Proof.
  apply (max_drawdown_of_positive_equity 100 [120; 90; 130; 117]).
  repeat constructor.
Defined.

End Drawdown.

(** ** Win rate *)

Section TradeMetrics.

Import Backtester Metrics.

Lemma filter_keeps_all {A : Type} (f : A -> bool) (l : list A) :
  length (filter f l) = length l <-> (forall x, In x l -> f x = true).
Proof.
  induction l as [|a r IH]; cbn [filter length].
  - split; [intros _ x []|reflexivity].
  - pose proof (filter_length_le f r) as Hle.
    destruct (f a) eqn:E; cbn [length].
    + split.
      * intros H x [<-|Hx]; [exact E|]. apply IH; [lia|exact Hx].
      * intro H. f_equal. apply IH. intros x Hx. apply H. right. exact Hx.
    + split; [lia|]. intro H. specialize (H a (or_introl eq_refl)). congruence.
Qed.

(** X11. The win rate of an empty trade list is 0.  On every trade list it
    is a percentage between 0 and 100; it is 0 exactly when no trade has a
    positive P&L, and it reaches 100 exactly when there are trades and
    every one of them has a positive P&L. *)
Theorem win_rate_is_a_percentage (trades_df : list Trade) :
  win_rate [] = Fin 0
  /\ exists w,
       win_rate trades_df = Fin w
       /\ 0 <= w <= 100
       /\ (w == 0 <-> forall t, In t trades_df -> win_flag t = false)
       /\ (w == 100 <->
           trades_df <> [] /\ forall t, In t trades_df -> win_flag t = true).
Proof.
  split; [reflexivity|].
  unfold win_rate. destruct trades_df as [|t0 r].
  - exists 0. split; [reflexivity|]. split; [lra|]. split.
    + split; [intros _ t []|reflexivity].
    + split; [intro H; vm_compute in H; discriminate H
             |intros (H & _); contradiction].
  - set (l := t0 :: r).
    pose proof (filter_length_le win_flag l) as Hle.
    pose proof (filter_keeps_all win_flag l) as Hall.
    pose proof (filter_nil_iff win_flag l) as Hnil.
    set (k := length (filter win_flag l)) in *.
    assert (Hn : (0 < length l)%nat) by (cbn; lia).
    set (n := length l) in *. unfold count.
    set (K := inject_Z (Z.of_nat k)). set (N := inject_Z (Z.of_nat n)).
    assert (HK : 0 <= K) by (unfold K; rewrite <- (Zle_Qle 0); lia).
    assert (HKN : K <= N) by (unfold K, N; rewrite <- Zle_Qle; lia).
    assert (HN : 0 < N) by (unfold N; rewrite <- (Zlt_Qlt 0); lia).
    rewrite (div_fin K N) by lra. cbn [Fl.mul].
    exists (K / N * 100). split; [reflexivity|].
    assert (Hq : K / N * N == K) by (field; lra).
    assert (H0 : 0 <= K / N).
    { apply Qle_shift_div_l; [exact HN|]. lra. }
    assert (H1 : K / N <= 1).
    { apply Qle_shift_div_r; [exact HN|]. lra. }
    split; [lra|]. split; split.
    + intro Hw. apply Hnil.
      assert (HKeq : K == 0) by nra.
      assert (Hk : Z.of_nat k = 0%Z)
        by (apply inject_Z_injective; exact HKeq).
      apply length_zero_iff_nil. fold k. lia.
    + intro H. apply Hnil in H.
      assert (Hk : k = 0%nat) by (unfold k; rewrite H; reflexivity).
      assert (HKeq : K == 0) by (unfold K; rewrite Hk; reflexivity).
      rewrite HKeq. field. lra.
    + intro Hw. split; [discriminate|]. apply Hall.
      assert (HKeq : K == N) by nra.
      assert (Z.of_nat k = Z.of_nat n)
        by (apply inject_Z_injective; exact HKeq).
      lia.
    + intros (_ & H). apply Hall in H.
      assert (HKeq : K == N) by (unfold K, N; rewrite H; reflexivity).
      rewrite HKeq. field. lra.
Qed.


End TradeMetrics.

(** ** Position sizing of the live signal *)

Section LiveSizing.

Import Strategy Live.

Lemma to_int_integer (z : Z) : to_int (Fin (inject_Z z)) = Some z.
Proof.
  unfold to_int. rewrite Qfloor_Z, Qceiling_Z.
  destruct (Qle_bool 0 (inject_Z z)); reflexivity.
Qed.

Lemma ceiling_below_successor (q : Q) : inject_Z (Qceiling q) < q + 1.
Proof.
  pose proof (Qceiling_lt q) as H. unfold Z.sub in H.
  rewrite inject_Z_plus, inject_Z_opp in H.
  change (inject_Z 1) with 1 in H. lra.
Qed.

Lemma rounded_leverage_cases (lev : fl) (n : Z) :
  to_int (if (lev <? min_leverage)%fl then min_leverage
          else py_min (ceil lev) max_leverage) = Some n ->
  (1 <= n <= 100)%Z
  /\ (forall q, lev = Fin q -> q <= 100 -> q <= inject_Z n)
  /\ (forall q, lev = Fin q -> 1 <= q -> inject_Z n < q + 1).
Proof.
  unfold min_leverage, max_leverage.
  change (Fin 1) with (Fin (inject_Z 1)).
  change (Fin 100) with (Fin (inject_Z 100)).
  destruct lev as [q| | |].
  - destruct (Fin q <? Fin (inject_Z 1))%fl eqn:E; fl_prop.
    + rewrite to_int_integer. intro H. injection H as <-.
      change (inject_Z 1) with 1 in *.
      split; [lia|]. split; intros x Hx; injection Hx as <-; intros; lra.
    + cbn [ceil]. unfold py_min.
      pose proof (Qle_ceiling q) as Hc.
      pose proof (ceiling_below_successor q) as Hc'.
      destruct (Fin (inject_Z 100) <? Fin (inject_Z (Qceiling q)))%fl eqn:E';
        fl_prop; rewrite to_int_integer; intro H; injection H as <-.
      * split; [lia|].
        split; intros x Hx; injection Hx as <-; intros Hq.
        -- exfalso. rewrite <- Zlt_Qlt in E'.
           assert (Qceiling q <= 100)%Z; [|lia].
           rewrite <- (Qceiling_Z 100). apply Qceiling_resp_le. exact Hq.
        -- change (inject_Z 100) with 100 in *. lra.
      * split.
        -- rewrite <- Zle_Qle in E'. split; [|exact E'].
           rewrite Zle_Qle. change (inject_Z 1) with 1 in *. lra.
        -- split; intros x Hx; injection Hx as <-; intros Hq; assumption.
  - cbn. intro H. injection H as <-.
    split; [lia|]. split; intros; discriminate.
  - cbn. intro H. injection H as <-.
    split; [lia|]. split; intros; discriminate.
  - cbn. discriminate.
Qed.

(** X12. Whenever the live sizing returns, the rounded leverage is an
    integer between 1 and 100; it is not below a raw leverage of at most
    100, and it exceeds a raw leverage of at least 1 by less than one. *)
Theorem rounded_leverage_within_exchange_bounds (current_params : ModeParams)
  (current_equity : fl) (signal : Signal) (atr entry : fl) (sz : Sizing) :
  size_position current_params current_equity signal atr entry = Some sz ->
  (1 <= sz_leverage_rounded sz <= 100)%Z
  /\ (forall q, sz_leverage_raw sz = Fin q -> q <= 100 ->
                q <= inject_Z (sz_leverage_rounded sz))
  /\ (forall q, sz_leverage_raw sz = Fin q -> 1 <= q ->
                inject_Z (sz_leverage_rounded sz) < q + 1).
Proof.
  unfold size_position.
  destruct signal; cbv zeta;
    match goal with
    | |- context [to_int ?r] => destruct (to_int r) as [n|] eqn:E
    end; try discriminate;
    intro H; injection H as <-; cbn [sz_leverage_rounded sz_leverage_raw];
    exact (rounded_leverage_cases _ _ E).
Qed.

Lemma rounded_leverage_within_exchange_bounds_witness :
  match size_position (params conservative) (Fin 1000) BUY (Fin 0.01) (Fin 0.5)
  with
  | Some sz => (1 <= sz_leverage_rounded sz <= 100)%Z
  | None => False
  end.
Proof.
  destruct (size_position (params conservative) (Fin 1000) BUY (Fin 0.01)
              (Fin 0.5)) as [sz|] eqn:E.
  - exact (proj1 (rounded_leverage_within_exchange_bounds _ _ _ _ _ _ E)).
  - vm_compute in E. discriminate E.
Defined.

(** X13. The live sizing does not reject a zero ATR: the stop sits on the
    entry, the position size and the allocated capital are infinite and
    the leverage is the maximum of 100. *)
Theorem zero_atr_is_sized_at_full_leverage (current_params : ModeParams)
  (signal : Signal) (a e q r : Q) :
  a == 0 -> 0 < e -> 0 < q -> 0 < r ->
  risk_per_trade current_params = Fin r ->
  exists sz,
    size_position current_params (Fin q) signal (Fin a) (Fin e) = Some sz
    /\ sz_position_size sz = PInf
    /\ sz_leverage_raw sz = PInf
    /\ sz_leverage_rounded sz = 100%Z
    /\ sz_allocated_capital sz = PInf
    /\ sz_stop_loss sz =~ Fin e.
Proof.
  intros Ha He Hq Hr Hrisk.
  assert (Hsize : forall d, d == 0 ->
            (Fin r * Fin q / Fin (Qabs d))%fl = PInf).
  { intros d Hd. cbn [Fl.mul Fl.div].
    assert (Hz : Qeq_bool (Qabs d) 0 = true)
      by (apply Qeq_bool_iff; rewrite Hd; reflexivity).
    rewrite Hz. unfold signed_inf.
    assert (Hpos : 0 < r * q) by nra.
    apply Qgt_alt in Hpos. rewrite Hpos. reflexivity. }
  assert (Hval : (PInf * Fin e)%fl = PInf).
  { cbn [Fl.mul]. unfold signed_inf. apply Qgt_alt in He. rewrite He.
    reflexivity. }
  assert (Hlev : (PInf / Fin q)%fl = PInf).
  { cbn [Fl.div]. assert (Hn : Qltb q 0 = false).
    { destruct (Qltb q 0) eqn:E; [|reflexivity].
      apply Qltb_lt in E. lra. }
    rewrite Hn. reflexivity. }
  unfold size_position. rewrite Hrisk.
  destruct signal; cbv zeta; cbn [Fl.sub Fl.add Fl.neg Fl.mul Fl.abs];
    rewrite Hsize by (rewrite Ha; ring); rewrite Hval, Hlev;
    (eexists; split; [reflexivity|]);
    cbn [sz_position_size sz_leverage_raw sz_leverage_rounded
         sz_allocated_capital sz_stop_loss Fl.equiv];
    (repeat split; try reflexivity); rewrite Ha; ring.
Qed.

Lemma zero_atr_is_sized_at_full_leverage_witness :
  exists sz,
    size_position (params conservative) (Fin 1000) BUY (Fin 0) (Fin 0.5)
    = Some sz
    /\ sz_leverage_rounded sz = 100%Z.
Proof.
  destruct (zero_atr_is_sized_at_full_leverage (params conservative) BUY
              0 0.5 1000 0.02) as (sz & H & _ & _ & Hl & _);
    try reflexivity.
  exists sz. split; assumption.
Defined.

Lemma rounded_leverage_of_finite (q : Q) :
  exists k,
    to_int (if (Fin q <? min_leverage)%fl then min_leverage
            else py_min (ceil (Fin q)) max_leverage) = Some k.
Proof.
  destruct (Fin q <? min_leverage)%fl; [eexists; reflexivity|].
  cbn [ceil]. unfold py_min.
  destruct (max_leverage <? Fin (inject_Z (Qceiling q)))%fl;
    eexists; reflexivity.
Qed.

(** X14. With an ATR, an entry and an equity of moderate size, the entry at
    most a million ATRs and a risk fraction between a millionth and 1, the
    live sizing returns; the size times the distance from entry to stop is
    the mode's risk fraction of the equity, and the raw leverage is risk
    times entry over 1.5 ATR, whatever the equity.  (An ATR that float64
    absorbs into the entry is sized like an ATR of zero.) *)
Theorem live_size_risks_the_mode_fraction (current_params : ModeParams)
  (signal : Signal) (a e q r m : Q) :
  Domain.moderate a -> Domain.moderate e -> Domain.moderate q ->
  Domain.resolves e a -> 1 # 1000000 <= r <= 1 ->
  risk_per_trade current_params = Fin r ->
  profit_target_multiplier current_params = Fin m ->
  exists sz n l s,
    size_position current_params (Fin q) signal (Fin a) (Fin e) = Some sz
    /\ sz_position_size sz = Fin n
    /\ sz_stop_loss sz = Fin s
    /\ n * Qabs (e - s) == r * q
    /\ sz_leverage_raw sz = Fin l
    /\ l == r * e / (1.5 * a).
Proof.
  intros (Ha & _) (He & _) (Hq & _) _ (Hr & _) Hrisk Hm.
  assert (Ha0 : 0 < a) by lra.
  assert (He0 : 0 < e) by lra.
  assert (Hq0 : ~ q == 0) by lra.
  unfold size_position. rewrite Hrisk, Hm.
  destruct signal; cbv zeta; cbn [Fl.sub Fl.add Fl.neg Fl.mul Fl.abs].
  all: match goal with
       | |- context [Fin (Qabs ?d)] =>
           assert (Habs : Qabs d == 1.5 * a)
             by (apply Qabs_case; intros; lra);
           assert (Hd : ~ Qabs d == 0) by (rewrite Habs; lra);
           rewrite (div_fin _ (Qabs d)) by exact Hd;
           cbn [Fl.mul]; rewrite (div_fin _ q) by exact Hq0;
           unfold Qminus; set (D := Qabs d) in *
       end.
  all: match goal with
       | |- context [ceil (Fin ?x)] =>
           destruct (rounded_leverage_of_finite x) as (k & ->)
       end.
  all: eexists; eexists; eexists; eexists; split; [reflexivity|];
       cbn [sz_position_size sz_stop_loss sz_leverage_raw];
       split; [reflexivity|]; split; [reflexivity|].
  all: fold D; split; [field; exact Hd|]; split; [reflexivity|];
       rewrite <- Habs; field; split; assumption.
Qed.

Lemma live_size_risks_the_mode_fraction_witness :
  exists sz n l s,
    size_position (params conservative) (Fin 1000) BUY (Fin 0.01) (Fin 0.5)
    = Some sz
    /\ sz_position_size sz = Fin n
    /\ sz_stop_loss sz = Fin s
    /\ n * Qabs (0.5 - s) == 0.02 * 1000
    /\ sz_leverage_raw sz = Fin l
    /\ l == 0.02 * 0.5 / (1.5 * 0.01).
Proof.
  apply (live_size_risks_the_mode_fraction (params conservative) BUY
           0.01 0.5 1000 0.02 2.5);
    try reflexivity; unfold Domain.moderate, Domain.resolves; lra.
Defined.

End LiveSizing.

(** ** Resampling *)

Section Resampling.

Import Pandas Strategy Resample.
Import Props.

Lemma insert_bar_in (b x : Bar) (l : list Bar) :
  In x (insert_bar b l) <-> x = b \/ In x l.
Proof.
  induction l as [|y r IH]; cbn [insert_bar].
  - cbn. intuition.
  - destruct (b_datetime b <=? b_datetime y)%Z.
    + cbn. intuition.
    + cbn [In]. rewrite IH. intuition.
Qed.

Lemma sort_bars_in (x : Bar) (l : list Bar) :
  In x (sort_bars l) <-> In x l.
Proof.
  induction l as [|y r IH]; cbn [sort_bars]; [reflexivity|].
  rewrite insert_bar_in, IH. cbn. intuition.
Qed.

Lemma insert_bar_sorted (b : Bar) (l : list Bar) :
  StronglySorted le_time l -> StronglySorted le_time (insert_bar b l).
Proof.
  induction l as [|y r IH]; intro H; cbn [insert_bar].
  - constructor; constructor.
  - inversion H as [|? ? Hr Hy]; subst.
    destruct (b_datetime b <=? b_datetime y)%Z eqn:E.
    + apply Z.leb_le in E. constructor; [exact H|].
      constructor; [exact E|].
      rewrite Forall_forall in *. intros x Hx. specialize (Hy x Hx).
      unfold le_time in *. lia.
    + apply Z.leb_gt in E. constructor; [apply IH; exact Hr|].
      rewrite Forall_forall in *. intros x Hx.
      apply insert_bar_in in Hx. destruct Hx as [->|Hx].
      * unfold le_time. lia.
      * apply Hy. exact Hx.
Qed.

Lemma sort_bars_sorted (l : list Bar) : StronglySorted le_time (sort_bars l).
Proof.
  induction l as [|y r IH]; cbn [sort_bars]; [constructor|].
  apply insert_bar_sorted. exact IH.
Qed.

Lemma sorted_last (l : list Bar) (d : Bar) :
  StronglySorted le_time l -> forall x, In x l -> le_time x (last l d).
Proof.
  induction l as [|y r IH]; intros H x Hx; [destruct Hx|].
  inversion H as [|? ? Hr Hy]; subst.
  destruct r as [|z r'].
  - destruct Hx as [->|[]]. unfold le_time. cbn. lia.
  - change (last (y :: z :: r') d) with (last (z :: r') d).
    destruct Hx as [->|Hx].
    + rewrite Forall_forall in Hy.
      assert (Hz : le_time z (last (z :: r') d))
        by (apply IH; [exact Hr|left; reflexivity]).
      specialize (Hy z (or_introl eq_refl)). unfold le_time in *. lia.
    + apply IH; assumption.
Qed.

Lemma bucket_bounds (width t : Z) :
  (0 < width)%Z ->
  (bucket width t <= t < bucket width t + width)%Z
  /\ (bucket width t mod width = 0)%Z.
Proof.
  intro Hw. unfold bucket. split.
  - pose proof (Z.mul_div_le t width Hw).
    pose proof (Z.mul_succ_div_gt t width Hw). lia.
  - apply Z.mod_mul. lia.
Qed.

Lemma bin_listed (width : Z) (sorted : list Bar) (b : Bar) :
  (0 < width)%Z -> StronglySorted le_time sorted -> In b sorted ->
  In (bucket width (b_datetime b)) (bins width sorted).
Proof.
  intros Hw Hs Hb. unfold bins.
  destruct sorted as [|b0 r]; [destruct Hb|]. cbv zeta.
  assert (H0 : le_time b0 b).
  { destruct Hb as [->|Hb]; [unfold le_time; lia|].
    inversion Hs as [|? ? _ Hall]; subst.
    rewrite Forall_forall in Hall. apply Hall. exact Hb. }
  pose proof (sorted_last _ b0 Hs b Hb) as H1.
  unfold le_time in *. unfold bucket.
  set (t0 := b_datetime b0) in *. set (t := b_datetime b) in *.
  set (t1 := b_datetime (last (b0 :: r) b0)) in *.
  assert (D0 : (t0 / width <= t / width)%Z) by (apply Z.div_le_mono; lia).
  assert (D1 : (t / width <= t1 / width)%Z) by (apply Z.div_le_mono; lia).
  replace (t1 / width * width - t0 / width * width)%Z
    with ((t1 / width - t0 / width) * width)%Z by ring.
  rewrite Z.div_mul by lia.
  apply in_map_iff. exists (Z.to_nat (t / width - t0 / width)). split.
  - rewrite Z2Nat.id by lia. ring.
  - apply in_seq. lia.
Qed.

Lemma bins_aligned (width : Z) (sorted : list Bar) (k : Z) :
  (0 < width)%Z -> In k (bins width sorted) -> (k mod width = 0)%Z.
Proof.
  intros Hw Hk. unfold bins in Hk. destruct sorted as [|b0 r]; [destruct Hk|].
  cbv zeta in Hk. apply in_map_iff in Hk. destruct Hk as (j & <- & _).
  unfold bucket. rewrite <- Z.mul_add_distr_r. apply Z.mod_mul. lia.
Qed.

Lemma steps_increase (width lo : Z) (n s : nat) :
  (0 < width)%Z ->
  StronglySorted Z.lt
    (map (fun j => (lo + Z.of_nat j * width)%Z) (seq s n)).
Proof.
  intro Hw. revert s. induction n as [|n IH]; intro s; cbn [seq map].
  - constructor.
  - constructor; [apply IH|].
    apply Forall_forall. intros k Hk. apply in_map_iff in Hk.
    destruct Hk as (j & <- & Hj). apply in_seq in Hj. nia.
Qed.

Lemma bins_increase (width : Z) (sorted : list Bar) :
  (0 < width)%Z -> StronglySorted Z.lt (bins width sorted).
Proof.
  intro Hw. unfold bins. destruct sorted as [|b0 r]; [constructor|].
  cbv zeta. apply steps_increase. exact Hw.
Qed.

Lemma kept_bins_increase (width : Z) (sorted : list Bar) (ks : list Z) :
  StronglySorted Z.lt ks ->
  StronglySorted Z.lt
    (map b_datetime (filter complete (map (resample_bin width sorted) ks))).
Proof.
  induction ks as [|k r IH]; intro H; [constructor|].
  inversion H as [|? ? Hr Hk]; subst. cbn [map filter].
  destruct (complete (resample_bin width sorted k)); [|apply IH; exact Hr].
  cbn [map]. constructor; [apply IH; exact Hr|].
  apply Forall_forall. intros t Ht. apply in_map_iff in Ht.
  destruct Ht as (c & <- & Hc). apply filter_In in Hc. destruct Hc as (Hc & _).
  apply in_map_iff in Hc. destruct Hc as (k' & <- & Hk').
  rewrite Forall_forall in Hk. cbn [resample_bin b_datetime].
  apply Hk. exact Hk'.
Qed.

(** X15. The rows of a resampled frame are stamped with multiples of the
    bin width, in strictly increasing order: no two rows share a bin,
    whatever the order of the input. *)
Theorem resampled_rows_are_aligned_and_increasing (width : Z)
  (df : list Bar) :
  (0 < width)%Z ->
  let out := resample_width width df in
  Forall (fun c => (b_datetime c mod width = 0)%Z) out
  /\ StronglySorted Z.lt (map b_datetime out).
Proof.
  intros Hw out. subst out. unfold resample_width. cbv zeta. split.
  - apply Forall_forall. intros c Hc. apply filter_In in Hc.
    destruct Hc as (Hc & _). apply in_map_iff in Hc.
    destruct Hc as (k & <- & Hk). cbn [resample_bin b_datetime].
    eapply bins_aligned; eassumption.
  - apply kept_bins_increase. apply bins_increase. exact Hw.
Qed.

Lemma resampled_rows_are_aligned_and_increasing_witness :
  let out := resample_width 86400 MoreSamples.hourly_bars in
  Forall (fun c => (b_datetime c mod 86400 = 0)%Z) out
  /\ StronglySorted Z.lt (map b_datetime out).
Proof.
  apply (resampled_rows_are_aligned_and_increasing 86400
           MoreSamples.hourly_bars).
  reflexivity.
Defined.

Lemma fold_max_fin (xs : list fl) :
  Forall Fl.is_fin xs -> forall a,
  exists m, fold_left max_skipna2 xs (Fin a) = Fin m
            /\ a <= m /\ forall h, In (Fin h) xs -> h <= m.
Proof.
  induction 1 as [|x r (q & ->) Hr IH]; intro a.
  - exists a. split; [reflexivity|]. split; [lra|intros h []].
  - cbn [fold_left]. unfold max_skipna2 at 2. cbn [isna].
    destruct (Fin a <? Fin q)%fl eqn:E; fl_prop.
    + destruct (IH q) as (m & -> & Hm & Hall). exists m.
      split; [reflexivity|]. split; [lra|].
      intros h [Hh|Hh]; [injection Hh as <-; exact Hm|exact (Hall h Hh)].
    + destruct (IH a) as (m & -> & Hm & Hall). exists m.
      split; [reflexivity|]. split; [exact Hm|].
      intros h [Hh|Hh]; [injection Hh as <-; lra|exact (Hall h Hh)].
Qed.

Lemma fold_min_fin (xs : list fl) :
  Forall Fl.is_fin xs -> forall a,
  exists m, fold_left Metrics.min_skipna2 xs (Fin a) = Fin m
            /\ m <= a /\ forall l, In (Fin l) xs -> m <= l.
Proof.
  induction 1 as [|x r (q & ->) Hr IH]; intro a.
  - exists a. split; [reflexivity|]. split; [lra|intros h []].
  - cbn [fold_left]. unfold Metrics.min_skipna2 at 2. cbn [isna].
    destruct (Fin q <? Fin a)%fl eqn:E; fl_prop.
    + destruct (IH q) as (m & -> & Hm & Hall). exists m.
      split; [reflexivity|]. split; [lra|].
      intros h [Hh|Hh]; [injection Hh as <-; exact Hm|exact (Hall h Hh)].
    + destruct (IH a) as (m & -> & Hm & Hall). exists m.
      split; [reflexivity|]. split; [exact Hm|].
      intros h [Hh|Hh]; [injection Hh as <-; lra|exact (Hall h Hh)].
Qed.

Lemma max_skipna_fin (xs : list fl) :
  xs <> [] -> Forall Fl.is_fin xs ->
  exists m, max_skipna xs = Fin m /\ forall h, In (Fin h) xs -> h <= m.
Proof.
  intros Hne H. destruct H as [|x r (q & ->) Hr]; [contradiction|].
  unfold max_skipna. cbn [fold_left]. unfold max_skipna2 at 2. cbn [isna].
  destruct (fold_max_fin r Hr q) as (m & -> & Hm & Hall).
  exists m. split; [reflexivity|].
  intros h [Hh|Hh]; [injection Hh as <-; exact Hm|exact (Hall h Hh)].
Qed.

Lemma min_skipna_fin (xs : list fl) :
  xs <> [] -> Forall Fl.is_fin xs ->
  exists m, Metrics.min_skipna xs = Fin m
            /\ forall l, In (Fin l) xs -> m <= l.
Proof.
  intros Hne H. destruct H as [|x r (q & ->) Hr]; [contradiction|].
  unfold Metrics.min_skipna. cbn [fold_left].
  unfold Metrics.min_skipna2 at 2. cbn [isna].
  destruct (fold_min_fin r Hr q) as (m & -> & Hm & Hall).
  exists m. split; [reflexivity|].
  intros h [Hh|Hh]; [injection Hh as <-; exact Hm|exact (Hall h Hh)].
Qed.

Lemma first_valid_fin (xs : list fl) :
  xs <> [] -> Forall Fl.is_fin xs -> Fl.is_fin (first_valid xs).
Proof.
  intros Hne H. destruct H as [|x r (q & ->) Hr]; [contradiction|].
  exists q. reflexivity.
Qed.

Lemma last_valid_fin (xs : list fl) :
  xs <> [] -> Forall Fl.is_fin xs -> Fl.is_fin (last_valid xs).
Proof.
  intros Hne H. unfold last_valid. apply first_valid_fin.
  - intro E. apply (f_equal (@rev fl)) in E. rewrite rev_involutive in E.
    contradiction.
  - apply Forall_rev. exact H.
Qed.

Lemma sum_skipna_fin (xs : list fl) :
  Forall Fl.is_fin xs -> Fl.is_fin (sum_skipna xs).
Proof.
  intro H. unfold sum_skipna. generalize 0 as a.
  induction H as [|x r (v & ->) Hr IH]; intro a.
  - exists a. reflexivity.
  - cbn [filter isna negb fold_left Fl.add]. apply IH.
Qed.

Lemma column_of_whole_bars (f : Bar -> fl) (g : list Bar) :
  (forall b, whole_bar b -> Fl.is_fin (f b)) ->
  Forall whole_bar g -> Forall Fl.is_fin (map f g).
Proof.
  intros Hf H. apply Forall_forall. intros x Hx. apply in_map_iff in Hx.
  destruct Hx as (b & <- & Hb). apply Hf.
  rewrite Forall_forall in H. apply H. exact Hb.
Qed.

Lemma candle_of_bar (width : Z) (sorted : list Bar) (b : Bar) (h l : Q) :
  Forall whole_bar sorted -> In b sorted ->
  b_high b = Fin h -> b_low b = Fin l ->
  let c := resample_bin width sorted (bucket width (b_datetime b)) in
  whole_bar c
  /\ complete c = true
  /\ exists H L, b_high c = Fin H /\ h <= H /\ b_low c = Fin L /\ L <= l.
Proof.
  intros Hall Hb Hh Hl c. subst c. unfold resample_bin. cbv zeta.
  set (k := bucket width (b_datetime b)).
  set (group := filter (fun x => (bucket width (b_datetime x) =? k)%Z) sorted).
  assert (Hin : In b group).
  { apply filter_In. split; [exact Hb|]. apply Z.eqb_refl. }
  assert (Hne : forall f : Bar -> fl, map f group <> []).
  { intros f E. destruct group; [destruct Hin|discriminate E]. }
  assert (Hg : Forall whole_bar group).
  { apply Forall_forall. intros x Hx. apply filter_In in Hx.
    rewrite Forall_forall in Hall. apply Hall. apply Hx. }
  assert (Ho : Forall Fl.is_fin (map b_open group))
    by (apply column_of_whole_bars; [intros x Hx; apply Hx|exact Hg]).
  assert (Hhi : Forall Fl.is_fin (map b_high group))
    by (apply column_of_whole_bars; [intros x Hx; apply Hx|exact Hg]).
  assert (Hlo : Forall Fl.is_fin (map b_low group))
    by (apply column_of_whole_bars; [intros x Hx; apply Hx|exact Hg]).
  assert (Hc : Forall Fl.is_fin (map b_close group))
    by (apply column_of_whole_bars; [intros x Hx; apply Hx|exact Hg]).
  assert (Hv : Forall Fl.is_fin (map b_volume group))
    by (apply column_of_whole_bars; [intros x Hx; apply Hx|exact Hg]).
  destruct (first_valid_fin _ (Hne b_open) Ho) as (o & Eo).
  destruct (max_skipna_fin _ (Hne b_high) Hhi) as (H & EH & HH).
  destruct (min_skipna_fin _ (Hne b_low) Hlo) as (L & EL & HL).
  destruct (last_valid_fin _ (Hne b_close) Hc) as (cl & Ec).
  destruct (sum_skipna_fin _ Hv) as (v & Ev).
  unfold whole_bar, complete.
  cbn [b_open b_high b_low b_close b_volume].
  rewrite Eo, EH, EL, Ec, Ev. split; [|split; [reflexivity|]].
  - repeat split; eexists; reflexivity.
  - exists H, L. split; [reflexivity|]. split.
    + apply HH. rewrite <- Hh. apply in_map. exact Hin.
    + split; [reflexivity|]. apply HL. rewrite <- Hl. apply in_map. exact Hin.
Qed.

Lemma whole_bars_sorted (df : list Bar) :
  Forall whole_bar df -> Forall whole_bar (sort_bars df).
Proof.
  intro H. apply Forall_forall. intros x Hx.
  rewrite Forall_forall in H. apply H.
  exact (proj1 (sort_bars_in x df) Hx).
Qed.

(** X16. Resampling loses no bar: when every cell of the frame is a number,
    each bar has a row in the resampled frame, stamped with the start of
    the bin that holds the bar, whose high is not below the bar's high and
    whose low is not above the bar's low. *)
Theorem every_bar_lies_inside_its_candle (width : Z) (df : list Bar)
  (b : Bar) (h l : Q) :
  (0 < width)%Z -> Forall whole_bar df -> In b df ->
  b_high b = Fin h -> b_low b = Fin l ->
  exists c H L,
    In c (resample_width width df)
    /\ (b_datetime c <= b_datetime b < b_datetime c + width)%Z
    /\ b_high c = Fin H /\ h <= H
    /\ b_low c = Fin L /\ L <= l.
Proof.
  intros Hw Hall Hb Hh Hl.
  assert (Hs : In b (sort_bars df)) by exact (proj2 (sort_bars_in b df) Hb).
  destruct (candle_of_bar width (sort_bars df) b h l
              (whole_bars_sorted df Hall) Hs Hh Hl)
    as (_ & Hc & H & L & EH & HH & EL & HL).
  exists (resample_bin width (sort_bars df) (bucket width (b_datetime b))),
    H, L.
  split; [|split; [|repeat split; assumption]].
  - unfold resample_width. cbv zeta. apply filter_In. split; [|exact Hc].
    apply in_map. apply bin_listed; [exact Hw|apply sort_bars_sorted|exact Hs].
  - cbn [resample_bin b_datetime]. apply bucket_bounds. exact Hw.
Qed.

Lemma hourly_bars_whole : Forall whole_bar MoreSamples.hourly_bars.
Proof.
  apply Forall_forall. intros b Hb. apply in_map_iff in Hb.
  destruct Hb as (i & <- & _). unfold whole_bar. cbn.
  repeat split; eexists; reflexivity.
Qed.

Lemma every_bar_lies_inside_its_candle_witness :
  exists c H L,
    In c (resample_width 86400 MoreSamples.hourly_bars)
    /\ (b_datetime c <= 90000 < b_datetime c + 86400)%Z
    /\ b_high c = Fin H /\ 26 <= H
    /\ b_low c = Fin L /\ L <= 26.
Proof.
  apply (every_bar_lies_inside_its_candle 86400 MoreSamples.hourly_bars
           (Samples.bar_of 90000 (Fin 26)) 26 26).
  - reflexivity.
  - exact hourly_bars_whole.
  - apply in_map_iff. exists 25%nat. split; [reflexivity|].
    apply in_seq. lia.
  - reflexivity.
  - reflexivity.
Defined.

Lemma bar_has_candle (width : Z) (df : list Bar) (b : Bar) :
  (0 < width)%Z -> Forall whole_bar df -> In b df ->
  exists c, In c (resample_width width df)
            /\ (b_datetime c <= b_datetime b)%Z.
Proof.
  intros Hw Hall Hb.
  assert (Hs : In b (sort_bars df)) by exact (proj2 (sort_bars_in b df) Hb).
  assert (Hwb : whole_bar b) by (rewrite Forall_forall in Hall; auto).
  destruct Hwb as (_ & (h & Hh) & (l & Hl) & _).
  destruct (candle_of_bar width (sort_bars df) b h l
              (whole_bars_sorted df Hall) Hs Hh Hl) as (_ & Hc & _).
  exists (resample_bin width (sort_bars df) (bucket width (b_datetime b))).
  split.
  - unfold resample_width. cbv zeta. apply filter_In. split; [|exact Hc].
    apply in_map. apply bin_listed; [exact Hw|apply sort_bars_sorted|exact Hs].
  - cbn [resample_bin b_datetime]. apply bucket_bounds. exact Hw.
Qed.

End Resampling.

(** ** The prepared frame *)

Section Pipeline.

Import Pandas Strategy Resample.
Import Props.

Lemma bars_of_indicators (df : list Bar) :
  map bar (calculate_indicators df) = df.
Proof.
  unfold calculate_indicators. cbv zeta. rewrite map_map.
  cbn [indicator_row bar].
  apply nth_ext with (d := no_bar) (d' := no_bar).
  - rewrite length_map, length_seq. reflexivity.
  - intros i Hi. rewrite length_map, length_seq in Hi.
    rewrite (nth_indep _ no_bar (nth 0 df no_bar))
      by (rewrite length_map, length_seq; exact Hi).
    rewrite (map_nth (fun i => nth i df no_bar) (seq 0 (length df)) 0%nat i).
    rewrite seq_nth by exact Hi. reflexivity.
Qed.

Lemma indicator_row_of_bar (df : list Bar) (c : Bar) :
  In c df -> exists f, In f (calculate_indicators df) /\ bar f = c.
Proof.
  intro H. rewrite <- (bars_of_indicators df) in H.
  apply in_map_iff in H. destruct H as (f & Hf & Hin).
  exists f. split; assumption.
Qed.

Lemma bar_of_indicator_row (df : list Bar) (f : IndicatorFrame) :
  In f (calculate_indicators df) -> In (bar f) df.
Proof.
  intro H. pose proof (in_map bar _ _ H) as H'.
  rewrite bars_of_indicators in H'. exact H'.
Qed.

Lemma frame_of_combine_row (daily_df medium_df : list IndicatorFrame)
  (f : IndicatorFrame) :
  frame (combine_row daily_df medium_df f) = f.
Proof.
  unfold combine_row. cbv zeta. destruct (_ || _); reflexivity.
Qed.

Lemma asof_trend_of_candle (width : Z) (df : list Bar) (b : Bar) :
  (0 < width)%Z -> Forall whole_bar df -> In b df ->
  exists d,
    asof_trend (calculate_indicators (resample_width width df))
      (b_datetime b) = Fin d
    /\ -1 <= d <= 1.
Proof.
  intros Hw Hall Hb.
  destruct (asof_trend_cases (calculate_indicators (resample_width width df))
              (b_datetime b)) as [(_ & Hnone)|(f & Hf & _ & ->)].
  - exfalso.
    destruct (bar_has_candle width df b Hw Hall Hb) as (c & Hc & Ht).
    destruct (indicator_row_of_bar _ c Hc) as (f & Hf & Ef).
    specialize (Hnone f Hf). rewrite Ef in Hnone.
    apply Z.leb_gt in Hnone. lia.
  - exact (trend_strength_within _ f Hf).
Qed.

(** X17. On an hourly frame that is not empty and whose cells are all
    numbers, the daily and the four-hour frame resampled from it are not
    empty either -- so that no indicator computation meets an empty
    frame -- and [prepare_data] returns one row per hourly bar, in order.
    Each row has a combined trend in [-1, 1] and an alignment in [0, 1]:
    the two resampled frames always hold a row dated at or before the
    hourly bar, so no row is left without a trend. *)
Theorem prepared_rows_carry_a_trend (df : list Bar) :
  df <> [] -> Forall whole_bar df ->
  resample_width 86400 df <> []
  /\ resample_width 14400 df <> []
  /\ exists rows,
       prepare_data df = Some rows
       /\ map (fun r => bar (frame r)) rows = df
       /\ forall r, In r rows ->
            Spec.within (-1) 1 (combined_trend r)
            /\ Spec.within 0 1 (timeframe_alignment r).
Proof.
  intros Hne Hall.
  assert (Hcandle : forall width, (0 < width)%Z ->
                                  resample_width width df <> []).
  { intros width Hw. destruct df as [|b0 r]; [contradiction|].
    destruct (bar_has_candle width (b0 :: r) b0 Hw Hall
                (or_introl eq_refl)) as (c & Hc & _).
    intro E. rewrite E in Hc. destruct Hc. }
  split; [apply Hcandle; reflexivity|].
  split; [apply Hcandle; reflexivity|].
  eexists. split; [reflexivity|]. split.
  - unfold combine_timeframes. rewrite map_map.
    rewrite (map_ext _ bar) by (intro f; rewrite frame_of_combine_row;
                                reflexivity).
    apply bars_of_indicators.
  - intros r Hr. unfold combine_timeframes in Hr.
    apply in_map_iff in Hr. destruct Hr as (f & <- & Hf).
    pose proof (bar_of_indicator_row df f Hf) as Hb.
    unfold combine_row. cbv zeta.
    destruct (asof_trend_of_candle 86400 df (bar f) eq_refl Hall Hb)
      as (d & -> & Hd).
    destruct (asof_trend_of_candle 14400 df (bar f) eq_refl Hall Hb)
      as (m & -> & Hm).
    destruct (trend_strength_within df f Hf) as (l & -> & Hl).
    cbn [isna orb combined_trend timeframe_alignment].
    apply combine_within; assumption.
Qed.

Lemma prepared_rows_carry_a_trend_witness :
  exists rows,
    prepare_data MoreSamples.hourly_bars = Some rows
    /\ map (fun r => bar (frame r)) rows = MoreSamples.hourly_bars
    /\ forall r, In r rows ->
         Spec.within (-1) 1 (combined_trend r)
         /\ Spec.within 0 1 (timeframe_alignment r).
Proof.
  apply (prepared_rows_carry_a_trend MoreSamples.hourly_bars).
  - discriminate.
  - exact hourly_bars_whole.
Defined.

End Pipeline.

(** ** Runs without a signal *)

Section QuietRuns.

Import Pandas Strategy Backtester Resample.
Import Spec Props.

Lemma quiet_step (sp : Mode -> ModeParams) (st : State) (row : Row) :
  current_position st = None ->
  (forall sd, generate_signal sp row = Some sd ->
              is_entry (sd_signal sd) = false) ->
  exists curve,
    bar_step sp st row
    = ({| current_capital := current_capital st; trades := trades st;
          equity_curve := equity_curve st ++ curve;
          current_position := None |}, [])
    /\ Forall (fun ep => ep_equity ep = current_capital st) curve
    /\ length curve = 1%nat.
Proof.
  intros Hp Hq. unfold bar_step. cbv zeta.
  unfold handle_position. cbn [current_position]. rewrite Hp.
  unfold check_entry. cbn [current_position current_capital].
  eexists. split; [|split].
  - destruct (generate_signal sp row) as [sd|] eqn:E; [|reflexivity].
    rewrite (Hq sd eq_refl). reflexivity.
  - repeat constructor.
  - reflexivity.
Qed.

Lemma quiet_loop (sp : Mode -> ModeParams) (rows : list Row) :
  (forall r sd, In r rows -> generate_signal sp r = Some sd ->
                is_entry (sd_signal sd) = false) ->
  forall i st, current_position st = None ->
  exists curve,
    run_loop sp i rows st
    = ({| current_capital := current_capital st; trades := trades st;
          equity_curve := equity_curve st ++ curve;
          current_position := None |}, [])
    /\ Forall (fun ep => ep_equity ep = current_capital st) curve
    /\ length curve = length (skipn (250 - i) rows).
Proof.
  induction rows as [|row rest IH]; intros Hq i st Hp.
  - exists []. rewrite app_nil_r. split; [|split; [constructor|]].
    + cbn [run_loop]. destruct st; cbn in *. subst. reflexivity.
    + rewrite skipn_nil. reflexivity.
  - assert (Hrest : forall r sd, In r rest -> generate_signal sp r = Some sd ->
                                 is_entry (sd_signal sd) = false)
      by (intros r sd Hr; apply Hq; right; exact Hr).
    cbn [run_loop]. destruct (i <? 250)%nat eqn:Ei.
    + apply Nat.ltb_lt in Ei.
      destruct (IH Hrest (S i) st Hp) as (c & Hrun & Hc & Hlen).
      exists c. split; [exact Hrun|]. split; [exact Hc|].
      rewrite Hlen. replace (250 - i)%nat with (S (250 - S i)) by lia.
      reflexivity.
    + apply Nat.ltb_ge in Ei.
      destruct (quiet_step sp st row Hp
                  (fun sd => Hq row sd (or_introl eq_refl)))
        as (c1 & -> & Hc1 & Hl1).
      destruct (IH Hrest (S i)
                  {| current_capital := current_capital st;
                     trades := trades st;
                     equity_curve := equity_curve st ++ c1;
                     current_position := None |} eq_refl)
        as (c2 & -> & Hc2 & Hl2).
      cbn [current_capital trades equity_curve] in *.
      exists (c1 ++ c2). rewrite app_assoc. split; [reflexivity|].
      split; [apply Forall_app; split; assumption|].
      rewrite length_app, Hl1, Hl2.
      replace (250 - i)%nat with 0%nat by lia.
      replace (250 - S i)%nat with 0%nat by lia.
      reflexivity.
Qed.

(** X18. A run over rows none of which yields BUY or SELL opens nothing and
    closes nothing: no event, no trade, no position at the end, the capital
    is the initial capital and every point of the equity curve shows
    it. *)
Theorem run_without_signals_is_idle (sp : Mode -> ModeParams) (capital : fl)
  (rows : list Row) :
  (forall r sd, In r rows -> generate_signal sp r = Some sd ->
                is_entry (sd_signal sd) = false) ->
  exists curve,
    run_backtest sp capital rows
    = ({| current_capital := capital; trades := [];
          equity_curve := curve; current_position := None |}, [])
    /\ Forall (fun ep => ep_equity ep = capital) curve.
Proof.
  intro Hq. unfold run_backtest.
  destruct (quiet_loop sp rows Hq 0 (initial_state capital) eq_refl)
    as (curve & -> & Hc & _).
  exists curve. split; [|exact Hc].
  cbn [initial_state current_capital trades equity_curve app].
  destruct (rev rows); reflexivity.
Qed.

Lemma run_without_signals_is_idle_witness :
  exists curve,
    run_backtest params (Fin 10000) MoreSamples.quiet_rows
    = ({| current_capital := Fin 10000; trades := [];
          equity_curve := curve; current_position := None |}, [])
    /\ Forall (fun ep => ep_equity ep = Fin 10000) curve.
Proof.
  apply (run_without_signals_is_idle params (Fin 10000)
           MoreSamples.quiet_rows).
  intros r sd Hr Hsd. apply repeat_spec in Hr. subst r.
  vm_compute in Hsd. injection Hsd as <-. reflexivity.
Defined.

End QuietRuns.

(** ** A flat series through the whole backtest *)

Section FlatPipeline.

Import Pandas Strategy Backtester Resample.
Import Spec Props.

Lemma fold_max_constant (v : Q) (xs : list fl) :
  Forall (eq (Fin v)) xs -> fold_left max_skipna2 xs (Fin v) = Fin v.
Proof.
  induction 1 as [|x r <- Hr IH]; [reflexivity|].
  cbn [fold_left]. unfold max_skipna2 at 2. cbn [isna].
  destruct (Fin v <? Fin v)%fl; exact IH.
Qed.

Lemma fold_min_constant (v : Q) (xs : list fl) :
  Forall (eq (Fin v)) xs -> fold_left Metrics.min_skipna2 xs (Fin v) = Fin v.
Proof.
  induction 1 as [|x r <- Hr IH]; [reflexivity|].
  cbn [fold_left]. unfold Metrics.min_skipna2 at 2. cbn [isna].
  destruct (Fin v <? Fin v)%fl; exact IH.
Qed.

Lemma constant_column (v : Q) (f : Bar -> fl) (g : list Bar) :
  Forall (fun b => f b = Fin v) g -> Forall (eq (Fin v)) (map f g).
Proof.
  intro H. apply Forall_forall. intros x Hx. apply in_map_iff in Hx.
  destruct Hx as (b & <- & Hb). rewrite Forall_forall in H.
  symmetry. apply H. exact Hb.
Qed.

Lemma first_valid_constant (v : Q) (xs : list fl) :
  xs <> [] -> Forall (eq (Fin v)) xs -> first_valid xs = Fin v.
Proof.
  intros Hne H. destruct H as [|x r <- Hr]; [contradiction|]. reflexivity.
Qed.

Lemma flat_bin (width : Z) (v : Q) (sorted : list Bar) (k : Z) :
  flat v sorted ->
  complete (resample_bin width sorted k) = true ->
  let c := resample_bin width sorted k in
  b_open c = Fin v /\ b_high c = Fin v /\ b_low c = Fin v /\ b_close c = Fin v.
Proof.
  intros Hflat Hc c. subst c. unfold resample_bin in *. cbv zeta in *.
  set (group := filter (fun b => (bucket width (b_datetime b) =? k)%Z) sorted)
    in *.
  assert (Hg : flat v group).
  { apply Forall_forall. intros x Hx. apply filter_In in Hx.
    unfold flat in Hflat. rewrite Forall_forall in Hflat. apply Hflat.
    apply Hx. }
  clearbody group. destruct group as [|g0 r].
  { cbn in Hc. discriminate Hc. }
  unfold flat in Hg.
  assert (Ho : Forall (eq (Fin v)) (map b_open (g0 :: r))).
  { apply constant_column. eapply Forall_impl; [|exact Hg]. cbn. tauto. }
  assert (Hh : Forall (eq (Fin v)) (map b_high (g0 :: r))).
  { apply constant_column. eapply Forall_impl; [|exact Hg]. cbn. tauto. }
  assert (Hl : Forall (eq (Fin v)) (map b_low (g0 :: r))).
  { apply constant_column. eapply Forall_impl; [|exact Hg]. cbn. tauto. }
  assert (Hcl : Forall (eq (Fin v)) (map b_close (g0 :: r))).
  { apply constant_column. eapply Forall_impl; [|exact Hg]. cbn. tauto. }
  cbn [b_open b_high b_low b_close]. split; [|split; [|split]].
  - apply first_valid_constant; [discriminate|exact Ho].
  - unfold max_skipna. cbn [map fold_left] in *.
    inversion Hh as [|? ? E Hr]; subst. rewrite <- E.
    unfold max_skipna2 at 2. cbn [isna]. apply fold_max_constant. exact Hr.
  - unfold Metrics.min_skipna. cbn [map fold_left] in *.
    inversion Hl as [|? ? E Hr]; subst. rewrite <- E.
    unfold Metrics.min_skipna2 at 2. cbn [isna].
    apply fold_min_constant. exact Hr.
  - unfold last_valid. apply first_valid_constant.
    + intro E. apply (f_equal (@rev fl)) in E. rewrite rev_involutive in E.
      discriminate E.
    + apply Forall_rev. exact Hcl.
Qed.

Lemma flat_sorted (v : Q) (df : list Bar) :
  flat v df -> flat v (sort_bars df).
Proof.
  unfold flat. intro H. apply Forall_forall. intros x Hx.
  rewrite Forall_forall in H. apply H. exact (proj1 (sort_bars_in x df) Hx).
Qed.

Lemma flat_resampled (width : Z) (v : Q) (df : list Bar) :
  flat v df -> flat v (resample_width width df).
Proof.
  intro H. unfold resample_width. cbv zeta. apply Forall_forall.
  intros c Hc. apply filter_In in Hc. destruct Hc as (Hc & Hcomplete).
  apply in_map_iff in Hc. destruct Hc as (k & <- & _).
  apply flat_bin; [apply flat_sorted; exact H|exact Hcomplete].
Qed.

Lemma flat_filtered (v : Q) (start_date end_date : option Z) (df : list Bar) :
  flat v df -> flat v (filter_dates start_date end_date df).
Proof.
  unfold flat, filter_dates. intro H.
  assert (Hf : forall (f : Bar -> bool) l,
             Forall (fun b => b_open b = Fin v /\ b_high b = Fin v
                              /\ b_low b = Fin v /\ b_close b = Fin v) l ->
             Forall (fun b => b_open b = Fin v /\ b_high b = Fin v
                              /\ b_low b = Fin v /\ b_close b = Fin v)
               (filter f l)).
  { intros f l Hl. apply Forall_forall. intros x Hx. apply filter_In in Hx.
    rewrite Forall_forall in Hl. apply Hl. apply Hx. }
  destruct start_date, end_date; repeat apply Hf; exact H.
Qed.

(** X19. The whole backtest on a flat hourly series whose cells are all
    numbers, under date filters that leave some bar: the resampled daily
    and four-hour frames are flat as well, no row yields a signal under
    thresholds above 0.15, and the run ends without an event or a trade;
    the equity curve has one point for each bar past the first 250 left by
    the filters, and every point shows the initial capital. *)
Theorem flat_series_backtest_is_idle (v : Q) (sp : Mode -> ModeParams)
  (capital : fl) (start_date end_date : option Z) (df : list Bar) :
  flat v df -> Forall whole_bar df ->
  filter_dates start_date end_date df <> [] ->
  (forall m, threshold_above 0.15 (sp m)) ->
  exists curve,
    backtest sp capital start_date end_date df
    = Some ({| current_capital := capital; trades := [];
               equity_curve := curve; current_position := None |}, [])
    /\ Forall (fun ep => ep_equity ep = capital) curve
    /\ length curve
       = (length (filter_dates start_date end_date df) - 250)%nat.
Proof.
  intros Hflat _ _ Hthr. unfold backtest.
  pose proof (flat_filtered v start_date end_date df Hflat) as Hf.
  set (bars := filter_dates start_date end_date df) in *. clearbody bars.
  change (prepare_data bars)
    with (Some (combine_timeframes
                  (calculate_indicators (resample_width 86400 bars))
                  (calculate_indicators (resample_width 14400 bars))
                  (calculate_indicators bars))).
  set (rows := combine_timeframes _ _ _).
  assert (Hlen : length rows = length bars).
  { unfold rows, combine_timeframes.
    rewrite length_map. apply calculate_indicators_length. }
  assert (Hq : forall r sd, In r rows -> generate_signal sp r = Some sd ->
                            is_entry (sd_signal sd) = false).
  { intros r sd Hr Hsd.
    pose proof (flat_combined_trend v v v _ _ _ r
                  (flat_resampled 86400 v bars Hf)
                  (flat_resampled 14400 v bars Hf) Hf Hr) as Hc.
    rewrite (generate_signal_signal sp r sd Hsd). cbv zeta.
    destruct Hc as [Hn|He].
    - rewrite (generate_signal_absent sp r Hn) in Hsd. discriminate.
    - destruct (Hthr (sd_mode sd)) as (q & -> & Hq).
      rewrite (abs_below_threshold _ q He Hq). reflexivity. }
  unfold run_backtest.
  destruct (quiet_loop sp rows Hq 0 (initial_state capital) eq_refl)
    as (curve & -> & Hc & Hl).
  exists curve. split; [|split; [exact Hc|]].
  - cbn [initial_state current_capital trades equity_curve app].
    destruct (rev rows); reflexivity.
  - rewrite Hl, length_skipn, Hlen. reflexivity.
Qed.

Lemma flat_hours_flat : flat 1 MoreSamples.flat_hours.
Proof.
  apply Forall_forall. intros b Hb. apply in_map_iff in Hb.
  destruct Hb as (i & <- & _). repeat split.
Qed.

Lemma flat_hours_whole : Forall whole_bar MoreSamples.flat_hours.
Proof.
  apply Forall_forall. intros b Hb. apply in_map_iff in Hb.
  destruct Hb as (i & <- & _). unfold whole_bar. cbn.
  repeat split; eexists; reflexivity.
Qed.

(** Three hundred flat hours: the simulation runs over the last fifty. *)
Lemma flat_series_backtest_is_idle_witness :
  exists curve,
    backtest params (Fin 10000) None None MoreSamples.flat_hours
    = Some ({| current_capital := Fin 10000; trades := [];
               equity_curve := curve; current_position := None |}, [])
    /\ Forall (fun ep => ep_equity ep = Fin 10000) curve
    /\ length curve = 50%nat.
Proof.
  apply (flat_series_backtest_is_idle 1 params (Fin 10000) None None
           MoreSamples.flat_hours).
  - exact flat_hours_flat.
  - exact flat_hours_whole.
  - discriminate.
  - intro m. destruct m; exists 0.2; split; reflexivity.
Defined.

End FlatPipeline.

(** ** The earlier simulator *)

Section LegacyRuns.

Import Legacy.
Import Props.

Lemma exit_keeps_most (p : Params) (eq : Q) (h : Holding) (signal : Signal)
  (row : Row) (label : Exit) (pnl : fl) :
  0 < eq -> bracketed h -> tradable row ->
  (exists r, lg_risk_per_trade p = Fin r /\ 0 < r <= 0.04) ->
  exit_of p (Fin eq) h signal row = Some (label, pnl) ->
  exists e', (Fin eq + pnl)%fl = Fin e' /\ 0.96 * eq <= e'.
Proof.
  intros Heq (e & s & t & He & Hs & Ht & Hdir) (l & c & hi & a & Hl & Hc & Hh
    & _ & Hlch & _) (r & Hr & Hr0) Hexit.
  unfold exit_of in Hexit. cbv zeta in Hexit.
  rewrite He, Hs, Ht, Hl, Hc, Hh, Hr in Hexit.
  destruct (lg_trade_direction h); [| |contradiction].
  - destruct (Fin l <=? Fin s)%fl eqn:E1; fl_prop.
    { injection Hexit as _ <-. eexists. split; [reflexivity|].
      assert (H2 : 0 <= (0.04 - r) * eq)
        by (apply Qmult_le_0_compat; lra).
      lra. }
    assert (Hes : ~ e - s == 0) by lra.
    destruct (Fin hi >=? Fin t)%fl eqn:E2; fl_prop.
    { injection Hexit as _ <-. cbn [Fl.sub Fl.add Fl.neg Fl.mul Fl.div].
      rewrite (Qeq_bool_false (e + - s) 0) by exact Hes.
      eexists. split; [reflexivity|].
      assert (Hk : 0 < (t + - e) / (e + - s))
        by (apply Qlt_shift_div_l; lra).
      set (k := (t + - e) / (e + - s)) in *.
      assert (0 <= r * eq * k)
        by (apply Qmult_le_0_compat; [apply Qmult_le_0_compat|]; lra).
      lra. }
    destruct signal; try discriminate Hexit.
    injection Hexit as _ <-. cbn [Fl.sub Fl.add Fl.neg Fl.mul Fl.div].
    rewrite (Qeq_bool_false (e + - s) 0) by exact Hes.
    eexists. split; [reflexivity|].
    assert (Hk : -1 < (c + - e) / (e + - s))
      by (apply lt_div_iff; lra).
    set (k := (c + - e) / (e + - s)) in *.
    assert (H1 : 0 <= (k + 1) * (r * eq))
      by (apply Qmult_le_0_compat; [|apply Qmult_le_0_compat]; lra).
    assert (H2 : 0 <= (0.04 - r) * eq)
      by (apply Qmult_le_0_compat; lra).
    lra.
  - destruct (Fin hi >=? Fin s)%fl eqn:E1; fl_prop.
    { injection Hexit as _ <-. eexists. split; [reflexivity|].
      assert (H2 : 0 <= (0.04 - r) * eq)
        by (apply Qmult_le_0_compat; lra).
      lra. }
    assert (Hes : ~ s - e == 0) by lra.
    destruct (Fin l <=? Fin t)%fl eqn:E2; fl_prop.
    { injection Hexit as _ <-. cbn [Fl.sub Fl.add Fl.neg Fl.mul Fl.div].
      rewrite (Qeq_bool_false (s + - e) 0) by exact Hes.
      eexists. split; [reflexivity|].
      assert (Hk : 0 < (e + - t) / (s + - e))
        by (apply Qlt_shift_div_l; lra).
      set (k := (e + - t) / (s + - e)) in *.
      assert (0 <= r * eq * k)
        by (apply Qmult_le_0_compat; [apply Qmult_le_0_compat|]; lra).
      lra. }
    destruct signal; try discriminate Hexit.
    injection Hexit as _ <-. cbn [Fl.sub Fl.add Fl.neg Fl.mul Fl.div].
    rewrite (Qeq_bool_false (s + - e) 0) by exact Hes.
    eexists. split; [reflexivity|].
    assert (Hk : -1 < (e + - c) / (s + - e))
      by (apply lt_div_iff; lra).
    set (k := (e + - c) / (s + - e)) in *.
    assert (H1 : 0 <= (k + 1) * (r * eq))
      by (apply Qmult_le_0_compat; [|apply Qmult_le_0_compat]; lra).
    assert (H2 : 0 <= (0.04 - r) * eq)
      by (apply Qmult_le_0_compat; lra).
    lra.
Qed.

Lemma mode_numbers (m : Mode) :
  exists r k,
    lg_risk_per_trade (params m) = Fin r /\ 0 < r <= 0.04
    /\ lg_profit_target_multiplier (params m) = Fin k /\ 0 < k.
Proof.
  destruct m; cbn; do 2 eexists;
    (split; [reflexivity|]); (split; [|split; [reflexivity|]]); lra.
Qed.

Lemma step_keeps_most (st : State) (row : Row) (e : Q) :
  sound st -> tradable row -> current_equity st = Fin e ->
  exists e',
    current_equity (fst (step st row)) = Fin e'
    /\ o_equity (snd (step st row)) = Fin e'
    /\ 0.96 * e <= e'
    /\ sound (fst (step st row)).
Proof.
  intros Hsound Hrow He.
  assert (Hpos : 0 < e).
  { destruct Hsound as ((e0 & He0 & Hp) & _). rewrite He in He0.
    injection He0 as ->. exact Hp. }
  assert (Hsame : 0.96 * e <= e) by lra.
  unfold step. cbv zeta.
  destruct (isna (combined_trend row) || isna (timeframe_alignment row)).
  { exists e. cbn [fst snd default_cells o_equity].
    split; [exact He|]. split; [exact He|]. split; assumption. }
  set (mode := if (_ >=? Fin 0.5)%fl then aggressive else conservative).
  clearbody mode.
  destruct (mode_numbers mode) as (r & k & Hr & Hr0 & Hk & Hk0).
  destruct (signal_under (params mode) _ _ _) as [signal confidence].
  destruct (in_position st) as [h|] eqn:Eh.
  - assert (Hbr : bracketed h).
    { destruct Hsound as (_ & Hh). rewrite Eh in Hh. exact Hh. }
    rewrite He.
    destruct (exit_of (params mode) (Fin e) h signal row)
      as [[label pnl]|] eqn:Ex.
    + destruct (exit_keeps_most (params mode) e h signal row label pnl
                  Hpos Hbr Hrow (ex_intro _ r (conj Hr Hr0)) Ex)
        as (e' & -> & He').
      exists e'. cbn [fst snd current_equity o_equity].
      split; [reflexivity|]. split; [reflexivity|]. split; [exact He'|].
      split; [|exact I]. exists e'. split; [reflexivity|lra].
    + exists e. cbn [fst snd o_equity].
      split; [exact He|]. split; [reflexivity|]. split; assumption.
  - destruct Hrow
      as (l & c & hi & a & Hl & Hc & Hh & Ha & Hlch & _ & (Ha1 & _) & _).
    assert (Ha0 : 0 < a) by lra.
    destruct signal.
    + rewrite Hc, Ha, Hk, He. cbn [Fl.sub Fl.add Fl.neg Fl.mul Fl.abs].
      exists e. cbn [fst snd current_equity o_equity].
      split; [reflexivity|]. split; [reflexivity|]. split; [exact Hsame|].
      split; [exists e; split; [reflexivity|exact Hpos]|].
      cbn [in_position]. do 3 eexists.
      cbn [lg_entry_price lg_stop_loss lg_take_profit lg_trade_direction].
      split; [reflexivity|]. split; [reflexivity|]. split; [reflexivity|].
      split; nra.
    + rewrite Hc, Ha, Hk, He. cbn [Fl.sub Fl.add Fl.neg Fl.mul Fl.abs].
      exists e. cbn [fst snd current_equity o_equity].
      split; [reflexivity|]. split; [reflexivity|]. split; [exact Hsame|].
      split; [exists e; split; [reflexivity|exact Hpos]|].
      cbn [in_position]. do 3 eexists.
      cbn [lg_entry_price lg_stop_loss lg_take_profit lg_trade_direction].
      split; [reflexivity|]. split; [reflexivity|]. split; [reflexivity|].
      split; nra.
    + exists e. cbn [fst snd o_equity].
      split; [exact He|]. split; [exact He|]. split; assumption.
Qed.

Lemma run_from_keeps_most (rows : list Row) :
  forall st e,
    sound st -> Forall tradable rows -> current_equity st = Fin e ->
    exists es,
      map o_equity (snd (run_from st rows)) = map Fin es
      /\ length es = length rows
      /\ falls_within 0.96 e es.
Proof.
  induction rows as [|row rest IH]; intros st e Hsound Hrows He.
  - exists []. repeat split.
  - inversion Hrows as [|? ? Hrow Hrest]; subst.
    destruct (step_keeps_most st row e Hsound Hrow He)
      as (e' & He' & Hcell & Hfall & Hsound').
    cbn [run_from]. destruct (step st row) as [st1 c].
    cbn [fst snd] in *.
    destruct (IH st1 e' Hsound' Hrest He') as (es & Hes & Hlen & Hchain).
    destruct (run_from st1 rest) as [st2 cs]. cbn [snd] in *.
    exists (e' :: es). cbn [map length falls_within].
    rewrite Hcell, Hes, Hlen. repeat split; assumption.
Qed.

Lemma falls_within_positive (es : list Q) :
  forall m, 0 < m -> falls_within 0.96 m es -> Forall (fun e => 0 < e) es.
Proof.
  induction es as [|e r IH]; intros m Hm H; [constructor|].
  destruct H as (He & Hr).
  assert (Hpos : 0 < e) by lra.
  constructor; [exact Hpos|]. exact (IH e Hpos Hr).
Qed.

Lemma falls_within_constant (m : Q) (n : nat) (es : list Q) :
  0 < m -> falls_within 0.96 m es ->
  falls_within 0.96 m (repeat m n ++ es).
Proof.
  intros Hm H. induction n as [|n IH]; [exact H|].
  cbn [repeat app falls_within]. split; [lra|exact IH].
Qed.

(** X20. In the earlier simulator, on a frame of at most 5200 rows whose
    rows from index 200 on have ordered numbers for low, close and high and
    a close and an ATR of moderate size, the close at most a million ATRs,
    an initial equity of moderate size stays positive: the equity column
    holds one number per row, each at least 96% of the one before it,
    whether the bar hits the stop, hits the target, reverses the signal or
    does nothing.  (The bounds keep the stop and the target off the entry
    in float64 and the compounded equity within its range.) *)
Theorem legacy_equity_falls_at_most_four_percent_a_bar (df : list Row)
  (e0 : Q) :
  Domain.moderate e0 -> (Z.of_nat (length df) <= 5200)%Z ->
  Forall tradable (skipn 200 df) ->
  exists es,
    map o_equity (generate_signals_with_compounding_and_reversal df (Fin e0))
    = map Fin es
    /\ length es = length df
    /\ falls_within 0.96 e0 es
    /\ Forall (fun e => 0 < e) es.
Proof.
  intros (He1 & _) _ Hrows.
  assert (He0 : 0 < e0) by lra.
  unfold generate_signals_with_compounding_and_reversal.
  set (st0 := {| current_equity := Fin e0; in_position := None |}).
  assert (Hsound : sound st0).
  { split; [exists e0; split; [reflexivity|exact He0]|exact I]. }
  destruct (run_from_keeps_most (skipn 200 df) st0 e0 Hsound Hrows eq_refl)
    as (es & Hes & Hlen & Hchain).
  assert (Hall : falls_within 0.96 e0
                   (repeat e0 (length (firstn 200 df)) ++ es))
    by (apply falls_within_constant; assumption).
  exists (repeat e0 (length (firstn 200 df)) ++ es).
  split; [|split; [|split]].
  - rewrite !map_app, Hes. f_equal. rewrite map_map.
    cbn [default_cells o_equity].
    generalize (firstn 200 df) as l.
    induction l as [|x l IHl]; [reflexivity|].
    cbn [map length repeat]. rewrite IHl. reflexivity.
  - rewrite length_app, repeat_length, Hlen, <- length_app, firstn_skipn.
    reflexivity.
  - exact Hall.
  - exact (falls_within_positive _ e0 He0 Hall).
Qed.

Lemma row_of_tradable (t : Z) (p a : Q) (v tr al : fl) :
  Domain.moderate p -> Domain.moderate a -> Domain.resolves p a ->
  tradable (Samples.row_of t (Fin p) (Fin a) v tr al).
Proof.
  intros Hp Ha Hr. exists p, p, p, a.
  split; [reflexivity|]. split; [reflexivity|]. split; [reflexivity|].
  split; [reflexivity|]. split; [split; apply Qle_refl|].
  split; [exact Hp|]. split; [exact Ha|exact Hr].
Qed.

Lemma stopped_out_tradable : Forall tradable (skipn 200 Samples.stopped_out).
Proof.
  assert (H : Forall tradable Samples.stopped_out).
  { unfold Samples.stopped_out. apply Forall_app. split.
    - apply Forall_forall. intros r Hr. apply repeat_spec in Hr. subst r.
      apply row_of_tradable;
        unfold Domain.moderate, Domain.resolves; lra.
    - repeat constructor; apply row_of_tradable;
        unfold Domain.moderate, Domain.resolves; lra. }
  rewrite <- (firstn_skipn 200 Samples.stopped_out) in H.
  apply Forall_app in H. apply H.
Qed.

Lemma legacy_equity_falls_at_most_four_percent_a_bar_witness :
  exists es,
    map o_equity
      (generate_signals_with_compounding_and_reversal Samples.stopped_out
         (Fin 10000))
    = map Fin es
    /\ length es = length Samples.stopped_out
    /\ falls_within 0.96 10000 es
    /\ Forall (fun e => 0 < e) es.
Proof.
  apply (legacy_equity_falls_at_most_four_percent_a_bar Samples.stopped_out
           10000).
  - unfold Domain.moderate. lra.
  - vm_compute. discriminate.
  - exact stopped_out_tradable.
Defined.

(** X21. In the earlier simulator the signal cell of a row is BUY or SELL
    exactly when the row opens a trade from flat, in that direction and at
    the row's close; the exit cell is written exactly when the row closes
    the open trade, and such a row never opens another, a signal reversal
    included; the equity changes on exit rows only. *)
Theorem legacy_cells_mark_entries_and_exits (st : State) (row : Row) :
  let st' := fst (step st row) in
  let c := snd (step st row) in
  (o_signal c <> NEUTRAL <->
   in_position st = None
   /\ exists h, in_position st' = Some h
                /\ lg_trade_direction h = o_signal c
                /\ lg_entry_price h = close row)
  /\ (o_exit_signal c <> None <->
      (exists h, in_position st = Some h) /\ in_position st' = None)
  /\ (o_exit_signal c = None -> current_equity st' = current_equity st).
Proof.
  unfold step. cbv zeta.
  destruct (isna (combined_trend row) || isna (timeframe_alignment row)).
  { cbn [fst snd default_cells o_signal o_exit_signal].
    split; [|split; [|reflexivity]]; split.
    - intro H. contradiction.
    - intros (Hn & h & Hh & _). congruence.
    - intro H. contradiction.
    - intros ((h & Hh) & Hn). congruence. }
  set (mode := if (_ >=? Fin 0.5)%fl then aggressive else conservative).
  clearbody mode.
  destruct (signal_under (params mode) _ _ _) as [signal confidence].
  destruct (in_position st) as [h|] eqn:Eh.
  - destruct (exit_of _ _ h signal row) as [[label pnl]|];
      cbn [fst snd o_signal o_exit_signal in_position current_equity].
    + split; [|split; [|discriminate]]; split.
      * intro H. contradiction.
      * intros (Hn & _). discriminate Hn.
      * intros _. split; [exists h; reflexivity|reflexivity].
      * intros _. discriminate.
    + rewrite Eh. split; [|split; [|reflexivity]]; split.
      * intro H. contradiction.
      * intros (Hn & _). discriminate Hn.
      * intro H. contradiction.
      * intros (_ & Hn). discriminate Hn.
  - destruct signal;
      cbn [fst snd o_signal o_exit_signal in_position current_equity];
      rewrite ?Eh; (split; [|split; [|reflexivity]]); split;
      try (intro H; contradiction);
      try (intros ((h & Hh) & _); discriminate Hh);
      try (intros (_ & h & Hh & _); discriminate Hh);
      try (intros _; discriminate).
    + intros _. split; [reflexivity|]. eexists. split; [reflexivity|].
      split; reflexivity.
    + intros _. split; [reflexivity|]. eexists. split; [reflexivity|].
      split; reflexivity.
Qed.

End LegacyRuns.

(** ** Average win and average loss *)

Section Averages.

Import Backtester Metrics.
Import Spec.

Lemma count_positive (n : nat) :
  (0 < n)%nat -> exists q, count n = Fin q /\ 0 < q.
Proof.
  intro H. unfold count. eexists. split; [reflexivity|].
  rewrite <- (Zlt_Qlt 0). lia.
Qed.

Lemma add_nonnegative_positive (a b : fl) :
  (a >=? Fin 0)%fl = true -> (b >? Fin 0)%fl = true ->
  ((a + b)%fl >? Fin 0)%fl = true.
Proof.
  destruct a as [x| | |], b as [y| | |]; simpl; intros Ha Hb;
    try discriminate; try reflexivity.
  fl_prop. apply gtb_fin. lra.
Qed.

Lemma positive_nonnegative (a : fl) :
  (a >? Fin 0)%fl = true -> (a >=? Fin 0)%fl = true.
Proof.
  destruct a as [x| | |]; simpl; intros Ha; try discriminate;
    try reflexivity.
  fl_prop. apply geb_fin. lra.
Qed.

Lemma fold_add_positive (l : list fl) :
  forall acc,
    Forall (fun x => (x >? Fin 0)%fl = true) l ->
    (acc >=? Fin 0)%fl = true ->
    (fold_left Fl.add l acc >=? Fin 0)%fl = true
    /\ (l <> [] -> (fold_left Fl.add l acc >? Fin 0)%fl = true).
Proof.
  induction l as [|x r IH]; intros acc Hall Hacc.
  - split; [exact Hacc|intro H; contradiction].
  - inversion Hall as [|? ? Hx Hr]; subst. cbn [fold_left].
    pose proof (add_nonnegative_positive acc x Hacc Hx) as Hs.
    pose proof (positive_nonnegative _ Hs) as Hs'.
    destruct (IH _ Hr Hs') as (H1 & H2). split; [exact H1|].
    intros _. destruct r as [|y r']; [exact Hs|].
    apply H2. discriminate.
Qed.

Lemma mean_of_positive (xs : list fl) :
  xs <> [] -> Forall (fun x => (x >? Fin 0)%fl = true) xs ->
  (mean xs >? Fin 0)%fl = true.
Proof.
  intros Hne Hall. unfold mean, sum.
  destruct (fold_add_positive xs (Fin 0) Hall eq_refl) as (_ & Hpos).
  specialize (Hpos Hne).
  destruct (count_positive (length xs)) as (n & -> & Hn).
  { destruct xs; [contradiction|cbn; lia]. }
  destruct (fold_left Fl.add xs (Fin 0)) as [s| | |]; try discriminate Hpos.
  - fl_prop. rewrite (div_fin s n) by lra. apply gtb_fin.
    apply Qlt_shift_div_l; lra.
  - cbn [Fl.div].
    assert (E : Qltb n 0 = false).
    { destruct (Qltb n 0) eqn:E; [|reflexivity]. apply Qltb_lt in E. lra. }
    rewrite E. reflexivity.
Qed.

Lemma mean_of_negative (xs : list fl) :
  xs <> [] -> Forall negative xs -> (mean xs <? Fin 0)%fl = true.
Proof.
  intros Hne Hall. unfold mean, sum.
  pose proof (fold_add_negative xs (Fin 0) Hall Hne eq_refl) as Hneg.
  unfold negative in Hneg.
  destruct (count_positive (length xs)) as (n & -> & Hn).
  { destruct xs; [contradiction|cbn; lia]. }
  destruct (fold_left Fl.add xs (Fin 0)) as [s| | |]; try discriminate Hneg.
  - fl_prop. rewrite (div_fin s n) by lra. apply ltb_fin.
    apply div_lt_iff; lra.
  - cbn [Fl.div].
    assert (E : Qltb n 0 = false).
    { destruct (Qltb n 0) eqn:E; [|reflexivity]. apply Qltb_lt in E. lra. }
    rewrite E. reflexivity.
Qed.

(** X22. The average win is positive exactly when some trade has a positive
    P&L and the average loss is negative exactly when some trade has a
    negative one; without such a trade the figure is 0. *)
Theorem averages_carry_their_sign (trades_df : list Trade) :
  ((avg_win trades_df >? Fin 0)%fl = true <->
   exists t, In t trades_df /\ win_flag t = true)
  /\ ((avg_loss trades_df <? Fin 0)%fl = true <->
      exists t, In t trades_df /\ loss_flag t = true)
  /\ ((forall t, In t trades_df -> win_flag t = false) ->
      avg_win trades_df = Fin 0)
  /\ ((forall t, In t trades_df -> loss_flag t = false) ->
      avg_loss trades_df = Fin 0).
Proof.
  unfold avg_win, avg_loss.
  assert (Hcol : forall (f : Trade -> bool) (P : fl -> Prop),
            (forall t, f t = true -> P (pnl_dollar t)) ->
            Forall P (map pnl_dollar (filter f trades_df))).
  { intros f P HP. apply Forall_forall. intros x Hx.
    apply in_map_iff in Hx. destruct Hx as (t & <- & Ht).
    apply filter_In in Ht. apply HP. apply Ht. }
  assert (Hex : forall (f : Trade -> bool) t0 r,
            filter f trades_df = t0 :: r ->
            exists t, In t trades_df /\ f t = true).
  { intros f t0 r E. exists t0. apply filter_In. rewrite E. left.
    reflexivity. }
  assert (Hnone : forall (f : Trade -> bool),
            filter f trades_df = [] ->
            forall t, In t trades_df -> f t = true -> False).
  { intros f E t Ht Hf.
    assert (Hin : In t (filter f trades_df))
      by (apply filter_In; split; assumption).
    rewrite E in Hin. destruct Hin. }
  split; [|split; [|split]].
  - destruct (filter win_flag trades_df) as [|t0 r] eqn:E.
    + split; [discriminate|]. intros (t & Ht & Hw).
      destruct (Hnone _ E t Ht Hw).
    + split; [intros _; exact (Hex _ _ _ E)|]. intros _.
      rewrite <- E. apply mean_of_positive.
      * rewrite E. discriminate.
      * apply Hcol. intros t Ht. exact Ht.
  - destruct (filter loss_flag trades_df) as [|t0 r] eqn:E.
    + split; [discriminate|]. intros (t & Ht & Hw).
      destruct (Hnone _ E t Ht Hw).
    + split; [intros _; exact (Hex _ _ _ E)|]. intros _.
      rewrite <- E. apply mean_of_negative.
      * rewrite E. discriminate.
      * apply Hcol. intros t Ht. exact Ht.
  - intro H. destruct (filter win_flag trades_df) as [|t0 r] eqn:E;
      [reflexivity|].
    destruct (Hex _ _ _ E) as (t & Ht & Hw). rewrite (H t Ht) in Hw.
    discriminate.
  - intro H. destruct (filter loss_flag trades_df) as [|t0 r] eqn:E;
      [reflexivity|].
    destruct (Hex _ _ _ E) as (t & Ht & Hw). rewrite (H t Ht) in Hw.
    discriminate.
Qed.

Lemma averages_carry_their_sign_witness :
  (avg_win [Samples.trade_of (Fin 5); Samples.trade_of (Fin (-3))]
   >? Fin 0)%fl = true.
Proof.
  apply (proj1 (averages_carry_their_sign
                  [Samples.trade_of (Fin 5); Samples.trade_of (Fin (-3))])).
  eexists. split; [left; reflexivity|reflexivity].
Defined.

End Averages.

(** ** When the live sizing fails *)

Section LiveSizingFailure.

Import Strategy Live.

Lemma rounded_leverage_defined (lev : fl) :
  lev <> NaN ->
  exists k,
    to_int (if (lev <? min_leverage)%fl then min_leverage
            else py_min (ceil lev) max_leverage) = Some k.
Proof.
  destruct lev as [q| | |]; intro H.
  - apply rounded_leverage_of_finite.
  - eexists. reflexivity.
  - eexists. reflexivity.
  - contradiction.
Qed.

Lemma raw_leverage_defined (r q e d : Q) :
  0 < r -> 0 < q -> 0 < e ->
  ((Fin r * Fin q / Fin (Qabs d)) * Fin e / Fin q)%fl <> NaN.
Proof.
  intros Hr Hq He. cbn [Fl.mul Fl.div].
  assert (Hq0 : Qeq_bool q 0 = false) by (apply Qeq_bool_false; lra).
  assert (Hqn : Qltb q 0 = false).
  { destruct (Qltb q 0) eqn:E; [|reflexivity]. apply Qltb_lt in E. lra. }
  destruct (Qeq_bool (Qabs d) 0).
  - unfold signed_inf. assert (Hpos : 0 < r * q) by nra.
    apply Qgt_alt in Hpos. rewrite Hpos. cbn [Fl.mul].
    unfold signed_inf. apply Qgt_alt in He. rewrite He. cbn [Fl.div].
    rewrite Hqn. discriminate.
  - cbn [Fl.mul Fl.div]. rewrite Hq0. discriminate.
Qed.

(** X23. With a positive entry, equity, risk and target multiple, the live
    sizing fails -- [int] raises on a NaN leverage -- exactly when the ATR
    is missing; a zero, negative or infinite ATR is sized. *)
Theorem live_sizing_raises_iff_atr_missing (current_params : ModeParams)
  (signal : Signal) (atr : fl) (e q r m : Q) :
  0 < e -> 0 < q -> 0 < r -> 0 < m ->
  risk_per_trade current_params = Fin r ->
  profit_target_multiplier current_params = Fin m ->
  (size_position current_params (Fin q) signal atr (Fin e) = None
   <-> atr = NaN).
Proof.
  intros He Hq Hr Hm Hrisk Hmult.
  assert (Hsome : forall lev (f : Z -> Sizing),
            lev <> NaN ->
            match to_int (if (lev <? min_leverage)%fl then min_leverage
                          else py_min (ceil lev) max_leverage) with
            | Some n => Some (f n)
            | None => None
            end <> None).
  { intros lev f Hlev. destruct (rounded_leverage_defined lev Hlev) as (k & ->).
    discriminate. }
  assert (Hzero : (Fin r * Fin q / PInf * Fin e / Fin q)%fl <> NaN).
  { cbn [Fl.mul Fl.div].
    rewrite (Qeq_bool_false q 0) by lra. discriminate. }
  unfold size_position. rewrite Hrisk, Hmult.
  destruct atr as [a| | |].
  - split; [|discriminate]. intro H. exfalso. revert H.
    destruct signal; cbv zeta; cbn [Fl.sub Fl.add Fl.neg Fl.mul Fl.abs];
      apply Hsome; apply raw_leverage_defined; assumption.
  - split; [|discriminate]. intro H. exfalso. revert H.
    destruct signal; cbv zeta; cbn [Fl.mul]; unfold signed_inf;
      cbn [Qcompare Z.compare Qnum Qden Z.mul Pos.mul Pos.compare
           Pos.compare_cont];
      cbn [Fl.sub Fl.add Fl.neg Fl.abs]; apply Hsome; exact Hzero.
  - split; [|discriminate]. intro H. exfalso. revert H.
    destruct signal; cbv zeta; cbn [Fl.mul]; unfold signed_inf;
      cbn [Qcompare Z.compare Qnum Qden Z.mul Pos.mul Pos.compare
           Pos.compare_cont Qopp Z.opp];
      cbn [Fl.sub Fl.add Fl.neg Fl.abs]; apply Hsome; exact Hzero.
  - split; [reflexivity|]. intros _. destruct signal; reflexivity.
Qed.

Lemma live_sizing_raises_iff_atr_missing_witness :
  size_position (params conservative) (Fin 1000) BUY NaN (Fin 0.5) = None.
Proof.
  apply (proj2 (live_sizing_raises_iff_atr_missing (params conservative) BUY
                  NaN 0.5 1000 0.02 2.5 eq_refl eq_refl eq_refl eq_refl
                  eq_refl eq_refl)).
  reflexivity.
Defined.

End LiveSizingFailure.

(** ** The output of the live signal *)

Section LiveOutput.

Import Strategy Live.

Lemma live_signal_has_mode (row : Row) :
  ls_mode_used (generate_signals_live row) = None ->
  ls_signal (generate_signals_live row) = NEUTRAL.
Proof.
  unfold generate_signals_live.
  destruct (isna (combined_trend row) || isna (timeframe_alignment row));
    [reflexivity|].
  cbv zeta.
  destruct (_ && _); destruct (_ || _); discriminate.
Qed.

(** X24. Whenever the live signal returns, its output carries sizing fields
    exactly when the signal is BUY or SELL; with an equity of zero the
    signal is NEUTRAL and no mode is chosen, whatever the row; and a sized
    output has a rounded leverage between 1 and 100. *)
Theorem live_output_is_sized_iff_it_signals (current_equity : fl) (row : Row)
  (o : Output) :
  signal_output current_equity row = Some o ->
  (out_sizing o = None <-> out_signal o = NEUTRAL)
  /\ ((current_equity =? Fin 0)%fl = true ->
      out_signal o = NEUTRAL /\ out_mode_used o = None)
  /\ (forall sz, out_sizing o = Some sz ->
                 (1 <= sz_leverage_rounded sz <= 100)%Z).
Proof.
  unfold signal_output.
  destruct (current_equity =? Fin 0)%fl.
  { intro H. injection H as <-. cbn. repeat split; discriminate. }
  cbv zeta.
  pose proof (live_signal_has_mode row) as Hmode.
  destruct (ls_signal (generate_signals_live row)) eqn:Es;
    destruct (ls_mode_used (generate_signals_live row)) as [mode|] eqn:Em;
    try (specialize (Hmode eq_refl); discriminate Hmode).
  all: try (intro H; injection H as <-; cbn;
            split; [split; reflexivity|split; [discriminate|discriminate]]).
  all: destruct (size_position _ _ _ _ _) as [sz|] eqn:E; try discriminate;
       intro H; injection H as <-; cbn [out_sizing out_signal];
       (split; [split; discriminate|split; [discriminate|]]);
       intros sz' Hsz; injection Hsz as <-;
       unfold size_position in E; cbv zeta in E.
  all: match type of E with
       | context [to_int ?x] => destruct (to_int x) as [n|] eqn:En
       end; try discriminate E; injection E as <-;
       cbn [sz_leverage_rounded];
       exact (proj1 (rounded_leverage_cases _ _ En)).
Qed.

Lemma live_output_is_sized_iff_it_signals_witness :
  match signal_output (Fin 1000)
          (Samples.row_of 7 (Fin 1) (Fin 0.02) (Fin 60) (Fin 0.5) (Fin 0.9))
  with
  | Some o => out_sizing o = None <-> out_signal o = NEUTRAL
  | None => False
  end.
Proof.
  destruct (signal_output (Fin 1000)
              (Samples.row_of 7 (Fin 1) (Fin 0.02) (Fin 60) (Fin 0.5)
                 (Fin 0.9))) as [o|] eqn:E.
  - exact (proj1 (live_output_is_sized_iff_it_signals _ _ _ E)).
  - vm_compute in E. discriminate E.
Defined.

End LiveOutput.
